(** * ClinicPro: the IndexedDB persistence wrapper and the dashboard

    A shallow embedding of [assets/scripts/core/database.js]
    (class [DatabaseService]) and of the parts of [assets/scripts/app.js]
    (class [ClinicProApp]) that configure the database, compute the
    dashboard (the statistics, the "upcoming appointments" list, the
    charts, the times ago), and keep the theme, the sidebar, the
    notifications and the backup.

    Conventions of the embedding.
    - Runtime values are the JSON-representable ones ([jsval]): [null],
      booleans, numbers (integers here), strings, arrays and objects, which
      covers the records of the application, flat objects with scalar
      fields.  [undefined] only arises as the result of a property access
      or of a lookup and is the [None] of an [option]; [Date] objects and
      non-finite numbers are not values of the model.
    - A JSON text is represented by the tree of the document it denotes.
      Every value of the model has a document and every document is a
      value, so [JSON_stringify] and [JSON_parse] are the two directions of
      one identification.  A string that is no JSON text is [Not_JSON];
      [import] is the method on a JSON text and [import_text] the method
      on any string, with the [SyntaxError] of [JSON.parse].
    - A string is kept as its UTF-8 bytes; its length, its order and its
      code points are those of JavaScript, by UTF-16 code units.
    - A promise is represented by the way it settles ([settled]), together
      with the database state left behind.  Every wrapper method opens a
      transaction of its own holding one request, and IndexedDB runs
      read-write transactions on one store in the order of their creation:
      a method call is one atomic step, and a batch of calls issued in a
      loop runs in issue order.
    - The object stores follow the Indexed Database API: records keyed by
      the value at the store's key path, kept in key order, with secondary
      indexes that may be declared unique.
    - The page is the part of the DOM that the application touches: the
      body and the elements that it looks up by id, each with its text,
      its class tokens and its [style.display].  What the host decides
      (the collation, the time zone, the formatting of a date for a
      locale, the parsing of a date string, the random numbers, the room
      left in [localStorage]) is a variable of a section or an argument of
      the method that depends on it. *)

From Stdlib Require Import ZArith String Ascii.
From Stdlib Require DecimalString.
From stdpp Require Import base option list sorting strings gmap fin_maps.

Set Warnings "-register-all,-clear-no-such-hyp".

Local Open Scope string_scope.
Local Open Scope Z_scope.

(** ** JavaScript values *)

Inductive jsval :=
  | VNull
  | VBool (b : bool)
  | VNum (n : Z)
  | VStr (s : string)
  | VArr (elems : list jsval)
  | VObj (props : list (string * jsval)).

(** The failures the program can surface: the [DOMException] names of the
    Indexed Database API, of the class list and of [localStorage], and the
    JavaScript [TypeError] and [SyntaxError] (the exception of [JSON.parse];
    the [DOMException] of that name, thrown for an ill-formed class token
    or key path, goes by the same constructor). *)
Inductive error :=
  | ConstraintError
  | DataError
  | NotFoundError
  | VersionError
  | AbortError
  | TypeError
  | SyntaxError
  | InvalidCharacterError
  | QuotaExceededError.

(** How a promise settles. *)
Inductive settled (A : Type) :=
  | Resolved (a : A)
  | Rejected (e : error).
Arguments Resolved {A} a.
Arguments Rejected {A} e.

(** [ToBoolean]; the argument is [None] for [undefined]. *)
Definition truthy (v : option jsval) : bool :=
  match v with
  | None => false
  | Some VNull => false
  | Some (VBool b) => b
  | Some (VNum n) => negb (n =? 0)
  | Some (VStr s) => negb (String.eqb s "")
  | Some (VArr _) => true
  | Some (VObj _) => true
  end.

(** Own-property lookup in a property list; a later binding of a name
    overrides an earlier one, as in an object literal and in [JSON.parse]. *)
Fixpoint prop_lookup (name : string) (props : list (string * jsval))
  : option jsval :=
  match props with
  | [] => None
  | (n, v) :: rest =>
      match prop_lookup name rest with
      | Some w => Some w
      | None => if String.eqb n name then Some v else None
      end
  end.

(** [v.name]: throws on [null], is [undefined] when the property is missing
    (the names used here are no built-in property of a primitive or of an
    array). *)
Definition get_prop (v : jsval) (name : string) : error + option jsval :=
  match v with
  | VNull => inl TypeError
  | VObj props => inr (prop_lookup name props)
  | _ => inr None
  end.

(** [JSON.stringify(v, null, 2)] and [JSON.parse(text)], on documents kept
    as trees (see the conventions above). *)
Definition JSON_stringify (v : jsval) : jsval := v.
Definition JSON_parse (document : jsval) : jsval := document.

(** *** Strings, by code units

    A string of the model is the UTF-8 encoding of the JavaScript string
    (which is taken to be well formed: no lone surrogate), as a string
    literal of this file is.  JavaScript measures and orders a string by its
    UTF-16 code units, and iterates over it by code points; the definitions
    below read the three off the bytes. *)

(** The bytes [0x80] to [0xBF], which continue a code point. *)
Definition is_continuation (c : ascii) : bool :=
  ((128 <=? N_of_ascii c) && (N_of_ascii c <? 192))%N.

(** The code units of the code point that a byte starts: none for a
    continuation byte, two (a surrogate pair) for a lead byte from [0xF0],
    which starts a code point above [U+FFFF], one otherwise. *)
Definition units_of_byte (c : ascii) : nat :=
  if is_continuation c then 0%nat
  else if (240 <=? N_of_ascii c)%N then 2%nat
  else 1%nat.

(** [s.length]. *)
Fixpoint code_unit_length (s : string) : nat :=
  match s with
  | EmptyString => 0%nat
  | String c rest => (units_of_byte c + code_unit_length rest)%nat
  end.

(** The code points of a string, each as a string: what [for ... of]
    visits.  A byte is joined with the continuation bytes after it. *)
Fixpoint code_points (s : string) : list string :=
  match s with
  | EmptyString => []
  | String c rest =>
      match code_points rest with
      | String c' piece :: pieces =>
          if is_continuation c' then String c (String c' piece) :: pieces
          else String c EmptyString :: String c' piece :: pieces
      | pieces => String c EmptyString :: pieces
      end
  end.

(** The place of a byte in the order of code units.  The order of the
    bytes of UTF-8 is the order of the code points; the order of the code
    units differs from it in one respect: the code points above [U+FFFF]
    (lead bytes from [0xF0]) are surrogate pairs, [0xD800] to [0xDFFF], and
    so come before the code points [U+E000] to [U+FFFF] (lead bytes [0xEE]
    and [0xEF]). *)
Definition unit_rank (c : ascii) : N :=
  let b := N_of_ascii c in
  if (b <? 238)%N then b
  else if (b <? 240)%N then (b + 16)%N
  else (b - 2)%N.

(** The comparison of two strings by code units, as [<] on strings and
    the comparison of IndexedDB keys have it. *)
Fixpoint units_compare (x y : string) : comparison :=
  match x, y with
  | EmptyString, EmptyString => Eq
  | EmptyString, String _ _ => Lt
  | String _ _, EmptyString => Gt
  | String a x', String b y' =>
      match N.compare (unit_rank a) (unit_rank b) with
      | Eq => units_compare x' y'
      | c => c
      end
  end.

(** The elements a [for ... of] loop visits: arrays and strings are
    iterable, the other values are not. *)
Definition iterate (v : jsval) : option (list jsval) :=
  match v with
  | VArr elems => Some elems
  | VStr s => Some (VStr <$> code_points s)
  | _ => None
  end.

(** ** IndexedDB keys *)

Inductive key :=
  | KNum (n : Z)
  | KStr (s : string)
  | KArr (ks : list key).

(** "Convert a value to a key": numbers, strings and arrays of keys are
    keys; [null], booleans and objects are not. *)
Fixpoint to_key (v : jsval) : option key :=
  match v with
  | VNum n => Some (KNum n)
  | VStr s => Some (KStr s)
  | VArr elems =>
      KArr <$>
        (fix go (l : list jsval) : option (list key) :=
           match l with
           | [] => Some []
           | x :: r =>
               match to_key x, go r with
               | Some k, Some ks => Some (k :: ks)
               | _, _ => None
               end
           end) elems
  | _ => None
  end.

(** The value a key stands for. *)
Fixpoint key_value (k : key) : jsval :=
  match k with
  | KNum n => VNum n
  | KStr s => VStr s
  | KArr ks => VArr (map key_value ks)
  end.

(** "Compare two keys": numbers sort before strings and strings before
    arrays; strings compare by code units; arrays compare element by
    element, a proper prefix first. *)
Fixpoint key_compare (a b : key) : comparison :=
  match a, b with
  | KNum x, KNum y => Z.compare x y
  | KNum _, _ => Lt
  | KStr _, KNum _ => Gt
  | KStr x, KStr y => units_compare x y
  | KStr _, KArr _ => Lt
  | KArr xs, KArr ys =>
      (fix go (l : list key) (r : list key) : comparison :=
         match l, r with
         | [], [] => Eq
         | [], _ :: _ => Lt
         | _ :: _, [] => Gt
         | x :: l', y :: r' =>
             match key_compare x y with
             | Eq => go l' r'
             | c => c
             end
         end) xs ys
  | KArr _, _ => Gt
  end.

Definition key_leb (a b : key) : bool :=
  match key_compare a b with Gt => false | _ => true end.

(** Keys are countable, which lets them index a [gmap]. *)
Fixpoint key_to_tree (k : key) : gen_tree (Z + string) :=
  match k with
  | KNum n => GenLeaf (inl n)
  | KStr s => GenLeaf (inr s)
  | KArr ks => GenNode 0 (map key_to_tree ks)
  end.

Fixpoint key_of_tree (t : gen_tree (Z + string)) : key :=
  match t with
  | GenLeaf (inl n) => KNum n
  | GenLeaf (inr s) => KStr s
  | GenNode _ ts => KArr (map key_of_tree ts)
  end.

Lemma key_ind_nested (P : key -> Prop) :
  (forall n, P (KNum n)) ->
  (forall s, P (KStr s)) ->
  (forall ks, Forall P ks -> P (KArr ks)) ->
  forall k, P k.
Proof.
  intros Hn Hs Ha.
  fix IH 1. intros [n|s|ks].
  - apply Hn.
  - apply Hs.
  - apply Ha. induction ks as [|k ks IHks]; constructor; [apply IH | exact IHks].
Qed.

Lemma key_of_to_tree (k : key) : key_of_tree (key_to_tree k) = k.
Proof.
  induction k as [n|s|ks IH] using key_ind_nested; simpl; try reflexivity.
  f_equal. induction IH as [|k ks Hk _ IHks]; simpl; [reflexivity|].
  by rewrite Hk, IHks.
Qed.

#[global] Instance key_eq_dec : EqDecision key.
Proof.
  intros a b.
  destruct (decide (key_to_tree a = key_to_tree b)) as [E|N].
  - left. rewrite <- (key_of_to_tree a), <- (key_of_to_tree b). by rewrite E.
  - right. intros ->. by apply N.
Defined.

#[global] Instance key_countable : Countable key.
Proof. exact (inj_countable' key_to_tree key_of_tree key_of_to_tree). Defined.

(** ** Strings *)

(** [s.split(sep)] for a one-character separator. *)
Fixpoint split_on (sep : ascii) (s : string) : list string :=
  match s with
  | EmptyString => [EmptyString]
  | String c rest =>
      if Ascii.eqb c sep then EmptyString :: split_on sep rest
      else match split_on sep rest with
           | [] => [String c EmptyString]
           | piece :: pieces => String c piece :: pieces
           end
  end.

(** ** Object stores and indexes (Indexed Database API) *)

(** One entry of [storeConfig.indexes]: the arguments of [createIndex]. *)
Record index_config := {
  ix_name : string;
  ix_keyPath : string;
  ix_unique : bool
}.

(** One entry of [config.stores]; [sc_indexes] is [None] when the entry has
    no [indexes] property. *)
Record store_config := {
  sc_name : string;
  sc_keyPath : string;
  sc_indexes : option (list index_config)
}.

(** The constructor argument of [DatabaseService]. *)
Record db_config := {
  cfg_name : string;
  cfg_version : Z;
  cfg_stores : list store_config
}.

(** An object store: its key path, its indexes and its records, a finite
    map from primary key to stored value. *)
Record object_store := {
  os_keyPath : string;
  os_indexes : list index_config;
  os_records : gmap key jsval
}.

Definition with_records (s : object_store) (r : gmap key jsval) : object_store :=
  {| os_keyPath := os_keyPath s; os_indexes := os_indexes s; os_records := r |}.

(** A database: its version and its object stores by name. *)
Record database := {
  db_version : Z;
  db_stores : gmap string object_store
}.

(** One step of a key path: a property of an object, or the length of a
    string or of an array. *)
Definition path_step (v : jsval) (ident : string) : option jsval :=
  match v with
  | VObj props => prop_lookup ident props
  | VStr s =>
      if String.eqb ident "length"
      then Some (VNum (Z.of_nat (code_unit_length s)))
      else None
  | VArr elems =>
      if String.eqb ident "length" then Some (VNum (Z.of_nat (length elems)))
      else None
  | _ => None
  end.

(** "Evaluate a key path on a value": the empty path is the value itself,
    otherwise the identifiers between the periods are followed in turn. *)
Definition eval_key_path (keyPath : string) (v : jsval) : option jsval :=
  if String.eqb keyPath "" then Some v
  else foldl (fun acc ident => acc ≫= fun w => path_step w ident)
             (Some v) (split_on "." keyPath).

(** "Extract a key from a value using a key path". *)
Definition extract_key (keyPath : string) (v : jsval) : option key :=
  eval_key_path keyPath v ≫= to_key.

(** Whether storing [v] under primary key [k] would put a second record
    with the same index key into the unique index [ix]. *)
Definition index_conflict (ix : index_config) (records : gmap key jsval)
    (k : key) (v : jsval) : bool :=
  ix_unique ix &&
  match extract_key (ix_keyPath ix) v with
  | None => false
  | Some ik =>
      existsb
        (fun '(k', v') =>
           negb (bool_decide (k' = k)) &&
           bool_decide (extract_key (ix_keyPath ix) v' = Some ik))
        (map_to_list records)
  end.

(** "Store a record into an object store": the shared body of
    [IDBObjectStore.add] ([no_overwrite = true]) and [IDBObjectStore.put].
    The key comes from the value (in-line keys, no key generator); a failed
    request aborts its transaction, so the store is left as it was. *)
Definition store_record (no_overwrite : bool) (s : object_store) (v : jsval)
  : error + (key * object_store) :=
  match extract_key (os_keyPath s) v with
  | None => inl DataError
  | Some k =>
      if no_overwrite && bool_decide (is_Some (os_records s !! k))
      then inl ConstraintError
      else if existsb (fun ix => index_conflict ix (os_records s) k v)
                      (os_indexes s)
      then inl ConstraintError
      else inr (k, with_records s (<[k := v]> (os_records s)))
  end.

Definition store_add : object_store -> jsval -> error + (key * object_store) :=
  store_record true.
Definition store_put : object_store -> jsval -> error + (key * object_store) :=
  store_record false.

(** [IDBObjectStore.get(key)]: [None] is the [undefined] result. *)
Definition store_get (s : object_store) (k : jsval) : error + option jsval :=
  match to_key k with
  | None => inl DataError
  | Some k' => inr (os_records s !! k')
  end.

(** [IDBObjectStore.delete(key)]. *)
Definition store_delete (s : object_store) (k : jsval) : error + object_store :=
  match to_key k with
  | None => inl DataError
  | Some k' => inr (with_records s (delete k' (os_records s)))
  end.

(** [IDBObjectStore.clear()]. *)
Definition store_clear (s : object_store) : object_store :=
  with_records s ∅.

(** An [IDBKeyRange]. *)
Record key_range := {
  kr_lower : option key;
  kr_upper : option key;
  kr_lowerOpen : bool;
  kr_upperOpen : bool
}.

Definition key_range_only (k : key) : key_range :=
  {| kr_lower := Some k; kr_upper := Some k;
     kr_lowerOpen := false; kr_upperOpen := false |}.

Definition in_range (r : key_range) (k : key) : bool :=
  match kr_lower r with
  | None => true
  | Some lo =>
      match key_compare lo k with
      | Lt => true
      | Eq => negb (kr_lowerOpen r)
      | Gt => false
      end
  end &&
  match kr_upper r with
  | None => true
  | Some hi =>
      match key_compare k hi with
      | Lt => true
      | Eq => negb (kr_upperOpen r)
      | Gt => false
      end
  end.

(** The [query] argument of [getAll]: absent, a value, or a key range. *)
Inductive query :=
  | QNull
  | QValue (v : jsval)
  | QRange (r : key_range).

Definition query_truthy (q : query) : bool :=
  match q with
  | QNull => false
  | QValue v => truthy (Some v)
  | QRange _ => true
  end.

(** "Convert a value to a key range". *)
Definition query_range (q : query) : error + option key_range :=
  match q with
  | QNull => inr None
  | QValue v =>
      match to_key v with
      | Some k => inr (Some (key_range_only k))
      | None => inl DataError
      end
  | QRange r => inr (Some r)
  end.

Definition in_query (r : option key_range) (k : key) : bool :=
  match r with
  | None => true
  | Some r => in_range r k
  end.

(** The records of a store in ascending key order. *)
Definition records_in_order (records : gmap key jsval) : list (key * jsval) :=
  merge_sort (fun a b => key_leb a.1 b.1) (map_to_list records).

(** [IDBObjectStore.getAll(query)]. *)
Definition store_getAll (s : object_store) (r : option key_range) : list jsval :=
  snd <$> filter (fun kv => in_query r kv.1) (records_in_order (os_records s)).

(** The records of an index: the stored values that have a key under the
    index's key path, by index key and then by primary key. *)
Definition index_leb (a b : key * (key * jsval)) : bool :=
  match key_compare a.1 b.1 with
  | Lt => true
  | Eq => key_leb a.2.1 b.2.1
  | Gt => false
  end.

Definition index_records (ix : index_config) (records : gmap key jsval)
  : list (key * (key * jsval)) :=
  merge_sort index_leb
    (omap (fun kv => (fun ik => (ik, kv)) <$> extract_key (ix_keyPath ix) kv.2)
          (map_to_list records)).

(** [IDBIndex.getAll(query)]. *)
Definition index_getAll (ix : index_config) (s : object_store)
    (r : option key_range) : list jsval :=
  (fun e => e.2.2) <$>
    filter (fun e => in_query r e.1) (index_records ix (os_records s)).

(** [IDBObjectStore.index(name)]. *)
Definition store_index (s : object_store) (name : string) : option index_config :=
  find (fun ix => String.eqb (ix_name ix) name) (os_indexes s).

(** ** Opening a database *)

(** A "valid key path" is the empty string or identifiers separated by
    periods.  An identifier is an ECMAScript [IdentifierName]; on ASCII
    that is a letter, [$] or [_] followed by letters, digits, [$] and [_].
    A character outside ASCII is taken for a letter here, which is exact
    for the letters of the other scripts and lenient for the rest. *)
Definition identifier_start (c : ascii) : bool :=
  let b := N_of_ascii c in
  ((65 <=? b) && (b <=? 90) || (97 <=? b) && (b <=? 122) ||
   (b =? 36) || (b =? 95) || (128 <=? b))%N.

Definition identifier_part (c : ascii) : bool :=
  identifier_start c || ((48 <=? N_of_ascii c) && (N_of_ascii c <=? 57))%N.

Definition is_identifier (s : string) : bool :=
  match s with
  | EmptyString => false
  | String c rest =>
      identifier_start c && forallb identifier_part (list_ascii_of_string rest)
  end.

Definition valid_key_path (keyPath : string) : bool :=
  String.eqb keyPath "" || forallb is_identifier (split_on "." keyPath).

(** [createIndex] for each configured index, on a store just created; a
    repeated index name throws a [ConstraintError] and a key path that is
    not valid a [SyntaxError]; either aborts the upgrade. *)
Definition create_indexes (ixs : list index_config) : option (list index_config) :=
  foldl
    (fun acc ix =>
       acc ≫= fun made =>
         if existsb (fun ix' => String.eqb (ix_name ix') (ix_name ix)) made
         then None
         else if valid_key_path (ix_keyPath ix) then Some (made ++ [ix])%list
         else None)
    (Some []) ixs.

(** [createObjectStore] with the configured key path, which throws a
    [SyntaxError] when the key path is not valid, and then the indexes. *)
Definition create_store (sc : store_config) : option object_store :=
  if valid_key_path (sc_keyPath sc) then
    match create_indexes (default [] (sc_indexes sc)) with
    | None => None
    | Some ixs =>
        Some {| os_keyPath := sc_keyPath sc;
                os_indexes := ixs;
                os_records := ∅ |}
    end
  else None.

(** The [onupgradeneeded] handler of [init]: every configured store that
    does not exist yet is created with its indexes; an existing store is
    left as it is.  An exception thrown on the way ([None]) aborts the
    upgrade. *)
Definition upgrade (stores : list store_config)
    (existing : gmap string object_store) : option (gmap string object_store) :=
  foldl
    (fun acc sc =>
       acc ≫= fun m =>
         match m !! sc_name sc with
         | Some _ => Some m
         | None =>
             match create_store sc with
             | None => None
             | Some s => Some (<[sc_name sc := s]> m)
             end
         end)
    (Some existing) stores.

(** ** class DatabaseService *)

Record DatabaseService := {
  config : db_config;
  db : option database
}.

(** The object as the constructor leaves it before [init] has completed. *)
Definition constructed (cfg : db_config) : DatabaseService :=
  {| config := cfg; db := None |}.

(** The largest version [indexedDB.open] takes, [2^53 - 1]. *)
Definition MAX_SAFE_INTEGER : Z := 9007199254740991.

(** [init()]: [indexedDB.open(name, version)] against what the origin holds
    under that name ([None]: no such database).  A version outside
    [1 .. 2^53 - 1] is a [TypeError]; a version below the stored one is a
    [VersionError]; a version above it runs the upgrade, and an upgrade
    that throws is aborted, which rejects with an [AbortError]. *)
Definition init (self : DatabaseService) (existing : option database)
  : settled unit * DatabaseService :=
  let version := cfg_version (config self) in
  if (version <? 1) || (MAX_SAFE_INTEGER <? version)
  then (Rejected TypeError, self)
  else
    let old_version := from_option db_version 0 existing in
    let old_stores := from_option db_stores ∅ existing in
    if version <? old_version then (Rejected VersionError, self)
    else if old_version <? version then
      match upgrade (cfg_stores (config self)) old_stores with
      | None => (Rejected AbortError, self)
      | Some m =>
          (Resolved (),
           {| config := config self;
              db := Some {| db_version := version; db_stores := m |} |})
      end
    else
      (Resolved (),
       {| config := config self;
          db := Some {| db_version := old_version; db_stores := old_stores |} |}).

(** [this.db.transaction([storeName], mode).objectStore(storeName)]. *)
Definition open_store (self : DatabaseService) (storeName : string)
  : error + (database * object_store) :=
  match db self with
  | None => inl TypeError
  | Some d =>
      match db_stores d !! storeName with
      | None => inl NotFoundError
      | Some s => inr (d, s)
      end
  end.

(** The service after a transaction on [storeName] has committed [s]. *)
Definition commit (self : DatabaseService) (d : database) (storeName : string)
    (s : object_store) : DatabaseService :=
  {| config := config self;
     db := Some {| db_version := db_version d;
                   db_stores := <[storeName := s]> (db_stores d) |} |}.

(** [add(storeName, item)]: resolves with the key of the new record. *)
Definition add (self : DatabaseService) (storeName : string) (item : jsval)
  : settled key * DatabaseService :=
  match open_store self storeName with
  | inl e => (Rejected e, self)
  | inr (d, store) =>
      match store_add store item with
      | inl e => (Rejected e, self)
      | inr (k, store') => (Resolved k, commit self d storeName store')
      end
  end.

(** [get(storeName, key)]. *)
Definition get (self : DatabaseService) (storeName : string) (k : jsval)
  : settled (option jsval) * DatabaseService :=
  match open_store self storeName with
  | inl e => (Rejected e, self)
  | inr (_, store) =>
      match store_get store k with
      | inl e => (Rejected e, self)
      | inr r => (Resolved r, self)
      end
  end.

(** [getAll(storeName, indexName = null, query = null)]; [indexName] is
    [None] for [null]. *)
Definition getAll (self : DatabaseService) (storeName : string)
    (indexName : option string) (q : query)
  : settled (list jsval) * DatabaseService :=
  match open_store self storeName with
  | inl e => (Rejected e, self)
  | inr (_, store) =>
      let source :=
        if truthy (VStr <$> indexName) then
          match store_index store (default "" indexName) with
          | Some ix => inr (index_getAll ix store)
          | None => inl NotFoundError
          end
        else inr (store_getAll store) in
      match source with
      | inl e => (Rejected e, self)
      | inr get_all =>
          match (if query_truthy q then query_range q else inr None) with
          | inl e => (Rejected e, self)
          | inr r => (Resolved (get_all r), self)
          end
      end
  end.

(** [update(storeName, item)]: resolves with the key of the record. *)
Definition update (self : DatabaseService) (storeName : string) (item : jsval)
  : settled key * DatabaseService :=
  match open_store self storeName with
  | inl e => (Rejected e, self)
  | inr (d, store) =>
      match store_put store item with
      | inl e => (Rejected e, self)
      | inr (k, store') => (Resolved k, commit self d storeName store')
      end
  end.

(** [delete(storeName, key)]. *)
Definition delete_ (self : DatabaseService) (storeName : string) (k : jsval)
  : settled unit * DatabaseService :=
  match open_store self storeName with
  | inl e => (Rejected e, self)
  | inr (d, store) =>
      match store_delete store k with
      | inl e => (Rejected e, self)
      | inr store' => (Resolved (), commit self d storeName store')
      end
  end.

(** [clear(storeName)]. *)
Definition clear (self : DatabaseService) (storeName : string)
  : settled unit * DatabaseService :=
  match open_store self storeName with
  | inl e => (Rejected e, self)
  | inr (d, store) => (Resolved (), commit self d storeName (store_clear store))
  end.

(** ** Date (ECMAScript time values, UTC) *)

Definition msPerDay : Z := 86400000.

Definition Day (t : Z) : Z := t / msPerDay.

Definition DaysInYear (y : Z) : Z :=
  if negb (y mod 4 =? 0) then 365
  else if negb (y mod 100 =? 0) then 366
  else if negb (y mod 400 =? 0) then 365
  else 366.

Definition DayFromYear (y : Z) : Z :=
  365 * (y - 1970) + (y - 1969) / 4 - (y - 1901) / 100 + (y - 1601) / 400.

(** [YearFromTime]: the largest [y] with [DayFromYear y <= Day t], found
    next to the estimate that the mean length of a year gives. *)
Definition YearFromDay (d : Z) : Z :=
  let guess := 1970 + (400 * d) / 146097 in
  if d <? DayFromYear guess then guess - 1
  else if DayFromYear (guess + 1) <=? d then guess + 1
  else guess.

Definition YearFromTime (t : Z) : Z := YearFromDay (Day t).

Definition InLeapYear (t : Z) : Z :=
  if DaysInYear (YearFromTime t) =? 366 then 1 else 0.

Definition DayWithinYear (t : Z) : Z := Day t - DayFromYear (YearFromTime t).

(** [MonthFromTime]: 0 for January ... 11 for December. *)
Definition MonthFromTime (t : Z) : Z :=
  let d := DayWithinYear t in
  let leap := InLeapYear t in
  if d <? 31 then 0
  else if d <? 59 + leap then 1
  else if d <? 90 + leap then 2
  else if d <? 120 + leap then 3
  else if d <? 151 + leap then 4
  else if d <? 181 + leap then 5
  else if d <? 212 + leap then 6
  else if d <? 243 + leap then 7
  else if d <? 273 + leap then 8
  else if d <? 304 + leap then 9
  else if d <? 334 + leap then 10
  else 11.

(** [DateFromTime]: the day of the month, from 1. *)
Definition DateFromTime (t : Z) : Z :=
  let d := DayWithinYear t in
  let leap := InLeapYear t in
  match MonthFromTime t with
  | 0 => d + 1
  | 1 => d - 30
  | 2 => d - 58 - leap
  | 3 => d - 89 - leap
  | 4 => d - 119 - leap
  | 5 => d - 150 - leap
  | 6 => d - 180 - leap
  | 7 => d - 211 - leap
  | 8 => d - 242 - leap
  | 9 => d - 272 - leap
  | 10 => d - 303 - leap
  | _ => d - 333 - leap
  end.

Definition HourFromTime (t : Z) : Z := (t / 3600000) mod 24.
Definition MinFromTime (t : Z) : Z := (t / 60000) mod 60.
Definition SecFromTime (t : Z) : Z := (t / 1000) mod 60.
Definition msFromTime (t : Z) : Z := t mod 1000.

(** The decimal digit of the units of [n]. *)
Definition digit (n : Z) : ascii :=
  ascii_of_N (48 + Z.to_N (n mod 10)).

Definition pad2 (n : Z) : string :=
  String (digit (n / 10)) (String (digit n) "").
Definition pad3 (n : Z) : string :=
  String (digit (n / 100)) (pad2 n).
Definition pad4 (n : Z) : string :=
  String (digit (n / 1000)) (pad3 n).
Definition pad6 (n : Z) : string :=
  String (digit (n / 100000)) (String (digit (n / 10000)) (pad4 n)).

(** The year of the date-time string format: four digits from 0 to 9999,
    otherwise a sign and six digits. *)
Definition iso_year (y : Z) : string :=
  if (0 <=? y) && (y <=? 9999) then pad4 y
  else if y <? 0 then "-" ++ pad6 (- y)
  else "+" ++ pad6 y.

(** [Date.prototype.toISOString] of a valid time value. *)
Definition toISOString (t : Z) : string :=
  iso_year (YearFromTime t) ++ "-" ++ pad2 (MonthFromTime t + 1) ++ "-" ++
  pad2 (DateFromTime t) ++ "T" ++ pad2 (HourFromTime t) ++ ":" ++
  pad2 (MinFromTime t) ++ ":" ++ pad2 (SecFromTime t) ++ "." ++
  pad3 (msFromTime t) ++ "Z".

(** The time values a [Date] can hold. *)
Definition valid_time (t : Z) : Prop :=
  -8640000000000000 <= t <= 8640000000000000.

(** ** Batches of requests *)

(** A rejection raised while the request is being issued (a throw inside
    the promise executor) is settled at once; a constraint violation is
    reported later, by the request's error event. *)
Definition thrown_on_issue (e : error) : bool :=
  match e with
  | ConstraintError => false
  | _ => true
  end.

Definition rejection {A} (sel : error -> bool) (p : settled A) : option error :=
  match p with
  | Rejected e => if sel e then Some e else None
  | Resolved _ => None
  end.

Definition resolution {A} (p : settled A) : option A :=
  match p with
  | Resolved a => Some a
  | Rejected _ => None
  end.

(** [Promise.all(promises)]: the values in order when every promise
    resolves, and otherwise the reason of the promise that rejects first,
    the ones that were rejected on issue before the others. *)
Definition Promise_all {A} (promises : list (settled A)) : settled (list A) :=
  match omap (rejection thrown_on_issue) promises,
        omap (rejection (fun _ => true)) promises with
  | e :: _, _ => Rejected e
  | [], e :: _ => Rejected e
  | [], [] => Resolved (omap resolution promises)
  end.

(** The service together with the promises pushed so far. *)
Definition batch : Type := DatabaseService * list (settled key).

(** [for (const x of elems) promises.push(op(x))]. *)
Definition push_each (op : DatabaseService -> jsval -> settled key * DatabaseService)
    (elems : list jsval) (b : batch) : batch :=
  foldl (fun '(self, promises) x =>
           let '(p, self') := op self x in (self', (promises ++ [p])%list))
        b elems.

(** [if (data.field) { for (const x of data.field) promises.push(op(x)) }];
    the left result is the exception the statement throws. *)
Definition push_field (data : jsval) (field : string)
    (op : DatabaseService -> jsval -> settled key * DatabaseService)
    (b : batch) : error + batch :=
  match get_prop data field with
  | inl e => inl e
  | inr v =>
      if truthy v then
        match v ≫= iterate with
        | Some elems => inr (push_each op elems b)
        | None => inl TypeError
        end
      else inr b
  end.

(** [saveAll(data)]. *)
Definition saveAll (self : DatabaseService) (data : jsval)
  : settled (list key) * DatabaseService :=
  match push_field data "doctors" (fun s => update s "doctors") (self, []) with
  | inl e => (Rejected e, self)
  | inr b1 =>
      match push_field data "patients" (fun s => update s "patients") b1 with
      | inl e => (Rejected e, b1.1)
      | inr b2 =>
          match push_field data "appointments"
                  (fun s => update s "appointments") b2 with
          | inl e => (Rejected e, b2.1)
          | inr b3 => (Promise_all b3.2, b3.1)
          end
      end
  end.

(** [export()], with the reading [now] of the clock that [new Date()]
    takes; the result is the JSON document. *)
Definition export (self : DatabaseService) (now : Z)
  : settled jsval * DatabaseService :=
  match getAll self "doctors" None QNull with
  | (Rejected e, self1) => (Rejected e, self1)
  | (Resolved doctors, self1) =>
      match getAll self1 "patients" None QNull with
      | (Rejected e, self2) => (Rejected e, self2)
      | (Resolved patients, self2) =>
          match getAll self2 "appointments" None QNull with
          | (Rejected e, self3) => (Rejected e, self3)
          | (Resolved appointments, self3) =>
              let data :=
                VObj [("doctors", VArr doctors);
                      ("patients", VArr patients);
                      ("appointments", VArr appointments);
                      ("exportedAt", VStr (toISOString now));
                      ("version", VNum (cfg_version (config self3)))] in
              (Resolved (JSON_stringify data), self3)
          end
      end
  end.

(** [import(jsonData)].  The stores are cleared one after the other, each
    [clear] awaited; the [add] calls of the three loops are then issued,
    and the result is [Promise.all] of their promises.  An exception of a
    loop rejects the call at once, the requests issued before it still
    running. *)
Definition import (self : DatabaseService) (jsonData : jsval)
  : settled (list key) * DatabaseService :=
  let data := JSON_parse jsonData in
  match clear self "doctors" with
  | (Rejected e, self1) => (Rejected e, self1)
  | (Resolved _, self1) =>
      match clear self1 "patients" with
      | (Rejected e, self2) => (Rejected e, self2)
      | (Resolved _, self2) =>
          match clear self2 "appointments" with
          | (Rejected e, self3) => (Rejected e, self3)
          | (Resolved _, self3) =>
              match push_field data "doctors"
                      (fun s => add s "doctors") (self3, []) with
              | inl e => (Rejected e, self3)
              | inr b1 =>
                  match push_field data "patients"
                          (fun s => add s "patients") b1 with
                  | inl e => (Rejected e, b1.1)
                  | inr b2 =>
                      match push_field data "appointments"
                              (fun s => add s "appointments") b2 with
                      | inl e => (Rejected e, b2.1)
                      | inr b3 => (Promise_all b3.2, b3.1)
                      end
                  end
              end
          end
      end
  end.

(** A string handed to [JSON.parse]: the text of a document, or a string
    that is no JSON text. *)
Inductive text :=
  | JSON_text (document : jsval)
  | Not_JSON.

(** [import(jsonData)] on any string.  [JSON.parse] is the first statement
    of the method: on a string that is no JSON text it throws a
    [SyntaxError], which rejects the call before any store is cleared. *)
Definition import_text (self : DatabaseService) (jsonData : text)
  : settled (list key) * DatabaseService :=
  match jsonData with
  | Not_JSON => (Rejected SyntaxError, self)
  | JSON_text document => import self document
  end.

(** ** class ClinicProApp *)

(** The configuration that [initCoreModules] passes to [DatabaseService]. *)
Definition clinic_config : db_config :=
  {| cfg_name := "clinicpro_db";
     cfg_version := 2;
     cfg_stores :=
       [ {| sc_name := "doctors";
            sc_keyPath := "id";
            sc_indexes := Some
              [ {| ix_name := "name"; ix_keyPath := "name"; ix_unique := false |};
                {| ix_name := "specialty"; ix_keyPath := "specialty"; ix_unique := false |};
                {| ix_name := "isActive"; ix_keyPath := "isActive"; ix_unique := false |} ] |};
         {| sc_name := "patients";
            sc_keyPath := "id";
            sc_indexes := Some
              [ {| ix_name := "name"; ix_keyPath := "name"; ix_unique := false |};
                {| ix_name := "phone"; ix_keyPath := "phone"; ix_unique := true |};
                {| ix_name := "createdAt"; ix_keyPath := "createdAt"; ix_unique := false |} ] |};
         {| sc_name := "appointments";
            sc_keyPath := "id";
            sc_indexes := Some
              [ {| ix_name := "date"; ix_keyPath := "date"; ix_unique := false |};
                {| ix_name := "status"; ix_keyPath := "status"; ix_unique := false |};
                {| ix_name := "doctorId"; ix_keyPath := "doctorId"; ix_unique := false |};
                {| ix_name := "patientId"; ix_keyPath := "patientId"; ix_unique := false |} ] |} ] |}.

(** An appointment of [this.state.appointments], with the properties that
    [app.js] reads from it; they are strings ([updateUpcomingAppointments]
    calls [localeCompare] on the date and the time of the appointments it
    compares, which an appointment without them would make throw). *)
Record appointment := {
  id_ : string;
  date : string;
  time : string;
  status : string;
  type_ : string;
  doctorId : string;
  patientId : string;
  createdAt : string
}.

(** [Array.prototype.sort(comparefn)]: the stable sort; [x] goes before the
    first element that does not sort before it. *)
Fixpoint sort_insert {A} (comparefn : A -> A -> Z) (x : A) (l : list A) : list A :=
  match l with
  | [] => [x]
  | y :: rest =>
      if comparefn x y <=? 0 then x :: y :: rest
      else y :: sort_insert comparefn x rest
  end.

Fixpoint Array_sort {A} (comparefn : A -> A -> Z) (l : list A) : list A :=
  match l with
  | [] => []
  | x :: rest => sort_insert comparefn x (Array_sort comparefn rest)
  end.

(** [new Date().toISOString().split('T')[0]] at the clock reading [now]. *)
Definition today_of (now : Z) : string :=
  hd "" (split_on "T" (toISOString now)).

Section UpcomingAppointments.

(** [String.prototype.localeCompare], the host's collation. *)
Variable localeCompare : string -> string -> Z.

(** The template literal that renders one row of the table (it looks the
    doctor and the patient up and formats the date for the locale), and
    the placeholder row of an empty table. *)
Variable row : appointment -> string.
Variable empty_row : string.

(** The compare function of [updateUpcomingAppointments]. *)
Definition upcoming_compare (a b : appointment) : Z :=
  if String.eqb (date a) (date b) then localeCompare (time a) (time b)
  else localeCompare (date a) (date b).

(** The list [upcoming] of [updateUpcomingAppointments]:
    [filter(a => a.date >= today).sort(...).slice(0, 10)].  The date of
    today is written in ASCII, against which the order of the bytes is the
    order of the code units. *)
Definition upcoming (appointments : list appointment) (today : string)
  : list appointment :=
  take 10
    (Array_sort upcoming_compare
       (List.filter (fun a => String.leb today (date a)) appointments)).

(** [updateUpcomingAppointments()]: [table] is whether the element
    [upcomingAppointmentsTable] exists; the result is the [innerHTML] it
    is given, [None] when the method returns without writing. *)
Definition updateUpcomingAppointments (table : bool)
    (appointments : list appointment) (now : Z) : option string :=
  if negb table then None
  else
    let today := today_of now in
    let rows := upcoming appointments today in
    let html := String.concat "" (row <$> rows) in
    if (length rows =? 0)%nat then Some empty_row else Some html.

End UpcomingAppointments.

(** ** The page and the dashboard ([app.js]) *)

(** The methods below read [this.state] through typed views, as
    [updateUpcomingAppointments] does: a doctor, a patient and a
    notification are records with the properties that the methods read, the
    age of a patient being a number. *)
Record Doctor := {
  d_id : string;
  d_name : string;
  d_specialty : string;
  d_isActive : bool
}.

Record Patient := {
  p_id : string;
  p_name : string;
  p_phone : string;
  p_age : Z;
  p_gender : string;
  p_createdAt : string
}.

Record Notification := {
  n_id : string;
  n_type : string;
  n_title : string;
  n_message : string;
  n_time : string;
  n_read : bool
}.

(** [Number.prototype.toString] of an integer: its decimal numeral. *)
Definition Number_toString (n : Z) : string :=
  DecimalString.NilZero.string_of_int (Z.to_int n).

(** The [length] of an array, as the number it is. *)
Definition Array_length {A} (l : list A) : Z := Z.of_nat (length l).

(** *** The document *)

(** An element of the page, as far as the application touches it: its
    text, the tokens of its [class] attribute and [style.display]. *)
Record element := {
  textContent : string;
  classList : list string;
  display : string
}.

(** The page: [document.body] and the elements that have an id. *)
Record document := {
  body : element;
  elements : gmap string element
}.

Definition getElementById (d : document) (id : string) : option element :=
  elements d !! id.

Definition set_element (d : document) (id : string) (el : element) : document :=
  {| body := body d; elements := <[id := el]> (elements d) |}.

(** [DOMTokenList]: [remove(...tokens)], [add(token)] and [toggle(token)]
    on the tokens of an element, for valid tokens. *)
Definition has_token (token : string) (tokens : list string) : bool :=
  existsb (String.eqb token) tokens.

Definition token_remove (removed : list string) (tokens : list string)
  : list string :=
  List.filter (fun t => negb (has_token t removed)) tokens.

Definition token_add (token : string) (tokens : list string) : list string :=
  if has_token token tokens then tokens else (tokens ++ [token])%list.

Definition token_toggle (token : string) (tokens : list string) : list string :=
  if has_token token tokens then token_remove [token] tokens
  else (tokens ++ [token])%list.

(** The exceptions of the page are those of [DOMTokenList.add], for the
    empty token ([SyntaxError]) and for a token with ASCII white space in
    it ([InvalidCharacterError]), and the one of [localStorage.setItem]
    when the storage has no room for the item ([QuotaExceededError]). *)
Definition ascii_whitespace (c : ascii) : bool :=
  existsb (N.eqb (N_of_ascii c)) [9; 10; 12; 13; 32]%N.

Definition check_token (token : string) : option error :=
  if String.eqb token "" then Some SyntaxError
  else if existsb ascii_whitespace (list_ascii_of_string token)
       then Some InvalidCharacterError
       else None.

(** *** The application object *)

(** [this.state], the fields that the methods below read or write. *)
Record app_state := {
  doctors : list Doctor;
  patients : list Patient;
  appointments : list appointment;
  notifications : list Notification;
  sidebarCollapsed : bool;
  theme : string
}.

(** The application with what it acts on: its state, the page, the item
    [clinicpro_theme] of [localStorage] ([None] when there is none), and
    the toasts shown so far, the arguments of [this.ui.toast.show] in the
    order of the calls. *)
Record ClinicProApp := {
  state : app_state;
  page : document;
  saved_theme : option string;
  toasts : list (string * string * string)
}.

Definition with_state (self : ClinicProApp) (st : app_state) : ClinicProApp :=
  {| state := st; page := page self; saved_theme := saved_theme self;
     toasts := toasts self |}.

Definition with_page (self : ClinicProApp) (d : document) : ClinicProApp :=
  {| state := state self; page := d; saved_theme := saved_theme self;
     toasts := toasts self |}.

(** [showToast(type, title, message)]. *)
Definition showToast (self : ClinicProApp) (type title message : string)
  : ClinicProApp :=
  {| state := state self; page := page self; saved_theme := saved_theme self;
     toasts := (toasts self ++ [(type, title, message)])%list |}.

(** *** Statistics *)

(** [document.getElementById(id).textContent = n]: the assignment throws a
    [TypeError] when there is no such element. *)
Definition write_count (d : document) (id : string) (n : Z) : error + document :=
  match getElementById d id with
  | None => inl TypeError
  | Some el =>
      inr (set_element d id
             {| textContent := Number_toString n; classList := classList el;
                display := display el |})
  end.

(** The counts that [updateStats] writes, with the ids of the elements
    they go to, in the order of the assignments. *)
Definition stats (st : app_state) (today : string) : list (string * Z) :=
  let activeDoctors := Array_length (List.filter d_isActive (doctors st)) in
  let totalAppointments := Array_length (appointments st) in
  let todayAppointments :=
    Array_length
      (List.filter (fun a => String.eqb (date a) today) (appointments st)) in
  [ ("doctorsCount", activeDoctors);
    ("activeDoctors", activeDoctors);
    ("patientsCount", Array_length (patients st));
    ("totalPatients", Array_length (patients st));
    ("appointmentsCount", totalAppointments);
    ("todayAppointments", todayAppointments);
    ("totalAppointments", totalAppointments);
    ("dashboardBadge", todayAppointments);
    ("pendingAppointments",
     Array_length
       (List.filter (fun a => String.eqb (status a) "pending") (appointments st)));
    ("notificationCount",
     Array_length (List.filter (fun n => negb (n_read n)) (notifications st))) ].

(** [updateStats()] at the clock reading [now]; the left result is the
    exception that ends the method. *)
Definition updateStats (self : ClinicProApp) (now : Z) : error + ClinicProApp :=
  match
    foldl (fun acc '(id, n) =>
             match acc with
             | inl e => inl e
             | inr d => write_count d id n
             end)
          (inr (page self)) (stats (state self) (today_of now))
  with
  | inl e => inl e
  | inr d => inr (with_page self d)
  end.

(** *** Charts *)

(** The result of a chart data method: [{ labels, values }]. *)
Record chart_data := {
  labels : list string;
  values : list Z
}.

(** [groups[label]++] on the groups in the order of their creation. *)
Definition increment (label : string) (groups : list (string * Z))
  : list (string * Z) :=
  (fun g => if String.eqb g.1 label then (g.1, g.2 + 1) else g) <$> groups.

(** [getPatientsChartData(type = 'age')]. *)
Definition getPatientsChartData (type : string) (patients : list Patient)
  : chart_data :=
  if String.eqb type "age" then
    let groups :=
      foldl (fun groups patient =>
               if p_age patient <? 18 then increment "أقل من 18" groups
               else if p_age patient <=? 30 then increment "18-30" groups
               else if p_age patient <=? 45 then increment "31-45" groups
               else if p_age patient <=? 60 then increment "46-60" groups
               else increment "أكثر من 60" groups)
            [("أقل من 18", 0); ("18-30", 0); ("31-45", 0); ("46-60", 0);
             ("أكثر من 60", 0)]
            patients in
    {| labels := groups.*1; values := groups.*2 |}
  else
    let male :=
      Array_length (List.filter (fun p => String.eqb (p_gender p) "male") patients) in
    let female :=
      Array_length (List.filter (fun p => String.eqb (p_gender p) "female") patients) in
    {| labels := ["ذكور"; "إناث"]; values := [male; female] |}.

(** *** Times *)

Section TimeAgo.

(** The host's part: the time value of [new Date(dateString)] ([None] for
    an invalid date), and [toLocaleDateString('ar-SA', ...)] of a date. *)
Variable Date_parse : string -> option Z.
Variable toLocaleDateString : option Z -> string.

(** [formatDate(dateString)]. *)
Definition formatDate (dateString : string) : string :=
  toLocaleDateString (Date_parse dateString).

(** [formatTimeAgo(dateString)] at the clock reading [now].  The time value
    of an invalid date is [NaN], which fails every comparison. *)
Definition formatTimeAgo (dateString : string) (now : Z) : string :=
  match Date_parse dateString with
  | None => formatDate dateString
  | Some date =>
      let diff := now - date in
      let minutes := diff / 60000 in
      let hours := diff / 3600000 in
      let days := diff / 86400000 in
      if minutes <? 1 then "الآن"
      else if minutes <? 60 then "منذ " ++ Number_toString minutes ++ " دقيقة"
      else if hours <? 24 then "منذ " ++ Number_toString hours ++ " ساعة"
      else if days <? 7 then "منذ " ++ Number_toString days ++ " يوم"
      else formatDate dateString
  end.

End TimeAgo.

(** *** Theme *)

(** [setTheme(theme)]; [room] tells whether [localStorage] takes the item,
    and the left result is the exception that ends the method. *)
Definition setTheme (self : ClinicProApp) (new_theme : string) (room : bool)
  : error + ClinicProApp :=
  let st :=
    {| doctors := doctors (state self); patients := patients (state self);
       appointments := appointments (state self);
       notifications := notifications (state self);
       sidebarCollapsed := sidebarCollapsed (state self);
       theme := new_theme |} in
  let removed := token_remove ["light-mode"; "dark-mode"] (classList (body (page self))) in
  match check_token (new_theme ++ "-mode") with
  | Some e => inl e
  | None =>
      if negb room then inl QuotaExceededError else
      let body' :=
        {| textContent := textContent (body (page self));
           classList := token_add (new_theme ++ "-mode") removed;
           display := display (body (page self)) |} in
      let icon_class :=
        if String.eqb new_theme "dark" then ["fas"; "fa-sun"]
        else ["fas"; "fa-moon"] in
      let elements' :=
        match elements (page self) !! "themeIcon" with
        | Some icon =>
            <["themeIcon" :=
                {| textContent := textContent icon; classList := icon_class;
                   display := display icon |}]> (elements (page self))
        | None => elements (page self)
        end in
      inr {| state := st;
             page := {| body := body'; elements := elements' |};
             saved_theme := Some new_theme;
             toasts := toasts self |}
  end.

(** [toggleTheme()]. *)
Definition toggleTheme (self : ClinicProApp) (room : bool)
  : error + ClinicProApp :=
  setTheme self
    (if String.eqb (theme (state self)) "dark" then "light" else "dark") room.

(** The theme that [initUIComponents] restores:
    [localStorage.getItem('clinicpro_theme') || this.config.defaultTheme]. *)
Definition savedTheme (item : option string) : string :=
  if truthy (VStr <$> item) then default "" item else "dark".

(** The first statements of [initUIComponents()], which set the theme. *)
Definition initUIComponents_theme (self : ClinicProApp) (room : bool)
  : error + ClinicProApp :=
  setTheme self (savedTheme (saved_theme self)) room.

(** *** Sidebar *)

Definition with_sidebarCollapsed (self : ClinicProApp) (b : bool) : ClinicProApp :=
  with_state self
    {| doctors := doctors (state self); patients := patients (state self);
       appointments := appointments (state self);
       notifications := notifications (state self);
       sidebarCollapsed := b;
       theme := theme (state self) |}.

(** [document.getElementById(id)?.classList], changed by [f] when the
    element exists. *)
Definition on_classList (self : ClinicProApp) (id : string)
    (f : list string -> list string) : ClinicProApp :=
  match getElementById (page self) id with
  | Some el =>
      with_page self
        (set_element (page self) id
           {| textContent := textContent el; classList := f (classList el);
              display := display el |})
  | None => self
  end.

(** [toggleSidebar()]. *)
Definition toggleSidebar (self : ClinicProApp) : ClinicProApp :=
  on_classList
    (with_sidebarCollapsed self (negb (sidebarCollapsed (state self))))
    "sidebar" (token_toggle "collapsed").

(** [handleResize()], with the value of [window.innerWidth]. *)
Definition handleResize (self : ClinicProApp) (innerWidth : Z) : ClinicProApp :=
  if innerWidth <? 768 then
    with_sidebarCollapsed
      (on_classList self "sidebar" (token_add "collapsed")) true
  else self.

(** *** Notifications *)

Definition with_notifications (self : ClinicProApp) (l : list Notification)
  : ClinicProApp :=
  with_state self
    {| doctors := doctors (state self); patients := patients (state self);
       appointments := appointments (state self);
       notifications := l;
       sidebarCollapsed := sidebarCollapsed (state self);
       theme := theme (state self) |}.

(** The number of unread notifications. *)
Definition unreadCount (self : ClinicProApp) : Z :=
  Array_length (List.filter (fun n => negb (n_read n)) (notifications (state self))).

(** [updateNotificationBadge()]. *)
Definition updateNotificationBadge (self : ClinicProApp) : ClinicProApp :=
  match getElementById (page self) "notificationCount" with
  | Some badge =>
      with_page self
        (set_element (page self) "notificationCount"
           {| textContent := Number_toString (unreadCount self);
              classList := classList badge;
              display := if 0 <? unreadCount self then "flex" else "none" |})
  | None => self
  end.

(** [toggleNotifications()]. *)
Definition toggleNotifications (self : ClinicProApp) : ClinicProApp :=
  on_classList self "notificationPanel" (token_toggle "show").

(** [markAllAsRead()]. *)
Definition markAllAsRead (self : ClinicProApp) : ClinicProApp :=
  let read n :=
    {| n_id := n_id n; n_type := n_type n; n_title := n_title n;
       n_message := n_message n; n_time := n_time n; n_read := true |} in
  let self1 := with_notifications self (read <$> notifications (state self)) in
  showToast (toggleNotifications (updateNotificationBadge self1))
    "success" "تم" "تم تعيين جميع الإشعارات كمقروءة".

(** [showNewNotifications(notifications)]. *)
Definition showNewNotifications (self : ClinicProApp) (l : list Notification)
  : ClinicProApp :=
  foldl (fun self n => showToast self "info" (n_title n) (n_message n)) self l.

(** [checkNewNotifications()], with the list that [loadNewNotifications]
    resolves with. *)
Definition checkNewNotifications (self : ClinicProApp)
    (newNotifications : list Notification) : ClinicProApp :=
  if 0 <? Array_length newNotifications then
    showNewNotifications
      (updateNotificationBadge
         (with_notifications self
            (newNotifications ++ notifications (state self))%list))
      newNotifications
  else self.

(** *** Saving *)

(** [{ name: v }] as a list of properties; a property whose value is
    [undefined] reads like a missing one. *)
Definition property (name : string) (v : option jsval) : list (string * jsval) :=
  match v with
  | Some w => [(name, w)]
  | None => []
  end.

(** What [saveData] did: it saved the records and the backup, or the
    database call threw or was rejected, or [localStorage] refused the
    backup; in the last two cases the [catch] clause logs the error. *)
Inductive save_outcome :=
  | Saved
  | SaveFailed (e : error)
  | BackupFailed (e : error).

(** [saveData()] on the database service [this.db], with [this.state] as
    the JSON value it is.  [backup] is the item [clinicpro_backup] of
    [localStorage] and [room] tells whether [localStorage] takes the new
    item.  The result holds the service and the item after the call; the
    promise of [saveData] itself always resolves. *)
Definition saveData (self : DatabaseService) (this_state : jsval)
    (backup : option jsval) (room : bool)
  : DatabaseService * option jsval * save_outcome :=
  match get_prop this_state "doctors", get_prop this_state "patients",
        get_prop this_state "appointments" with
  | inr ds, inr ps, inr aps =>
      let data :=
        VObj (property "doctors" ds ++ property "patients" ps ++
              property "appointments" aps)%list in
      match saveAll self data with
      | (Resolved _, self') =>
          if room then (self', Some (JSON_stringify this_state), Saved)
          else (self', backup, BackupFailed QuotaExceededError)
      | (Rejected e, self') => (self', backup, SaveFailed e)
      end
  | inl e, _, _ => (self, backup, SaveFailed e)
  | _, inl e, _ => (self, backup, SaveFailed e)
  | _, _, inl e => (self, backup, SaveFailed e)
  end.

(** *** The appointments chart *)

(** The number of days of the year [y] before its month [m], from 0 for
    January. *)
Definition DaysBeforeMonth (y m : Z) : Z :=
  let leap := if DaysInYear y =? 366 then 1 else 0 in
  match m with
  | 0 => 0
  | 1 => 31
  | 2 => 59 + leap
  | 3 => 90 + leap
  | 4 => 120 + leap
  | 5 => 151 + leap
  | 6 => 181 + leap
  | 7 => 212 + leap
  | 8 => 243 + leap
  | 9 => 273 + leap
  | 10 => 304 + leap
  | _ => 334 + leap
  end.

(** [MakeDay(year, month, date)]: the day number of the given day, a month
    outside of 0 to 11 being carried into the year. *)
Definition MakeDay (year month date : Z) : Z :=
  let ym := year + month / 12 in
  let mn := month mod 12 in
  DayFromYear ym + DaysBeforeMonth ym mn + date - 1.

Section LocalTime.

(** The host's part: the offset of local time from UTC in milliseconds at
    the time [t], which is a UTC time when the flag is set and a local time
    otherwise, and [toLocaleDateString('ar-SA', { month: 'short' })] of a
    time value. *)
Variable LocalTZA : Z -> bool -> Z.
Variable month_label : Z -> string.

Definition LocalTime (t : Z) : Z := t + LocalTZA t true.
Definition UTC (t : Z) : Z := t - LocalTZA t false.

(** [getFullYear()] and [getMonth()] of the date with time value [t]. *)
Definition getFullYear (t : Z) : Z := YearFromTime (LocalTime t).
Definition getMonth (t : Z) : Z := MonthFromTime (LocalTime t).

(** The time value of [new Date(year, month, date)]: local midnight of the
    day, a year from 0 to 99 standing for 1900 to 1999. *)
Definition Date_local (year month date : Z) : Z :=
  let yr := if (0 <=? year) && (year <=? 99) then 1900 + year else year in
  UTC (MakeDay yr month date * msPerDay).

(** The months of the monthly chart, five months ago first: the time
    values of [new Date(now.getFullYear(), now.getMonth() - i, 1)]. *)
Definition chart_months (now : Z) : list Z :=
  (fun i => Date_local (getFullYear now) (getMonth now - i) 1) <$> [5; 4; 3; 2; 1; 0].

(** [getAppointmentsChartData(period = 'monthly')] at the clock reading
    [now]; [randoms] are the four numbers that the weekly branch draws,
    [Math.floor(Math.random() * 20) + 10] each. *)
Definition getAppointmentsChartData (period : string)
    (appointments : list appointment) (now : Z) (randoms : list Z) : chart_data :=
  if String.eqb period "monthly" then
    {| labels := month_label <$> chart_months now;
       values :=
         (fun first =>
            let monthStr := String.substring 0 7 (toISOString first) in
            Array_length
              (List.filter (fun a => String.prefix monthStr (date a)) appointments))
           <$> chart_months now |}
  else if String.eqb period "weekly" then
    {| labels :=
         (fun i => "الأسبوع " ++ Number_toString (i + 1)) <$> [3; 2; 1; 0];
       values := take 4 randoms |}
  else {| labels := []; values := [] |}.

End LocalTime.

(** The month numbered [n] from January of the year 0, as [YYYY-MM]. *)
Definition month_string (n : Z) : string :=
  pad4 (n / 12) ++ "-" ++ pad2 (n mod 12 + 1).

(** ** Vocabulary of the properties *)

(** The records of a store, as a predicate. *)
Definition stored (s : object_store) (v : jsval) : Prop :=
  exists k, os_records s !! k = Some v.

(** The store a name denotes in a service, if the database is open and has
    such a store. *)
Definition store_of (self : DatabaseService) (storeName : string)
  : option object_store :=
  db self ≫= fun d => db_stores d !! storeName.

(** Every record sits under the key its own value carries. *)
Definition keyed_by_path (s : object_store) : Prop :=
  forall k v, os_records s !! k = Some v -> extract_key (os_keyPath s) v = Some k.

(** No two records share a key under the key path of [ix]. *)
Definition index_distinct (ix : index_config) (records : gmap key jsval) : Prop :=
  forall k1 v1 k2 v2 ik,
    records !! k1 = Some v1 -> records !! k2 = Some v2 ->
    extract_key (ix_keyPath ix) v1 = Some ik ->
    extract_key (ix_keyPath ix) v2 = Some ik ->
    k1 = k2.

(** The invariant of an object store. *)
Definition store_ok (s : object_store) : Prop :=
  keyed_by_path s /\
  forall ix, In ix (os_indexes s) -> ix_unique ix = true ->
             index_distinct ix (os_records s).

Definition service_ok (self : DatabaseService) : Prop :=
  forall storeName s, store_of self storeName = Some s -> store_ok s.

(** The key path and the indexes of a store of the service. *)
Definition schema (self : DatabaseService) (storeName : string)
  : option (string * list index_config) :=
  (fun s => (os_keyPath s, os_indexes s)) <$> store_of self storeName.

(** The calls a client can make on the wrapper. *)
Inductive operation :=
  | OpAdd (storeName : string) (item : jsval)
  | OpGet (storeName : string) (k : jsval)
  | OpGetAll (storeName : string) (indexName : option string) (q : query)
  | OpUpdate (storeName : string) (item : jsval)
  | OpDelete (storeName : string) (k : jsval)
  | OpClear (storeName : string)
  | OpSaveAll (data : jsval)
  | OpExport (now : Z)
  | OpImport (jsonData : jsval).

(** The service after a call has settled. *)
Definition perform (self : DatabaseService) (o : operation) : DatabaseService :=
  match o with
  | OpAdd storeName item => (add self storeName item).2
  | OpGet storeName k => (get self storeName k).2
  | OpGetAll storeName indexName q => (getAll self storeName indexName q).2
  | OpUpdate storeName item => (update self storeName item).2
  | OpDelete storeName k => (delete_ self storeName k).2
  | OpClear storeName => (clear self storeName).2
  | OpSaveAll data => (saveAll self data).2
  | OpExport now => (export self now).2
  | OpImport jsonData => (import self jsonData).2
  end.

(** The service [initCoreModules] creates, once [init] has completed on an
    origin that holds no database yet. *)
Definition fresh_clinic : DatabaseService :=
  (init (constructed clinic_config) None).2.

(** The states of the clinic's database: the fresh one, and those that
    calls on the wrapper and later sessions of the application (which open
    the database an earlier session left) lead to. *)
Inductive reachable : DatabaseService -> Prop :=
  | reach_fresh : reachable fresh_clinic
  | reach_call self o : reachable self -> reachable (perform self o)
  | reach_reopen self d :
      reachable self -> db self = Some d ->
      reachable (init (constructed clinic_config) (Some d)).2.

(** The phone number of a patient record, as the key of the [phone] index. *)
Definition phone_of (v : jsval) : option key := extract_key "phone" v.

(** The records a bundle lists for a collection. *)
Definition listed (data : jsval) (name : string) : list jsval :=
  match get_prop data name with
  | inr (Some (VArr elems)) => elems
  | _ => []
  end.

(** The calls that [saveAll(data)] stands for, by the words of the
    specification: one [update] per record of the [doctors], the [patients]
    and the [appointments] array, in that grouping. *)
Definition update_calls (data : jsval) : list (string * jsval) :=
  let group name := (fun x => (name, x)) <$> listed data name in
  (group "doctors" ++ group "patients" ++ group "appointments")%list.

(** Independent [update] calls made one after the other, each settled on
    its own: the service they leave and their outcomes, in order. *)
Fixpoint run_updates (self : DatabaseService) (calls : list (string * jsval))
  : batch :=
  match calls with
  | [] => (self, [])
  | (name, x) :: rest =>
      let '(p, self1) := update self name x in
      let '(self2, ps) := run_updates self1 rest in
      (self2, p :: ps)
  end.

(** A data bundle: an object whose [doctors], [patients] and
    [appointments] properties, where present, are arrays. *)
Definition array_or_absent (data : jsval) (name : string) : Prop :=
  match get_prop data name with
  | inr None => True
  | inr (Some (VArr _)) => True
  | _ => False
  end.

Definition bundle (data : jsval) : Prop :=
  array_or_absent data "doctors" /\
  array_or_absent data "patients" /\
  array_or_absent data "appointments".

(** A valid bundle: the three arrays are present. *)
Definition valid_bundle (data : jsval) (doctors patients appointments : list jsval)
  : Prop :=
  get_prop data "doctors" = inr (Some (VArr doctors)) /\
  get_prop data "patients" = inr (Some (VArr patients)) /\
  get_prop data "appointments" = inr (Some (VArr appointments)).

(** The service after the three [clear] calls that open [import]. *)
Definition cleared (self : DatabaseService) : DatabaseService :=
  (clear (clear (clear self "doctors").2 "patients").2 "appointments").2.

(** Adding the elements of a list to a store, one call after the other. *)
Definition add_each (self : DatabaseService) (storeName : string)
    (items : list jsval) : batch :=
  push_each (fun s => add s storeName) items (self, []).

(** The records of a store of the service ([∅] when there is no such
    store). *)
Definition records_of (self : DatabaseService) (storeName : string)
  : gmap key jsval :=
  from_option os_records ∅ (store_of self storeName).

(** The map [m] with each element of a list put under its key. *)
Definition keyed_into (keyPath : string) (m : gmap key jsval)
    (items : list jsval) : gmap key jsval :=
  foldl (fun m v =>
           match extract_key keyPath v with
           | Some k => <[k := v]> m
           | None => m
           end) m items.

(** The elements of a list that carry a key, each with its key. *)
Definition with_keys (keyPath : string) (items : list jsval) : list (key * jsval) :=
  omap (fun it => (fun k => (k, it)) <$> extract_key keyPath it) items.

(** A collection holds exactly the records of a list: [getAll] resolves
    with a list that has the same elements, each as often. *)
Definition holds_exactly (self : DatabaseService) (storeName : string)
    (items : list jsval) : Prop :=
  exists l, getAll self storeName None QNull = (Resolved l, self) /\ l ≡ₚ items.

(** A promise that resolved. *)
Definition resolved {A} (p : settled A) : Prop := is_Some (resolution p).

(** ** Recognising the date-time string format *)

Definition is_digit (c : ascii) : bool :=
  ((48 <=? N_of_ascii c) && (N_of_ascii c <=? 57))%N.

Definition digit_value (c : ascii) : Z := Z.of_N (N_of_ascii c) - 48.

Definition number_of (cs : list ascii) : Z :=
  foldl (fun n c => 10 * n + digit_value c) 0 cs.

Definition days_in_month (y m : Z) : Z :=
  if m =? 2 then (if DaysInYear y =? 366 then 29 else 28)
  else if (m =? 4) || (m =? 6) || (m =? 9) || (m =? 11) then 30
  else 31.

(** The calendar date where the user is, at the clock reading [now] and
    with the offset [LocalTZA] of the user's time zone: the date part of
    the local time. *)
Definition local_date (LocalTZA : Z -> bool -> Z) (now : Z) : string :=
  today_of (LocalTime LocalTZA now).

(** The time zone of Riyadh, three hours ahead of UTC the whole year. *)
Definition Asia_Riyadh (t : Z) (is_utc : bool) : Z := 3 * 3600000.

(** The part after the year: [-MM-DDTHH:mm:ss.sssZ] for the year [y]. *)
Definition is_iso_rest (y : Z) (cs : list ascii) : bool :=
  match cs with
  | [c1; m1; m2; c2; d1; d2; c3; h1; h2; c4; n1; n2; c5; s1; s2; c6;
     f1; f2; f3; c7] =>
      Ascii.eqb c1 "-" && Ascii.eqb c2 "-" && Ascii.eqb c3 "T" &&
      Ascii.eqb c4 ":" && Ascii.eqb c5 ":" && Ascii.eqb c6 "." &&
      Ascii.eqb c7 "Z" &&
      forallb is_digit [m1; m2; d1; d2; h1; h2; n1; n2; s1; s2; f1; f2; f3] &&
      (1 <=? number_of [m1; m2]) && (number_of [m1; m2] <=? 12) &&
      (1 <=? number_of [d1; d2]) &&
      (number_of [d1; d2] <=? days_in_month y (number_of [m1; m2])) &&
      (number_of [h1; h2] <=? 23) &&
      (number_of [n1; n2] <=? 59) &&
      (number_of [s1; s2] <=? 59)
  | _ => false
  end.

(** An ISO 8601 calendar date and time in UTC, in the form
    [YYYY-MM-DDTHH:mm:ss.sssZ] or, with an expanded year,
    [+YYYYYY-MM-DDTHH:mm:ss.sssZ] or [-YYYYYY-MM-DDTHH:mm:ss.sssZ]. *)
Definition is_iso8601 (s : string) : bool :=
  match list_ascii_of_string s with
  | y1 :: y2 :: y3 :: y4 :: rest =>
      if Ascii.eqb y1 "+" || Ascii.eqb y1 "-" then
        match rest with
        | y5 :: y6 :: y7 :: rest' =>
            forallb is_digit [y2; y3; y4; y5; y6; y7] &&
            is_iso_rest
              ((if Ascii.eqb y1 "-" then -1 else 1) *
               number_of [y2; y3; y4; y5; y6; y7]) rest'
        | _ => false
        end
      else
        forallb is_digit [y1; y2; y3; y4] &&
        is_iso_rest (number_of [y1; y2; y3; y4]) rest
  | _ => false
  end.

(** The order of the dashboard list under a collation: by date, and by
    time within one date. *)
Definition appointment_le (localeCompare : string -> string -> Z)
    (a b : appointment) : Prop :=
  localeCompare (date a) (date b) < 0 \/
  (date a = date b /\ localeCompare (time a) (time b) <= 0).

(** The collation by code units, an instance of [localeCompare]. *)
Definition code_unit_compare (a b : string) : Z :=
  match units_compare a b with
  | Lt => -1
  | Eq => 0
  | Gt => 1
  end.

(** One request on an object store, as far as the store is concerned. *)
Inductive store_step : object_store -> object_store -> Prop :=
  | step_record no_overwrite s v k s' :
      store_record no_overwrite s v = inr (k, s') -> store_step s s'
  | step_delete s k s' :
      store_delete s k = inr s' -> store_step s s'
  | step_clear s : store_step s (store_clear s).

(** A store after any number of requests. *)
Definition evolves : object_store -> object_store -> Prop := rtc store_step.

(** Two services with the same stores, each of the second one grown out of
    its namesake in the first. *)
Definition service_evolves (self self' : DatabaseService) : Prop :=
  config self' = config self /\
  db_version <$> db self' = db_version <$> db self /\
  forall storeName,
    option_Forall2 evolves (store_of self storeName) (store_of self' storeName).

(** The stores [init] creates for the clinic's configuration. *)
Definition empty_store (sc : store_config) : object_store :=
  {| os_keyPath := sc_keyPath sc;
     os_indexes := default [] (sc_indexes sc);
     os_records := ∅ |}.

(** A configuration entry that [createObjectStore] and [createIndex]
    take: valid key paths and no index name twice. *)
Definition creatable (sc : store_config) : Prop :=
  valid_key_path (sc_keyPath sc) = true /\
  NoDup (ix_name <$> default [] (sc_indexes sc)) /\
  forall ix, In ix (default [] (sc_indexes sc)) ->
             valid_key_path (ix_keyPath ix) = true.

(** The strings on which [valid_key_path] is exact: ASCII characters, the
    backslash apart (in an identifier it would start a Unicode escape). *)
Definition plain_string (s : string) : bool :=
  forallb (fun c => (N_of_ascii c <? 128)%N && negb (N_of_ascii c =? 92)%N)
          (list_ascii_of_string s).

(** The key paths of a configuration are plain strings. *)
Definition plain_key_paths (cfg : db_config) : Prop :=
  forall sc, In sc (cfg_stores cfg) ->
    plain_string (sc_keyPath sc) = true /\
    forall ix, In ix (default [] (sc_indexes sc)) ->
               plain_string (ix_keyPath ix) = true.

Definition clinic_store (storeName : string) : option object_store :=
  empty_store <$>
    find (fun sc => String.eqb (sc_name sc) storeName) (cfg_stores clinic_config).

(** What every state of the clinic's database has in common. *)
Definition clinic_state (self : DatabaseService) : Prop :=
  config self = clinic_config /\
  (exists d, db self = Some d /\ db_version d = 2) /\
  service_ok self /\
  forall storeName,
    schema self storeName =
    (fun s => (os_keyPath s, os_indexes s)) <$> clinic_store storeName.

(** The [phone] index of the [patients] store. *)
Definition phone_index : index_config :=
  {| ix_name := "phone"; ix_keyPath := "phone"; ix_unique := true |}.

(** No two stored patients have the same phone number. *)
Definition phones_unique (self : DatabaseService) : Prop :=
  forall s k1 v1 k2 v2 p,
    store_of self "patients" = Some s ->
    os_records s !! k1 = Some v1 -> os_records s !! k2 = Some v2 ->
    phone_of v1 = Some p -> phone_of v2 = Some p ->
    k1 = k2.

(** ** Sample records and states *)

Definition patient (id name phone : string) : jsval :=
  VObj [("id", VStr id); ("name", VStr name); ("phone", VStr phone)].

Definition doctor (id name specialty : string) : jsval :=
  VObj [("id", VStr id); ("name", VStr name); ("specialty", VStr specialty);
        ("isActive", VBool true)].

Definition patient_1 : jsval := patient "p1" "Amal" "0500000001".
Definition patient_1_renamed : jsval := patient "p1" "Amal Said" "0500000001".
Definition patient_2 : jsval := patient "p2" "Badr" "0500000001".
Definition patient_3 : jsval := patient "p3" "Dana" "0500000003".
Definition patient_4 : jsval := patient "p4" "Hadi" "0500000004".

(** A bundle for [saveAll]: one doctor and three patients, the second of
    whom has the phone number of [patient_1]. *)
Definition sample_bundle : jsval :=
  VObj [("doctors", VArr [doctor "d1" "Salma" "cardiology"]);
        ("patients", VArr [patient_3; patient_2; patient_4])].

(** A bundle for [import], with a [version] that is not the database's. *)
Definition sample_document : jsval :=
  VObj [("doctors", VArr [doctor "d1" "Salma" "cardiology"]);
        ("patients", VArr [patient_3; patient_4]);
        ("appointments", VArr []);
        ("exportedAt", VStr "2024-03-01T00:00:00.000Z");
        ("version", VNum 99)].

(** The clinic's database after [patient_1] has been added. *)
Definition clinic_with_patient_1 : DatabaseService :=
  (add fresh_clinic "patients" patient_1).2.

(** The clinic's database after [sample_bundle] has been saved on top of
    [patient_1]. *)
Definition clinic_after_save : DatabaseService :=
  (saveAll clinic_with_patient_1 sample_bundle).2.

(** The three collections of the clinic. *)
Definition collections : list string := ["doctors"; "patients"; "appointments"].

(** Four appointments, one of them in the past of 14 November 2023. *)
Definition make_appointment (id date time : string) : appointment :=
  {| id_ := id; date := date; time := time; status := "pending";
     type_ := "checkup"; doctorId := "d1"; patientId := "p1";
     createdAt := "2023-11-01T08:00:00.000Z" |}.

Definition appointment_1 : appointment := make_appointment "a1" "2023-12-01" "09:00".
Definition appointment_2 : appointment := make_appointment "a2" "2023-11-14" "10:30".
Definition appointment_3 : appointment := make_appointment "a3" "2023-11-13" "08:00".
Definition appointment_4 : appointment := make_appointment "a4" "2023-11-14" "16:00".

Definition sample_appointments : list appointment :=
  [appointment_1; appointment_2; appointment_3; appointment_4].

(** A rendering of a row by the id of the appointment. *)
Definition appt_id (a : appointment) : string := id_ a.

(** A database that an earlier release left at version 1: one store of
    patients without indexes, holding [patient_1]. *)
Definition clinic_version_1 : database :=
  {| db_version := 1;
     db_stores :=
       {[ "patients" :=
            {| os_keyPath := "id"; os_indexes := [];
               os_records := {[ KStr "p1" := patient_1 ]} |} ]} |}.

(** The service after [init] has upgraded [clinic_version_1]. *)
Definition clinic_upgraded : DatabaseService :=
  (init (constructed clinic_config) (Some clinic_version_1)).2.

(** The [isActive] index of the [doctors] store. *)
Definition isActive_index : index_config :=
  {| ix_name := "isActive"; ix_keyPath := "isActive"; ix_unique := false |}.

(** A configuration that names an index of a store twice. *)
Definition repeated_index_config : db_config :=
  {| cfg_name := "clinicpro_db";
     cfg_version := 3;
     cfg_stores :=
       [ {| sc_name := "invoices";
            sc_keyPath := "id";
            sc_indexes := Some
              [ {| ix_name := "date"; ix_keyPath := "date"; ix_unique := false |};
                {| ix_name := "date"; ix_keyPath := "paidAt"; ix_unique := false |} ] |} ] |}.

(** A configuration with a key path that is no valid key path. *)
Definition spaced_key_path_config : db_config :=
  {| cfg_name := "clinicpro_db";
     cfg_version := 3;
     cfg_stores :=
       [ {| sc_name := "invoices";
            sc_keyPath := "invoice id";
            sc_indexes := None |} ] |}.

(** *** Vocabulary of the page *)

(** The [collapsed] class of the sidebar tells what the state says. *)
Definition sidebar_in_sync (self : ClinicProApp) : Prop :=
  forall el, getElementById (page self) "sidebar" = Some el ->
    (sidebarCollapsed (state self) = true <-> In "collapsed" (classList el)).

(** The badge shows the number of unread notifications, and is hidden
    when there is none. *)
Definition badge_shows_unread (self : ClinicProApp) : Prop :=
  forall badge, getElementById (page self) "notificationCount" = Some badge ->
    textContent badge = Number_toString (unreadCount self) /\
    display badge = (if 0 <? unreadCount self then "flex" else "none").

(** The ids of the elements that [updateStats] writes. *)
Definition stats_ids : list string :=
  ["doctorsCount"; "activeDoctors"; "patientsCount"; "totalPatients";
   "appointmentsCount"; "todayAppointments"; "totalAppointments";
   "dashboardBadge"; "pendingAppointments"; "notificationCount"].

(** *** Sample state *)

Definition sample_patients : list Patient :=
  [ {| p_id := "p1"; p_name := "Amal"; p_phone := "0500000001"; p_age := 17;
       p_gender := "female"; p_createdAt := "2023-11-01T08:00:00.000Z" |};
    {| p_id := "p3"; p_name := "Dana"; p_phone := "0500000003"; p_age := 30;
       p_gender := "female"; p_createdAt := "2023-11-02T08:00:00.000Z" |};
    {| p_id := "p4"; p_name := "Hadi"; p_phone := "0500000004"; p_age := 61;
       p_gender := "male"; p_createdAt := "2023-11-03T08:00:00.000Z" |} ].

Definition sample_notifications : list Notification :=
  [ {| n_id := "1"; n_type := "appointment"; n_title := "Soon";
       n_message := "An appointment within the hour";
       n_time := "2023-11-14T21:13:20.000Z"; n_read := false |};
    {| n_id := "2"; n_type := "patient"; n_title := "New patient";
       n_message := "A patient has registered";
       n_time := "2023-11-14T20:13:20.000Z"; n_read := true |} ].

Definition blank : element :=
  {| textContent := ""; classList := []; display := "" |}.

(** A page with the elements of the statistics, the sidebar, the theme
    icon and the notification panel, and the application on it as the
    constructor leaves it, with sample records loaded. *)
Definition sample_page : document :=
  {| body := {| textContent := ""; classList := ["app"; "dark-mode"]; display := "" |};
     elements :=
       list_to_map
         ((fun id => (id, blank)) <$>
            (stats_ids ++ ["sidebar"; "themeIcon"; "notificationPanel"])%list) |}.

Definition sample_app : ClinicProApp :=
  {| state :=
       {| doctors :=
            [ {| d_id := "d1"; d_name := "Salma"; d_specialty := "cardiology";
                 d_isActive := true |};
              {| d_id := "d2"; d_name := "Omar"; d_specialty := "dermatology";
                 d_isActive := false |} ];
          patients := sample_patients;
          appointments := sample_appointments;
          notifications := sample_notifications;
          sidebarCollapsed := false;
          theme := "dark" |};
     page := sample_page;
     saved_theme := None;
     toasts := [] |}.

(** A state for [saveData]: [this.state] with one doctor and two patients
    of different phone numbers, and one with two patients of one phone
    number. *)
Definition sample_state : jsval :=
  VObj [("user", VNull); ("clinic", VNull);
        ("doctors", VArr [doctor "d1" "Salma" "cardiology"]);
        ("patients", VArr [patient_3; patient_4]);
        ("appointments", VArr []);
        ("notifications", VArr []);
        ("isLoading", VBool false);
        ("currentPage", VStr "dashboard");
        ("sidebarCollapsed", VBool false);
        ("theme", VStr "dark")].

Definition conflicting_state : jsval :=
  VObj [("doctors", VArr []);
        ("patients", VArr [patient_1; patient_2]);
        ("appointments", VArr [])].

(** * Properties *)

(** ** The order of strings by code units *)

Lemma unit_rank_inj a b : unit_rank a = unit_rank b -> a = b.
Proof.
  unfold unit_rank. intros H.
  pose proof (N_ascii_bounded a) as Ha. pose proof (N_ascii_bounded b) as Hb.
  assert (N_of_ascii a = N_of_ascii b) as E.
  { destruct (N.ltb_spec (N_of_ascii a) 238), (N.ltb_spec (N_of_ascii a) 240),
      (N.ltb_spec (N_of_ascii b) 238), (N.ltb_spec (N_of_ascii b) 240); lia. }
  rewrite <- (ascii_N_embedding a), <- (ascii_N_embedding b). by rewrite E.
Qed.

Lemma units_compare_antisym x : forall y,
  units_compare y x = CompOpp (units_compare x y).
Proof.
  induction x as [|a x IH]; intros [|b y]; simpl; try reflexivity.
  rewrite (N.compare_antisym (unit_rank a) (unit_rank b)).
  destruct (N.compare (unit_rank a) (unit_rank b)); simpl; [apply IH | done | done].
Qed.

Lemma units_compare_eq x : forall y, units_compare x y = Eq <-> x = y.
Proof.
  induction x as [|a x IH]; intros [|b y]; simpl; try done.
  destruct (N.compare_spec (unit_rank a) (unit_rank b)) as [E|L|G].
  - apply unit_rank_inj in E as ->. rewrite IH. split; [by intros -> | by intros [= ->]].
  - split; [done | intros [= -> _]; lia].
  - split; [done | intros [= -> _]; lia].
Qed.

Lemma units_compare_refl x : units_compare x x = Eq.
Proof. by apply units_compare_eq. Qed.

Lemma units_compare_trans x : forall y z,
  units_compare x y = Lt -> units_compare y z = Lt -> units_compare x z = Lt.
Proof.
  induction x as [|a x IH]; intros [|b y] [|c z]; simpl; try done.
  destruct (N.compare_spec (unit_rank a) (unit_rank b)) as [E1|L1|G1]; [| |done];
    destruct (N.compare_spec (unit_rank b) (unit_rank c)) as [E2|L2|G2];
    try done; intros H1 H2.
  - rewrite E1, E2, N.compare_refl. by apply (IH y z).
  - rewrite E1. by apply N.compare_lt_iff in L2 as ->.
  - rewrite <- E2. by apply N.compare_lt_iff in L1 as ->.
  - assert (unit_rank a < unit_rank c)%N as L by lia.
    by apply N.compare_lt_iff in L as ->.
Qed.

(** ** Object stores *)

Lemma existsb_false {A} (f : A -> bool) (l : list A) :
  existsb f l = false <-> forall x, In x l -> f x = false.
Proof.
  induction l as [|a l IH]; simpl.
  - split; [intros _ x [] | reflexivity].
  - rewrite orb_false_iff, IH. split.
    + intros [Ha Hl] x [<-|Hx]; auto.
    + intros H. split; [apply H; by left | intros x Hx; apply H; by right].
Qed.

Lemma index_conflict_false ix records k v :
  index_conflict ix records k v = false <->
  (ix_unique ix = true ->
   forall ik k' v',
     extract_key (ix_keyPath ix) v = Some ik ->
     records !! k' = Some v' ->
     extract_key (ix_keyPath ix) v' = Some ik ->
     k' = k).
Proof.
  unfold index_conflict. destruct (ix_unique ix); simpl; [|by split].
  destruct (extract_key (ix_keyPath ix) v) as [ik|].
  - rewrite existsb_false. split.
    + intros H _ ik' k' v' [= <-] Hk' Hv'.
      specialize (H (k', v')). simpl in H.
      destruct (decide (k' = k)) as [->|Hne]; [done|].
      rewrite bool_decide_eq_false_2, bool_decide_eq_true_2 in H by done.
      discriminate H. apply list_elem_of_In, elem_of_map_to_list, Hk'.
    + intros H [k' v'] Hin%list_elem_of_In%elem_of_map_to_list.
      apply andb_false_iff.
      destruct (decide (extract_key (ix_keyPath ix) v' = Some ik)) as [E|N].
      * left. rewrite (H eq_refl ik k' v' eq_refl Hin E).
        by rewrite bool_decide_eq_true_2.
      * right. by rewrite bool_decide_eq_false_2.
  - split; [intros _ _ ? ? ? [=] | reflexivity].
Qed.

Lemma store_record_inr no_overwrite s v k s' :
  store_record no_overwrite s v = inr (k, s') <->
  extract_key (os_keyPath s) v = Some k /\
  (no_overwrite = true -> os_records s !! k = None) /\
  (forall ix, In ix (os_indexes s) ->
              index_conflict ix (os_records s) k v = false) /\
  s' = with_records s (<[k := v]> (os_records s)).
Proof.
  unfold store_record.
  destruct (extract_key (os_keyPath s) v) as [k0|]; [|split; [done | by intros [? _]]].
  destruct (existsb _ (os_indexes s)) eqn:Hex.
  - split.
    + by destruct (no_overwrite && _).
    + intros ([= ->] & _ & Hno & _). apply existsb_false in Hno; congruence.
  - rewrite existsb_false in Hex.
    destruct no_overwrite; simpl.
    + destruct (os_records s !! k0) as [w|] eqn:Hk0.
      * rewrite bool_decide_eq_true_2 by eauto. split; [done|].
        intros ([= ->] & Hnone & _). specialize (Hnone eq_refl). congruence.
      * rewrite bool_decide_eq_false_2 by (intros [? ?]; done).
        split; [intros [= <- <-]; by rewrite Hk0 | ].
        intros ([= ->] & _ & _ & ->). done.
    + split; [intros [= <- <-]; repeat split; done | ].
      intros ([= ->] & _ & _ & ->). done.
Qed.

Lemma store_record_ok no_overwrite s v k s' :
  store_ok s -> store_record no_overwrite s v = inr (k, s') -> store_ok s'.
Proof.
  intros [Hkey Hix] (Hk & _ & Hno & ->)%store_record_inr.
  split.
  - intros k' v'. simpl. rewrite lookup_insert.
    case_decide as E; [intros [= <-]; by subst | apply Hkey].
  - simpl. intros ix Hin Hu k1 v1 k2 v2 ik.
    pose proof (proj1 (index_conflict_false _ _ _ _) (Hno ix Hin) Hu) as Hfresh.
    rewrite !lookup_insert.
    repeat case_decide; subst; intros H1 H2 E1 E2; simplify_eq;
      first [done | by eauto | by symmetry; eauto | by eapply (Hix ix)].
Qed.

Lemma store_delete_ok s k s' :
  store_ok s -> store_delete s k = inr s' -> store_ok s'.
Proof.
  unfold store_delete. intros [Hkey Hix] H.
  destruct (to_key k) as [k0|]; [|done]. injection H as <-.
  split.
  - intros k' v'. simpl. intros [_ H]%lookup_delete_Some. by apply Hkey.
  - simpl. intros ix Hin Hu k1 v1 k2 v2 ik [_ H1]%lookup_delete_Some
      [_ H2]%lookup_delete_Some. by apply (Hix ix Hin Hu k1 v1 k2 v2 ik).
Qed.

Lemma store_clear_ok s : store_ok (store_clear s).
Proof.
  split; [intros k v | intros ix _ _ k1 v1 k2 v2 ik]; simpl;
    by rewrite lookup_empty.
Qed.

Lemma store_step_ok s s' : store_step s s' -> store_ok s -> store_ok s'.
Proof.
  destruct 1; eauto using store_record_ok, store_delete_ok, store_clear_ok.
Qed.

Lemma store_step_schema s s' :
  store_step s s' ->
  os_keyPath s' = os_keyPath s /\ os_indexes s' = os_indexes s.
Proof.
  destruct 1 as [b s v k s' H|s k s' H|s].
  - apply store_record_inr in H as (_ & _ & _ & ->). done.
  - unfold store_delete in H. destruct (to_key k); [|done]. by injection H as <-.
  - done.
Qed.

Lemma evolves_ok s s' : evolves s s' -> store_ok s -> store_ok s'.
Proof. induction 1; eauto using store_step_ok. Qed.

Lemma evolves_schema s s' :
  evolves s s' ->
  os_keyPath s' = os_keyPath s /\ os_indexes s' = os_indexes s.
Proof.
  induction 1 as [|s1 s2 s3 H _ [IH1 IH2]]; [done|].
  apply store_step_schema in H as [E1 E2]. split; congruence.
Qed.

(** ** The service: every call makes the stores evolve *)

Lemma open_store_inr self storeName d s :
  open_store self storeName = inr (d, s) <->
  db self = Some d /\ store_of self storeName = Some s.
Proof.
  unfold open_store, store_of. destruct (db self) as [d0|]; simpl.
  - destruct (db_stores d0 !! storeName) as [s0|] eqn:E.
    + split; [intros [= <- <-]; done | intros [[= <-] H]; congruence].
    + split; [done | intros [[= <-] H]; congruence].
  - split; [done | intros [? _]; done].
Qed.

Lemma store_of_commit self d storeName s name :
  store_of (commit self d storeName s) name =
  if decide (storeName = name) then Some s else db_stores d !! name.
Proof. unfold store_of, commit. simpl. apply lookup_insert. Qed.

Lemma service_evolves_refl self : service_evolves self self.
Proof.
  split; [done|]. split; [done|].
  intros name. destruct (store_of self name); constructor.
  apply rtc_refl.
Qed.

Lemma service_evolves_trans s1 s2 s3 :
  service_evolves s1 s2 -> service_evolves s2 s3 -> service_evolves s1 s3.
Proof.
  intros (C1 & V1 & H1) (C2 & V2 & H2). split; [congruence|].
  split; [congruence|]. intros name.
  specialize (H1 name). specialize (H2 name).
  destruct H1 as [a b Hab|]; inversion H2; subst; constructor.
  by etrans.
Qed.

Lemma commit_evolves self d storeName s s' :
  db self = Some d -> store_of self storeName = Some s -> store_step s s' ->
  service_evolves self (commit self d storeName s').
Proof.
  intros Hd Hs Hstep. split; [done|]. split; [by rewrite Hd|]. intros name.
  rewrite store_of_commit. case_decide as E.
  - subst. rewrite Hs. constructor. by apply rtc_once.
  - unfold store_of. rewrite Hd. simpl.
    destruct (db_stores d !! name); constructor. apply rtc_refl.
Qed.

Lemma add_evolves self storeName item :
  service_evolves self (add self storeName item).2.
Proof.
  unfold add. destruct (open_store self storeName) as [e|[d s]] eqn:Ho;
    [apply service_evolves_refl|].
  apply open_store_inr in Ho as [Hd Hs].
  destruct (store_add s item) as [e|[k s']] eqn:Ha; [apply service_evolves_refl|].
  simpl. eapply commit_evolves; eauto. by econstructor.
Qed.

Lemma update_evolves self storeName item :
  service_evolves self (update self storeName item).2.
Proof.
  unfold update. destruct (open_store self storeName) as [e|[d s]] eqn:Ho;
    [apply service_evolves_refl|].
  apply open_store_inr in Ho as [Hd Hs].
  destruct (store_put s item) as [e|[k s']] eqn:Ha; [apply service_evolves_refl|].
  simpl. eapply commit_evolves; eauto. by econstructor.
Qed.

Lemma delete_evolves self storeName k :
  service_evolves self (delete_ self storeName k).2.
Proof.
  unfold delete_. destruct (open_store self storeName) as [e|[d s]] eqn:Ho;
    [apply service_evolves_refl|].
  apply open_store_inr in Ho as [Hd Hs].
  destruct (store_delete s k) as [e|s'] eqn:Ha; [apply service_evolves_refl|].
  simpl. eapply commit_evolves; eauto. by econstructor.
Qed.

Lemma clear_evolves self storeName :
  service_evolves self (clear self storeName).2.
Proof.
  unfold clear. destruct (open_store self storeName) as [e|[d s]] eqn:Ho;
    [apply service_evolves_refl|].
  apply open_store_inr in Ho as [Hd Hs].
  simpl. eapply commit_evolves; eauto. constructor.
Qed.

Lemma get_unchanged self storeName k : (get self storeName k).2 = self.
Proof.
  unfold get. destruct (open_store self storeName) as [e|[d s]]; [done|].
  by destruct (store_get s k).
Qed.

Lemma getAll_unchanged self storeName indexName q :
  (getAll self storeName indexName q).2 = self.
Proof.
  unfold getAll. destruct (open_store self storeName) as [e|[d s]]; [done|].
  repeat case_match; done.
Qed.

Lemma push_each_evolves op elems b :
  (forall s x, service_evolves s (op s x).2) ->
  service_evolves b.1 (push_each op elems b).1.
Proof.
  intros Hop. revert b. induction elems as [|x elems IH]; intros [s ps]; simpl.
  - apply service_evolves_refl.
  - unfold push_each in *. simpl.
    pose proof (Hop s x) as Hx. destruct (op s x) as [p s'].
    eapply service_evolves_trans; [exact Hx|]. apply (IH (s', _)).
Qed.

Lemma push_field_evolves data field op b b' :
  (forall s x, service_evolves s (op s x).2) ->
  push_field data field op b = inr b' ->
  service_evolves b.1 b'.1.
Proof.
  intros Hop. unfold push_field.
  destruct (get_prop data field) as [e|v]; [done|].
  destruct (truthy v).
  - destruct (v ≫= iterate) as [elems|]; [|done].
    intros [= <-]. by apply push_each_evolves.
  - intros [= <-]. apply service_evolves_refl.
Qed.

Lemma saveAll_evolves self data : service_evolves self (saveAll self data).2.
Proof.
  unfold saveAll.
  destruct (push_field data "doctors" _ _) as [e|b1] eqn:E1;
    [apply service_evolves_refl|].
  apply push_field_evolves in E1; [|intros; apply update_evolves].
  destruct (push_field data "patients" _ _) as [e|b2] eqn:E2; [exact E1|].
  apply push_field_evolves in E2; [|intros; apply update_evolves].
  destruct (push_field data "appointments" _ _) as [e|b3] eqn:E3;
    [by eapply service_evolves_trans|].
  apply push_field_evolves in E3; [|intros; apply update_evolves].
  simpl. eauto using service_evolves_trans.
Qed.

Lemma export_unchanged self now : (export self now).2 = self.
Proof.
  unfold export, JSON_stringify.
  pose proof (getAll_unchanged self "doctors" None QNull) as H1.
  destruct (getAll self "doctors" None QNull) as [[ds|e] s1]; simpl in H1; subst;
    [|done].
  pose proof (getAll_unchanged self "patients" None QNull) as H2.
  destruct (getAll self "patients" None QNull) as [[ps|e] s2]; simpl in H2; subst;
    [|done].
  pose proof (getAll_unchanged self "appointments" None QNull) as H3.
  destruct (getAll self "appointments" None QNull) as [[aps|e] s3];
    simpl in H3; subst; done.
Qed.

Lemma import_evolves self jsonData :
  service_evolves self (import self jsonData).2.
Proof.
  unfold import, JSON_parse.
  pose proof (clear_evolves self "doctors") as H1.
  destruct (clear self "doctors") as [[[]|e] s1]; simpl in H1; [|exact H1].
  pose proof (clear_evolves s1 "patients") as H2.
  destruct (clear s1 "patients") as [[[]|e] s2]; simpl in H2;
    [|by eapply service_evolves_trans].
  pose proof (clear_evolves s2 "appointments") as H3.
  destruct (clear s2 "appointments") as [[[]|e] s3]; simpl in H3;
    [|eauto using service_evolves_trans].
  assert (service_evolves self s3) as H by eauto using service_evolves_trans.
  destruct (push_field jsonData "doctors" _ _) as [e|b1] eqn:E1; [exact H|].
  apply push_field_evolves in E1; [|intros; apply add_evolves]. simpl in E1.
  destruct (push_field jsonData "patients" _ _) as [e|b2] eqn:E2;
    [by eapply service_evolves_trans|].
  apply push_field_evolves in E2; [|intros; apply add_evolves].
  destruct (push_field jsonData "appointments" _ _) as [e|b3] eqn:E3;
    [eauto using service_evolves_trans|].
  apply push_field_evolves in E3; [|intros; apply add_evolves].
  simpl. eauto using service_evolves_trans.
Qed.

Lemma perform_evolves self o : service_evolves self (perform self o).
Proof.
  destruct o; simpl;
    rewrite ?get_unchanged, ?getAll_unchanged, ?export_unchanged;
    auto using service_evolves_refl, add_evolves, update_evolves,
      delete_evolves, clear_evolves, saveAll_evolves, import_evolves.
Qed.

Lemma service_evolves_ok self self' :
  service_evolves self self' -> service_ok self -> service_ok self'.
Proof.
  intros (_ & _ & H) Hok name s' Hs'. specialize (H name). rewrite Hs' in H.
  inversion H as [s ? Hev Hs|]; subst. eapply evolves_ok; [exact Hev|].
  by apply (Hok name).
Qed.

Lemma service_evolves_schema self self' storeName :
  service_evolves self self' -> schema self' storeName = schema self storeName.
Proof.
  intros (_ & _ & H). specialize (H storeName). unfold schema.
  destruct H as [s s' Hev|]; [|done]. simpl.
  by destruct (evolves_schema _ _ Hev) as [-> ->].
Qed.

(** ** The clinic's database *)

Lemma fresh_clinic_db :
  db fresh_clinic =
  Some {| db_version := 2;
          db_stores :=
            list_to_map
              ((fun sc => (sc_name sc, empty_store sc)) <$> cfg_stores clinic_config) |}.
Proof. vm_compute. reflexivity. Qed.

Lemma fresh_clinic_store storeName :
  store_of fresh_clinic storeName = clinic_store storeName.
Proof.
  unfold store_of. rewrite fresh_clinic_db.
  unfold clinic_store, clinic_config.
  cbn [cfg_stores find sc_name fmap list_fmap list_to_map foldr mbind
       option_bind db_stores uncurry].
  rewrite !lookup_insert, lookup_empty.
  destruct (String.eqb_spec "doctors" storeName) as [<-|N1]; [done|].
  destruct (String.eqb_spec "patients" storeName) as [<-|N2]; [done|].
  destruct (String.eqb_spec "appointments" storeName) as [<-|N3]; [done|].
  repeat case_decide; done.
Qed.

Lemma clinic_store_empty storeName s :
  clinic_store storeName = Some s -> os_records s = ∅.
Proof.
  unfold clinic_store.
  destruct (find _ _) as [sc|]; simpl; [|done]. by intros [= <-].
Qed.

Lemma fresh_clinic_state : clinic_state fresh_clinic.
Proof.
  split; [reflexivity|]. split; [rewrite fresh_clinic_db; eauto|]. split.
  - intros name s. rewrite fresh_clinic_store. intros Hs.
    apply clinic_store_empty in Hs.
    split; [intros k v | intros ix _ _ k1 v1 k2 v2 ik]; rewrite Hs;
      by rewrite lookup_empty.
  - intros name. unfold schema. by rewrite fresh_clinic_store.
Qed.

Lemma evolves_clinic_state self self' :
  service_evolves self self' -> clinic_state self -> clinic_state self'.
Proof.
  intros Hev (Hc & (d & Hd & Hv) & Hok & Hs).
  split; [destruct Hev as [-> _]; exact Hc|]. split.
  - destruct Hev as (_ & Hver & _). rewrite Hd in Hver. simpl in Hver.
    destruct (db self') as [d'|]; [|done]. injection Hver as Hver.
    exists d'. split; [done | congruence].
  - split; [by eapply service_evolves_ok|].
    intros name. rewrite <- Hs. by apply service_evolves_schema.
Qed.

Lemma reopen_clinic d :
  db_version d = 2 ->
  (init (constructed clinic_config) (Some d)).2 =
  {| config := clinic_config; db := Some d |}.
Proof.
  destruct d as [v stores]. simpl. intros ->. reflexivity.
Qed.

Lemma reachable_clinic_state self : reachable self -> clinic_state self.
Proof.
  induction 1 as [|self o _ IH|self d _ IH Hd].
  - apply fresh_clinic_state.
  - eapply evolves_clinic_state; [apply perform_evolves | exact IH].
  - destruct IH as (Hc & (d' & Hd' & Hv) & Hok & Hs).
    assert (d' = d) as -> by congruence.
    rewrite reopen_clinic by done.
    split; [done|]. split; [eauto|]. split.
    + intros name s Hst. apply (Hok name). unfold store_of in *.
      by rewrite Hd.
    + intros name. rewrite <- Hs. unfold schema, store_of. by rewrite Hd.
Qed.

(** ** Keys *)

Lemma to_key_value (k : key) : to_key (key_value k) = Some k.
Proof.
  induction k as [n|s|ks IH] using key_ind_nested; simpl; try reflexivity.
  induction IH as [|k ks Hk _ IHks]; simpl; [reflexivity|].
  rewrite Hk. destruct (_ (map key_value ks)) as [ks'|]; [|done].
  simpl in *. congruence.
Qed.

Lemma commit_same self d storeName s :
  db self = Some d -> db_stores d !! storeName = Some s ->
  commit self d storeName s = self.
Proof.
  intros Hd Hs. unfold commit. rewrite insert_id by done.
  destruct self as [c [d'|]]; simpl in *; [|done].
  injection Hd as ->. by destruct d.
Qed.

Lemma store_of_commit_ne self d storeName s name :
  db self = Some d -> storeName <> name ->
  store_of (commit self d storeName s) name = store_of self name.
Proof.
  intros Hd Hne. rewrite store_of_commit, decide_False by done.
  unfold store_of. by rewrite Hd.
Qed.

Lemma store_of_open self storeName s :
  store_of self storeName = Some s ->
  exists d, db self = Some d /\ db_stores d !! storeName = Some s /\
            open_store self storeName = inr (d, s).
Proof.
  unfold store_of, open_store. destruct (db self) as [d|]; simpl; [|done].
  intros Hs. exists d. rewrite Hs. repeat split.
Qed.

(** ** get and delete *)

Lemma get_lookup self storeName s (k : key) :
  store_of self storeName = Some s ->
  get self storeName (key_value k) = (Resolved (os_records s !! k), self).
Proof.
  intros (d & Hd & Hs & Ho)%store_of_open.
  unfold get, store_get. by rewrite Ho, to_key_value.
Qed.

(** C6.  In every collection and for every key, [get] resolves with the
    stored record whose id is the key when there is one, and with the empty
    result ([undefined], not a rejection) when no stored record has that
    id; the database is left as it was. *)
Theorem get_record_or_undefined self storeName s (k : key) :
  store_of self storeName = Some s ->
  store_ok s ->
  (forall v, stored s v -> extract_key (os_keyPath s) v = Some k ->
             get self storeName (key_value k) = (Resolved (Some v), self)) /\
  ((forall v, stored s v -> extract_key (os_keyPath s) v <> Some k) ->
   get self storeName (key_value k) = (Resolved None, self)).
Proof.
  intros Hs [Hkey _]. rewrite (get_lookup _ _ _ _ Hs). split.
  - intros v [k' Hv] Hk. rewrite (Hkey _ _ Hv) in Hk. injection Hk as ->.
    by rewrite Hv.
  - intros Hnone. destruct (os_records s !! k) as [v|] eqn:Hv; [|done].
    destruct (Hnone v); [by exists k | by apply Hkey].
Qed.

(** C7.  In every collection and for every key, [delete] resolves, and
    afterwards no record with that id is stored, while the records under
    other ids and the other collections are as before; when no record had
    that id, the call changes nothing. *)
Theorem delete_removes_or_does_nothing self storeName s (k : key) :
  store_of self storeName = Some s ->
  store_ok s ->
  exists self' s',
    delete_ self storeName (key_value k) = (Resolved (), self') /\
    store_of self' storeName = Some s' /\
    os_records s' = delete k (os_records s) /\
    (forall v, stored s' v -> extract_key (os_keyPath s') v <> Some k) /\
    get self' storeName (key_value k) = (Resolved None, self') /\
    (forall name, name <> storeName -> store_of self' name = store_of self name) /\
    ((forall v, stored s v -> extract_key (os_keyPath s) v <> Some k) ->
     self' = self).
Proof.
  intros Hst Hok.
  destruct (store_of_open _ _ _ Hst) as (d & Hd & Hs & Ho).
  unfold delete_, store_delete. rewrite Ho, to_key_value.
  eexists _, _. split; [reflexivity|].
  assert (store_ok (with_records s (delete k (os_records s)))) as Hok'.
  { eapply store_delete_ok; [exact Hok|]. unfold store_delete.
    by rewrite to_key_value. }
  assert (forall v, stored (with_records s (delete k (os_records s))) v ->
                    extract_key (os_keyPath s) v <> Some k) as Hgone.
  { intros v [k' Hv] Hk. destruct Hok' as [Hkey' _].
    pose proof (Hkey' _ _ Hv) as Hk'. simpl in Hk'.
    rewrite Hk' in Hk. injection Hk as ->.
    simpl in Hv. by rewrite lookup_delete_eq in Hv. }
  split; [by rewrite store_of_commit, decide_True|].
  split; [done|]. split; [exact Hgone|]. split.
  - erewrite get_lookup by (by rewrite store_of_commit, decide_True).
    simpl. by rewrite lookup_delete_eq.
  - split.
    + intros name Hne. by apply store_of_commit_ne.
    + intros Hnone.
      assert (os_records s !! k = None) as Hk.
      { destruct (os_records s !! k) as [v|] eqn:Hv; [|done].
        destruct (Hnone v); [by exists k | by apply Hok]. }
      rewrite delete_id by done.
      replace (with_records s (os_records s)) with s by by destruct s.
      by apply commit_same.
Qed.

Lemma reachable_store_ok self storeName s :
  reachable self -> store_of self storeName = Some s -> store_ok s.
Proof.
  intros Hr Hs. destruct (reachable_clinic_state _ Hr) as (_ & _ & Hok & _).
  by apply (Hok storeName).
Qed.

Lemma clinic_with_patient_1_reachable : reachable clinic_with_patient_1.
Proof. exact (reach_call _ (OpAdd "patients" patient_1) reach_fresh). Qed.

Lemma get_record_or_undefined_witness :
  exists s,
    store_of clinic_with_patient_1 "patients" = Some s /\
    store_ok s /\
    (forall v, stored s v -> extract_key (os_keyPath s) v = Some (KStr "p1") ->
               get clinic_with_patient_1 "patients" (VStr "p1") =
               (Resolved (Some v), clinic_with_patient_1)) /\
    ((forall v, stored s v -> extract_key (os_keyPath s) v <> Some (KStr "p1")) ->
     get clinic_with_patient_1 "patients" (VStr "p1") =
     (Resolved None, clinic_with_patient_1)).
Proof.
  eexists. split; [vm_compute; reflexivity|].
  split.
  - apply (reachable_store_ok clinic_with_patient_1 "patients");
      [apply clinic_with_patient_1_reachable | vm_compute; reflexivity].
  - apply (get_record_or_undefined clinic_with_patient_1 "patients" _ (KStr "p1"));
      [vm_compute; reflexivity |].
    apply (reachable_store_ok clinic_with_patient_1 "patients");
      [apply clinic_with_patient_1_reachable | vm_compute; reflexivity].
Defined.

Lemma delete_removes_or_does_nothing_witness :
  exists s,
    store_of clinic_with_patient_1 "patients" = Some s /\
    store_ok s /\
    exists self' s',
      delete_ clinic_with_patient_1 "patients" (VStr "p1") = (Resolved (), self') /\
      store_of self' "patients" = Some s' /\
      os_records s' = delete (KStr "p1") (os_records s) /\
      (forall v, stored s' v -> extract_key (os_keyPath s') v <> Some (KStr "p1")) /\
      get self' "patients" (VStr "p1") = (Resolved None, self') /\
      (forall name, name <> "patients" ->
                    store_of self' name = store_of clinic_with_patient_1 name) /\
      ((forall v, stored s v -> extract_key (os_keyPath s) v <> Some (KStr "p1")) ->
       self' = clinic_with_patient_1).
Proof.
  eexists. split; [vm_compute; reflexivity|].
  split.
  - apply (reachable_store_ok clinic_with_patient_1 "patients");
      [apply clinic_with_patient_1_reachable | vm_compute; reflexivity].
  - apply (delete_removes_or_does_nothing clinic_with_patient_1 "patients" _
             (KStr "p1"));
      [vm_compute; reflexivity |].
    apply (reachable_store_ok clinic_with_patient_1 "patients");
      [apply clinic_with_patient_1_reachable | vm_compute; reflexivity].
Defined.

(** ** add and update *)

Lemma add_resolved self storeName s item k :
  store_of self storeName = Some s ->
  extract_key (os_keyPath s) item = Some k ->
  os_records s !! k = None ->
  (forall ix, In ix (os_indexes s) ->
              index_conflict ix (os_records s) k item = false) ->
  exists self',
    add self storeName item = (Resolved k, self') /\
    store_of self' storeName =
      Some (with_records s (<[k := item]> (os_records s))) /\
    (forall name, name <> storeName -> store_of self' name = store_of self name).
Proof.
  intros (d & Hd & Hs & Ho)%store_of_open Hk Hfree Hix.
  unfold add. rewrite Ho.
  assert (store_add s item =
          inr (k, with_records s (<[k := item]> (os_records s)))) as ->.
  { apply store_record_inr. repeat split; auto. }
  eexists. split; [reflexivity|]. split.
  - by rewrite store_of_commit, decide_True.
  - intros name Hne. by apply store_of_commit_ne.
Qed.

Lemma update_resolved self storeName s item k :
  store_of self storeName = Some s ->
  extract_key (os_keyPath s) item = Some k ->
  (forall ix, In ix (os_indexes s) ->
              index_conflict ix (os_records s) k item = false) ->
  exists self',
    update self storeName item = (Resolved k, self') /\
    store_of self' storeName =
      Some (with_records s (<[k := item]> (os_records s))) /\
    (forall name, name <> storeName -> store_of self' name = store_of self name).
Proof.
  intros (d & Hd & Hs & Ho)%store_of_open Hk Hix.
  unfold update. rewrite Ho.
  assert (store_put s item =
          inr (k, with_records s (<[k := item]> (os_records s)))) as ->.
  { apply store_record_inr. repeat split; auto. done. }
  eexists. split; [reflexivity|]. split.
  - by rewrite store_of_commit, decide_True.
  - intros name Hne. by apply store_of_commit_ne.
Qed.

(** C1, as the code has it.  In every collection, [add] of a record whose
    id is the key of a stored record is rejected and changes nothing; and
    [update] of a record with a valid id resolves whenever no stored record
    of another id shares the record's key under a unique index: the record
    is then stored under its id, inserted when the id was absent and in
    place of the stored record otherwise, and every other record stays. *)
Theorem add_rejects_duplicate_update_upserts self storeName s item k :
  store_of self storeName = Some s ->
  extract_key (os_keyPath s) item = Some k ->
  (is_Some (os_records s !! k) ->
   add self storeName item = (Rejected ConstraintError, self)) /\
  ((forall ix ik k' v',
      In ix (os_indexes s) -> ix_unique ix = true ->
      extract_key (ix_keyPath ix) item = Some ik ->
      os_records s !! k' = Some v' ->
      extract_key (ix_keyPath ix) v' = Some ik ->
      k' = k) ->
   exists self' s',
     update self storeName item = (Resolved k, self') /\
     store_of self' storeName = Some s' /\
     os_records s' !! k = Some item /\
     (forall k', k' <> k -> os_records s' !! k' = os_records s !! k') /\
     (forall name, name <> storeName -> store_of self' name = store_of self name)).
Proof.
  intros Hst Hk. split.
  - intros Hdup. destruct (store_of_open _ _ _ Hst) as (d & Hd & Hs & Ho).
    unfold add, store_add, store_record. rewrite Ho, Hk. simpl.
    by rewrite bool_decide_eq_true_2.
  - intros Hfree.
    destruct (update_resolved self storeName s item k Hst Hk) as (self' & Hu & Hs' & Hother).
    { intros ix Hin. apply index_conflict_false. intros Huniq ik k' v'. eauto. }
    exists self', (with_records s (<[k := item]> (os_records s))).
    repeat split; auto.
    + simpl. apply lookup_insert_eq.
    + intros k' Hne. simpl. by apply lookup_insert_ne.
Qed.

(** With [patient_1] stored, a record of the same id and another name:
    [add] is rejected and [update] puts it in the place of [patient_1]. *)
Lemma add_rejects_duplicate_update_upserts_witness :
  exists s,
    store_of clinic_with_patient_1 "patients" = Some s /\
    extract_key (os_keyPath s) patient_1_renamed = Some (KStr "p1") /\
    os_records s !! KStr "p1" = Some patient_1 /\
    add clinic_with_patient_1 "patients" patient_1_renamed =
      (Rejected ConstraintError, clinic_with_patient_1) /\
    exists self' s',
      update clinic_with_patient_1 "patients" patient_1_renamed =
        (Resolved (KStr "p1"), self') /\
      store_of self' "patients" = Some s' /\
      os_records s' !! KStr "p1" = Some patient_1_renamed /\
      (forall k', k' <> KStr "p1" -> os_records s' !! k' = os_records s !! k') /\
      (forall name, name <> "patients" ->
                    store_of self' name = store_of clinic_with_patient_1 name).
Proof.
  eexists. split; [vm_compute; reflexivity|].
  match goal with
  | |- extract_key (os_keyPath ?s) _ = _ /\ _ =>
      destruct (add_rejects_duplicate_update_upserts clinic_with_patient_1
                  "patients" s patient_1_renamed (KStr "p1")) as [Hadd Hupdate];
      [vm_compute; reflexivity | vm_compute; reflexivity |]
  end.
  split; [vm_compute; reflexivity|].
  split; [vm_compute; reflexivity|].
  split.
  - apply Hadd. vm_compute. eauto.
  - apply Hupdate. intros ix ik k' v' _ _ _ Hstored _.
    apply elem_of_map_to_list in Hstored. vm_compute in Hstored.
    inversion Hstored as [? ? Heq|? ? ? Hnil]; subst; [done | inversion Hnil].
Defined.

(** C1 fails as stated: [update] is not unconditional.  With [patient_1]
    stored, updating with [patient_2], a record of another id and the same
    phone number, is rejected by the unique [phone] index. *)
Lemma update_rejected_on_shared_phone :
  reachable clinic_with_patient_1 /\
  extract_key "id" patient_2 = Some (KStr "p2") /\
  update clinic_with_patient_1 "patients" patient_2 =
    (Rejected ConstraintError, clinic_with_patient_1).
Proof.
  split; [apply clinic_with_patient_1_reachable|].
  split; vm_compute; reflexivity.
Qed.

(** ** The unique phone index *)

Lemma clinic_patients_store self :
  clinic_state self ->
  exists s, store_of self "patients" = Some s /\
            os_keyPath s = "id" /\
            In phone_index (os_indexes s) /\
            store_ok s.
Proof.
  intros (_ & _ & Hok & Hs). specialize (Hs "patients").
  unfold schema in Hs. destruct (store_of self "patients") as [s|] eqn:E;
    [|discriminate Hs].
  exists s. split; [done|]. injection Hs as -> ->.
  split; [done|]. split; [right; left; reflexivity|]. by apply (Hok "patients").
Qed.

Lemma clinic_phones_unique self : clinic_state self -> phones_unique self.
Proof.
  intros (s & Hs & _ & Hin & [_ Hix])%clinic_patients_store.
  intros s' k1 v1 k2 v2 p Hs' H1 H2 P1 P2.
  assert (s' = s) as -> by congruence.
  exact (Hix phone_index Hin eq_refl k1 v1 k2 v2 p H1 H2 P1 P2).
Qed.

(** C3.  In every state of the clinic's database, no two stored patients
    have the same phone number, and that is still so after any call on the
    wrapper; adding a patient record whose phone number a stored patient
    already has is rejected and changes nothing.  The rejection is the
    [ConstraintError] of the object store (here: of its unique [phone]
    index or of its primary key) whenever the record has a usable id. *)
Theorem patient_phones_unique self :
  reachable self ->
  phones_unique self /\
  (forall o, phones_unique (perform self o)) /\
  (forall s v p item,
     store_of self "patients" = Some s -> stored s v ->
     phone_of v = Some p -> phone_of item = Some p ->
     exists e, add self "patients" item = (Rejected e, self) /\
               (is_Some (extract_key "id" item) -> e = ConstraintError)).
Proof.
  intros Hr. split; [by apply clinic_phones_unique, reachable_clinic_state|].
  split.
  { intros o. apply clinic_phones_unique, reachable_clinic_state.
    by constructor. }
  intros s v p item Hs [kv Hv] Pv Pitem.
  destruct (clinic_patients_store self (reachable_clinic_state _ Hr))
    as (s0 & Hs0 & Hpath & Hin & Hok).
  assert (s0 = s) as -> by congruence.
  destruct (store_of_open _ _ _ Hs) as (d & Hd & Hst & Ho).
  unfold add, store_add, store_record. rewrite Ho, Hpath.
  destruct (extract_key "id" item) as [k|] eqn:Hk.
  - exists ConstraintError. split; [|done]. simpl.
    destruct (os_records s !! k) as [w|] eqn:Hw.
    + by rewrite bool_decide_eq_true_2.
    + rewrite bool_decide_eq_false_2 by (intros [? ?]; done).
      destruct (existsb _ (os_indexes s)) eqn:Hex; [done|].
      rewrite existsb_false in Hex. specialize (Hex phone_index Hin).
      pose proof (proj1 (index_conflict_false _ _ _ _) Hex eq_refl p kv v
                    Pitem Hv Pv). congruence.
  - exists DataError. split; [done|]. by intros [? ?].
Qed.

Lemma patient_phones_unique_witness :
  phones_unique clinic_with_patient_1 /\
  (forall o, phones_unique (perform clinic_with_patient_1 o)) /\
  (forall s v p item,
     store_of clinic_with_patient_1 "patients" = Some s -> stored s v ->
     phone_of v = Some p -> phone_of item = Some p ->
     exists e, add clinic_with_patient_1 "patients" item =
                 (Rejected e, clinic_with_patient_1) /\
               (is_Some (extract_key "id" item) -> e = ConstraintError)).
Proof.
  apply (patient_phones_unique clinic_with_patient_1).
  apply clinic_with_patient_1_reachable.
Defined.

Example add_patient_2_rejected :
  add clinic_with_patient_1 "patients" patient_2 =
  (Rejected ConstraintError, clinic_with_patient_1).
Proof. vm_compute. reflexivity. Qed.

(** ** Batches of add calls *)

Lemma add_inv self storeName item k self' :
  add self storeName item = (Resolved k, self') ->
  exists s,
    store_of self storeName = Some s /\
    extract_key (os_keyPath s) item = Some k /\
    os_records s !! k = None /\
    (forall ix, In ix (os_indexes s) ->
                index_conflict ix (os_records s) k item = false) /\
    store_of self' storeName =
      Some (with_records s (<[k := item]> (os_records s))) /\
    (forall name, name <> storeName -> store_of self' name = store_of self name).
Proof.
  unfold add. destruct (open_store self storeName) as [e|[d s]] eqn:Ho; [done|].
  apply open_store_inr in Ho as [Hd Hs].
  destruct (store_add s item) as [e|[k' s']] eqn:Ha; [done|].
  intros [= -> <-]. apply store_record_inr in Ha as (Hk & Hfree & Hix & ->).
  exists s. repeat split; auto.
  - by rewrite store_of_commit, decide_True.
  - intros name Hne. by apply store_of_commit_ne.
Qed.

Lemma add_rejected self storeName item e self' :
  add self storeName item = (Rejected e, self') -> self' = self.
Proof.
  unfold add. destruct (open_store self storeName) as [e'|[d s]]; [congruence|].
  destruct (store_add s item) as [e'|[k' s']]; [congruence|done].
Qed.

Lemma push_each_cons op x elems self ps :
  push_each op (x :: elems) (self, ps) =
  push_each op elems ((op self x).2, (ps ++ [(op self x).1])%list).
Proof. unfold push_each. simpl. by destruct (op self x). Qed.

Lemma push_each_promises op elems self ps :
  exists rs, (push_each op elems (self, ps)).2 = (ps ++ rs)%list /\
             length rs = length elems /\
             forall ps', push_each op elems (self, ps') =
                         ((push_each op elems (self, ps)).1, (ps' ++ rs)%list).
Proof.
  revert self ps. induction elems as [|x elems IH]; intros self ps.
  - exists []. simpl. rewrite app_nil_r. split; [done|]. split; [done|].
    intros ps'. by rewrite app_nil_r.
  - rewrite push_each_cons.
    destruct (IH (op self x).2 (ps ++ [(op self x).1])%list) as (rs & H1 & H2 & H3).
    exists ((op self x).1 :: rs). rewrite H1, <- app_assoc. split; [done|].
    split; [simpl; by rewrite H2|].
    intros ps'. rewrite push_each_cons, H3, <- app_assoc. done.
Qed.

(** What a batch of [add] calls that all resolve has done. *)
Lemma add_each_resolved storeName items : forall self s,
  store_of self storeName = Some s ->
  exists rs,
    (add_each self storeName items).2 = rs /\
    length rs = length items /\
    (forall name, name <> storeName ->
       store_of (add_each self storeName items).1 name = store_of self name) /\
    (Forall resolved rs ->
     exists ks,
       rs = Resolved <$> ks /\
       Forall2 (fun it k => extract_key (os_keyPath s) it = Some k) items ks /\
       NoDup ks /\
       (forall k, k ∈ ks -> os_records s !! k = None) /\
       store_of (add_each self storeName items).1 storeName =
         Some (with_records s (keyed_into (os_keyPath s) (os_records s) items))).
Proof.
  unfold add_each.
  induction items as [|x items IH]; intros self s Hs.
  - exists []. simpl. repeat split; auto. intros _. exists [].
    repeat split; auto using NoDup_nil_2.
    + intros k Hk. by apply elem_of_nil in Hk.
    + rewrite Hs. by destruct s.
  - rewrite push_each_cons. simpl.
    destruct (add self storeName x) as [[k|e] self1] eqn:Hadd; simpl.
    + apply add_inv in Hadd as (s0 & Hs0 & Hk & Hfree & Hix & Hs1 & Hother).
      assert (s0 = s) as -> by congruence.
      destruct (IH self1 _ Hs1) as (rs & Hrs & Hlen & Hoth & Hres).
      destruct (push_each_promises (fun s => add s storeName) items self1 [])
        as (rs' & Hrs' & _ & Hshift).
      simpl in Hrs'. rewrite Hrs in Hrs'. subst rs'.
      rewrite (Hshift [Resolved k]). simpl.
      eexists. split; [reflexivity|]. split; [simpl; by rewrite Hlen|].
      split; [intros name Hne; rewrite Hoth by done; by apply Hother|].
      intros Hall. apply Forall_cons in Hall as [_ Hall].
      destruct (Hres Hall) as (ks & -> & Hkeys & Hnd & Hfresh & Hfinal).
      exists (k :: ks). simpl in *. split; [done|].
      split; [by constructor|]. split.
      * constructor; [|done]. intros Hin. specialize (Hfresh _ Hin).
        by rewrite lookup_insert_eq in Hfresh.
      * split.
        -- intros k' [->|Hin]%elem_of_cons; [done|].
           specialize (Hfresh _ Hin).
           apply lookup_insert_None in Hfresh as [? _]. done.
        -- rewrite Hfinal. unfold keyed_into. simpl. by rewrite Hk.
    + apply add_rejected in Hadd as ->.
      destruct (IH self s Hs) as (rs & Hrs & Hlen & Hoth & _).
      destruct (push_each_promises (fun s => add s storeName) items self [])
        as (rs' & Hrs' & _ & Hshift).
      simpl in Hrs'. rewrite Hrs in Hrs'. subst rs'.
      rewrite (Hshift [Rejected e]). simpl.
      eexists. split; [reflexivity|]. split; [simpl; by rewrite Hlen|].
      split; [done|].
      intros Hall. apply Forall_cons in Hall as [[? [=]] _].
Qed.

(** A batch of [add] calls resolves when the records, under keys that are
    distinct and free, all fit into one map [M] that extends the store and
    respects its unique indexes. *)
Lemma add_each_succeeds storeName keyPath (M : gmap key jsval) items ks :
  Forall2 (fun it k => extract_key keyPath it = Some k /\ M !! k = Some it)
          items ks ->
  forall self s,
  store_of self storeName = Some s ->
  os_keyPath s = keyPath ->
  NoDup ks ->
  (forall k, k ∈ ks -> os_records s !! k = None) ->
  os_records s ⊆ M ->
  (forall ix, In ix (os_indexes s) -> ix_unique ix = true -> index_distinct ix M) ->
  Forall resolved (add_each self storeName items).2.
Proof.
  unfold add_each.
  induction 1 as [|x k items ks [Hk HM] Hkeys IH];
    intros self s Hs Hpath Hnd Hfresh Hsub Hix.
  - constructor.
  - rewrite push_each_cons. subst keyPath.
    apply NoDup_cons in Hnd as [Hnotin Hnd].
    destruct (add_resolved self storeName s x k Hs Hk) as (self1 & Hadd & Hs1 & _).
    { apply Hfresh. by left. }
    { intros ix Hin. apply index_conflict_false. intros Hu ik k' v' E1 Hk' E2.
      eapply (Hix ix Hin Hu k' v' k x ik); eauto.
      eapply lookup_weaken; eauto. }
    rewrite Hadd. simpl.
    destruct (push_each_promises (fun s => add s storeName) items self1 [])
      as (rs & Hrs & _ & Hshift).
    rewrite (Hshift [Resolved k]). simpl. constructor; [by eexists|].
    simpl in Hrs. rewrite <- Hrs.
    apply (IH self1 _ Hs1); simpl; auto.
    + intros k' Hin. rewrite lookup_insert_ne by (intros ->; done).
      apply Hfresh. by right.
    + by apply insert_subseteq_l.
Qed.

(** ** getAll *)

Lemma getAll_store self storeName s :
  store_of self storeName = Some s ->
  getAll self storeName None QNull = (Resolved (store_getAll s None), self).
Proof.
  intros (d & Hd & Hs & Ho)%store_of_open. unfold getAll. by rewrite Ho.
Qed.

Lemma filter_all {A} (P : A -> Prop) `{forall x, Decision (P x)} (l : list A) :
  Forall P l -> filter P l = l.
Proof.
  induction 1 as [|x l Hx _ IH]; [done|].
  by rewrite filter_cons_True, IH.
Qed.

Lemma store_getAll_all s :
  store_getAll s None ≡ₚ (map_to_list (os_records s)).*2.
Proof.
  unfold store_getAll, records_in_order.
  rewrite filter_all by (apply Forall_forall; intros; done).
  by rewrite merge_sort_Permutation.
Qed.

(** Records with distinct keys, put under their keys, are found again. *)
Lemma keyed_into_distinct keyPath items ks m :
  Forall2 (fun it k => extract_key keyPath it = Some k) items ks ->
  NoDup ks ->
  (forall k, k ∈ ks -> m !! k = None) ->
  map_to_list (keyed_into keyPath m items) ≡ₚ
    (zip ks items ++ map_to_list m)%list.
Proof.
  intros Hkeys. revert m. unfold keyed_into.
  induction Hkeys as [|x k items ks Hk Hkeys IH]; intros m Hnd Hfresh; [done|].
  apply NoDup_cons in Hnd as [Hnotin Hnd]. simpl. rewrite Hk.
  rewrite IH; [|done|].
  - rewrite map_to_list_insert by (apply Hfresh; by left).
    by rewrite Permutation_middle.
  - intros k' Hin. rewrite lookup_insert_ne by (intros ->; done).
    apply Hfresh. by right.
Qed.

Lemma with_keys_Forall2 keyPath items :
  (forall it, it ∈ items -> is_Some (extract_key keyPath it)) ->
  Forall2 (fun it k => extract_key keyPath it = Some k) items
          (with_keys keyPath items).*1 /\
  (with_keys keyPath items).*2 = items /\
  zip (with_keys keyPath items).*1 items = with_keys keyPath items.
Proof.
  unfold with_keys. induction items as [|x items IH]; intros Hall; [done|].
  destruct (Hall x) as [k Hk]; [by left|]. simpl. rewrite Hk. simpl.
  destruct IH as (IH1 & IH2 & IH3); [intros it Hit; apply Hall; by right|].
  repeat split; [by constructor | by f_equal | by f_equal].
Qed.

Lemma Forall2_keys_unique keyPath items ks :
  Forall2 (fun it k => extract_key keyPath it = Some k) items ks ->
  ks = (with_keys keyPath items).*1.
Proof.
  unfold with_keys. induction 1 as [|x k items ks Hk _ IH]; [done|].
  simpl. rewrite Hk. simpl. by rewrite IH.
Qed.

Lemma store_getAll_keyed s keyPath items :
  NoDup (with_keys keyPath items).*1 ->
  (with_keys keyPath items).*2 = items ->
  store_getAll (with_records s (list_to_map (with_keys keyPath items))) None
    ≡ₚ items.
Proof.
  intros Hnd Hvals. rewrite store_getAll_all. simpl.
  rewrite map_to_list_to_map by done. by rewrite Hvals.
Qed.

(** The records of a store after a batch of [add] calls that all resolved,
    read back with [getAll]. *)
Lemma add_each_getAll self storeName s items :
  store_of self storeName = Some s ->
  os_records s = ∅ ->
  Forall resolved (add_each self storeName items).2 ->
  NoDup (with_keys (os_keyPath s) items).*1 /\
  (with_keys (os_keyPath s) items).*2 = items /\
  store_of (add_each self storeName items).1 storeName =
    Some (with_records s (list_to_map (with_keys (os_keyPath s) items))) /\
  exists l,
    getAll (add_each self storeName items).1 storeName None QNull =
      (Resolved l, (add_each self storeName items).1) /\
    l ≡ₚ items.
Proof.
  intros Hs Hempty Hall.
  destruct (add_each_resolved storeName items self s Hs)
    as (rs & Hrs & _ & _ & Hres).
  rewrite Hrs in Hall. destruct (Hres Hall) as (ks & _ & Hkeys & Hnd & _ & Hfinal).
  pose proof (Forall2_keys_unique _ _ _ Hkeys) as ->.
  destruct (with_keys_Forall2 (os_keyPath s) items) as (_ & Hvals & Hzip).
  { intros it Hit. apply list_elem_of_lookup in Hit as [i Hi].
    destruct (Forall2_lookup_l _ _ _ _ _ Hkeys Hi) as (k & _ & Hk). eauto. }
  assert (map_to_list (keyed_into (os_keyPath s) (os_records s) items) ≡ₚ
          with_keys (os_keyPath s) items) as Hperm.
  { rewrite (keyed_into_distinct _ _ _ _ Hkeys Hnd).
    - rewrite Hempty, map_to_list_empty, app_nil_r. by rewrite Hzip.
    - intros k _. by rewrite Hempty. }
  assert (keyed_into (os_keyPath s) (os_records s) items =
          list_to_map (with_keys (os_keyPath s) items)) as Hmap.
  { apply map_to_list_inj. rewrite Hperm. by rewrite map_to_list_to_map. }
  split; [done|]. split; [done|]. rewrite Hfinal, Hmap. split; [done|].
  eexists. split; [apply getAll_store; by rewrite Hfinal, Hmap|].
  by apply store_getAll_keyed.
Qed.

Lemma Forall2_strengthen {A B} (P Q : A -> B -> Prop) l k :
  Forall2 P l k ->
  (forall x y, x ∈ l -> P x y -> Q x y) ->
  Forall2 Q l k.
Proof.
  induction 1 as [|x y l k Hxy _ IH]; intros HPQ; constructor.
  - apply HPQ; [by left | done].
  - apply IH. intros x' y' Hx'. apply HPQ. by right.
Qed.

(** C8, as the code has it.  In an empty collection, let three records
    have valid, pairwise distinct ids and pairwise distinct keys under
    every unique index of the collection.  Then adding them, in any order,
    resolves every time, and [getAll] then returns exactly the three
    records, in a list that does not depend on the order of the calls. *)
Theorem three_adds_then_getAll self storeName s a b c ka kb kc :
  store_of self storeName = Some s ->
  os_records s = ∅ ->
  extract_key (os_keyPath s) a = Some ka ->
  extract_key (os_keyPath s) b = Some kb ->
  extract_key (os_keyPath s) c = Some kc ->
  ka <> kb -> ka <> kc -> kb <> kc ->
  (forall ix x y ik,
     In ix (os_indexes s) -> ix_unique ix = true ->
     x ∈ [a; b; c] -> y ∈ [a; b; c] ->
     extract_key (ix_keyPath ix) x = Some ik ->
     extract_key (ix_keyPath ix) y = Some ik ->
     x = y) ->
  exists l,
    l ≡ₚ [a; b; c] /\
    forall order, order ≡ₚ [a; b; c] ->
      Forall resolved (add_each self storeName order).2 /\
      getAll (add_each self storeName order).1 storeName None QNull =
        (Resolved l, (add_each self storeName order).1).
Proof.
  intros Hs Hempty Ha Hb Hc Hab Hac Hbc Hix.
  set (M := list_to_map [(ka, a); (kb, b); (kc, c)] : gmap key jsval).
  assert (with_keys (os_keyPath s) [a; b; c] = [(ka, a); (kb, b); (kc, c)]) as Hwk.
  { unfold with_keys. simpl. by rewrite Ha, Hb, Hc. }
  assert (NoDup [ka; kb; kc]) as Hnd.
  { repeat constructor; set_solver. }
  assert (forall it k, it ∈ [a; b; c] -> extract_key (os_keyPath s) it = Some k ->
                       M !! k = Some it) as HM.
  { intros it k Hit Hk. apply elem_of_list_to_map; [done|].
    set_solver. }
  assert (forall k v, M !! k = Some v ->
            v ∈ [a; b; c] /\ extract_key (os_keyPath s) v = Some k) as HMinv.
  { intros k v Hv. apply elem_of_list_to_map in Hv; [|done]. set_solver. }
  exists (store_getAll (with_records s M) None). split.
  { rewrite store_getAll_all. simpl. unfold M.
    by rewrite map_to_list_to_map. }
  intros order Hperm.
  assert (with_keys (os_keyPath s) order ≡ₚ [(ka, a); (kb, b); (kc, c)]) as Hwko.
  { rewrite <- Hwk. unfold with_keys. by rewrite Hperm. }
  destruct (with_keys_Forall2 (os_keyPath s) order) as (Hkeys & _ & _).
  { intros it Hit. rewrite Hperm in Hit. set_solver. }
  assert (Forall resolved (add_each self storeName order).2) as Hall.
  { apply (add_each_succeeds storeName (os_keyPath s) M order
             (with_keys (os_keyPath s) order).*1) with s; [|done|done|..].
    - eapply Forall2_strengthen; [exact Hkeys|]. intros it k Hit Hk.
      split; [done|]. apply HM; [by rewrite <- Hperm | done].
    - by rewrite Hwko.
    - intros k _. by rewrite Hempty.
    - rewrite Hempty. apply map_empty_subseteq.
    - intros ix Hin Hu k1 v1 k2 v2 ik H1 H2 E1 E2.
      destruct (HMinv _ _ H1) as [Hv1 Hk1]. destruct (HMinv _ _ H2) as [Hv2 Hk2].
      assert (v1 = v2) as -> by eauto. congruence. }
  split; [exact Hall|].
  destruct (add_each_getAll self storeName s order Hs Hempty Hall)
    as (Hndo & _ & Hfinal & _).
  assert (list_to_map (with_keys (os_keyPath s) order) = M) as Hmap.
  { unfold M. by apply list_to_map_proper. }
  rewrite Hmap in Hfinal. by apply getAll_store.
Qed.

Lemma three_adds_then_getAll_witness :
  exists s l,
    store_of fresh_clinic "patients" = Some s /\
    l ≡ₚ [patient_1; patient_3; patient_4] /\
    forall order, order ≡ₚ [patient_1; patient_3; patient_4] ->
      Forall resolved (add_each fresh_clinic "patients" order).2 /\
      getAll (add_each fresh_clinic "patients" order).1 "patients" None QNull =
        (Resolved l, (add_each fresh_clinic "patients" order).1).
Proof.
  eexists.
  destruct (three_adds_then_getAll fresh_clinic "patients"
              (empty_store {| sc_name := "patients"; sc_keyPath := "id";
                              sc_indexes := os_indexes <$> clinic_store "patients" |})
              patient_1 patient_3 patient_4
              (KStr "p1") (KStr "p3") (KStr "p4")) as (l & Hl);
    try (vm_compute; reflexivity); try discriminate.
  - intros ix x y ik Hin Hu Hx Hy Ex Ey.
    destruct Hin as [<-|[<-|[<-|[]]]]; try discriminate Hu.
    simpl in Ex, Ey.
    repeat match goal with
           | H : _ ∈ _ :: _ |- _ => apply elem_of_cons in H as [->|H]
           | H : _ ∈ [] |- _ => by apply elem_of_nil in H
           end; vm_compute in Ex, Ey; congruence.
  - exists l. split; [vm_compute; reflexivity | exact Hl].
Defined.

(** C8 fails as stated: pairwise distinct ids are not enough in the
    [patients] collection.  Of three patients with distinct ids of whom two
    share a phone number, the second is rejected, and [getAll] returns the
    other two. *)
Lemma three_adds_shared_phone :
  records_of fresh_clinic "patients" = ∅ /\
  extract_key "id" <$> [patient_1; patient_2; patient_3] =
    [Some (KStr "p1"); Some (KStr "p2"); Some (KStr "p3")] /\
  (add_each fresh_clinic "patients" [patient_1; patient_2; patient_3]).2 =
    [Resolved (KStr "p1"); Rejected ConstraintError; Resolved (KStr "p3")] /\
  (getAll (add_each fresh_clinic "patients" [patient_1; patient_2; patient_3]).1
          "patients" None QNull).1 =
    Resolved [patient_1; patient_3].
Proof. repeat split; vm_compute; reflexivity. Qed.

(** ** saveAll *)

Lemma update_inv self storeName item k self' :
  update self storeName item = (Resolved k, self') ->
  exists s,
    store_of self storeName = Some s /\
    extract_key (os_keyPath s) item = Some k /\
    store_of self' storeName =
      Some (with_records s (<[k := item]> (os_records s))) /\
    (forall name, name <> storeName -> store_of self' name = store_of self name).
Proof.
  unfold update. destruct (open_store self storeName) as [e|[d s]] eqn:Ho; [done|].
  apply open_store_inr in Ho as [Hd Hs].
  destruct (store_put s item) as [e|[k' s']] eqn:Ha; [done|].
  intros [= -> <-]. apply store_record_inr in Ha as (Hk & _ & _ & ->).
  exists s. repeat split; auto.
  - by rewrite store_of_commit, decide_True.
  - intros name Hne. by apply store_of_commit_ne.
Qed.

Lemma update_rejected self storeName item e self' :
  update self storeName item = (Rejected e, self') -> self' = self.
Proof.
  unfold update. destruct (open_store self storeName) as [e'|[d s]]; [congruence|].
  destruct (store_put s item) as [e'|[k' s']]; [congruence|done].
Qed.

Lemma push_each_update storeName elems : forall self ps,
  push_each (fun s => update s storeName) elems (self, ps) =
  ((run_updates self ((fun x => (storeName, x)) <$> elems)).1,
   (ps ++ (run_updates self ((fun x => (storeName, x)) <$> elems)).2)%list).
Proof.
  induction elems as [|x elems IH]; intros self ps.
  - simpl. by rewrite app_nil_r.
  - rewrite push_each_cons, IH. simpl.
    destruct (update self storeName x) as [p self1]. simpl.
    destruct (run_updates self1 _) as [self2 rs]. simpl.
    by rewrite <- app_assoc.
Qed.

Lemma run_updates_app l1 l2 : forall self,
  run_updates self (l1 ++ l2) =
  ((run_updates (run_updates self l1).1 l2).1,
   ((run_updates self l1).2 ++ (run_updates (run_updates self l1).1 l2).2)%list).
Proof.
  induction l1 as [|[name x] l1 IH]; intros self; simpl.
  - by destruct (run_updates self l2).
  - destruct (update self name x) as [p self1]. rewrite IH.
    destruct (run_updates self1 l1) as [self2 rs]. simpl. done.
Qed.

Lemma push_field_update data storeName b :
  array_or_absent data storeName ->
  push_field data storeName (fun s => update s storeName) b =
  inr (push_each (fun s => update s storeName) (listed data storeName) b).
Proof.
  unfold array_or_absent, push_field, listed.
  destruct (get_prop data storeName) as [e|[[]|]]; try done.
Qed.

(** The records under a key that no call of a batch of updates names stay
    as they are. *)
Lemma run_updates_frame storeName k calls : forall self s,
  store_of self storeName = Some s ->
  (forall x, (storeName, x) ∈ calls -> extract_key (os_keyPath s) x <> Some k) ->
  exists s',
    store_of (run_updates self calls).1 storeName = Some s' /\
    os_keyPath s' = os_keyPath s /\
    os_records s' !! k = os_records s !! k.
Proof.
  induction calls as [|[name x] calls IH]; intros self s Hs Hnot; simpl.
  - eauto.
  - destruct (update self name x) as [[k'|e] self1] eqn:Hu.
    + apply update_inv in Hu as (s0 & Hs0 & Hk' & Hs1 & Hother).
      destruct (decide (name = storeName)) as [->|Hne].
      * assert (s0 = s) as -> by congruence.
        destruct (IH self1 _ Hs1) as (s' & Hs' & Hp & Hr).
        { intros x' Hx'. simpl. apply Hnot. by right. }
        destruct (run_updates self1 calls) as [self2 rs]. simpl in *.
        exists s'. split; [done|]. split; [done|].
        rewrite Hr. apply lookup_insert_ne. intros ->.
        apply (Hnot x); [by left | done].
      * destruct (IH self1 s) as (s' & Hs' & Hp & Hr).
        { rewrite Hother by done. done. }
        { intros x' Hx'. apply Hnot. by right. }
        destruct (run_updates self1 calls) as [self2 rs]. simpl in *. eauto.
    + apply update_rejected in Hu as ->.
      destruct (IH self s Hs) as (s' & Hs' & Hp & Hr).
      { intros x' Hx'. apply Hnot. by right. }
      destruct (run_updates self calls) as [self2 rs]. simpl in *. eauto.
Qed.

Lemma update_store_before self name y storeName s1 :
  store_of (update self name y).2 storeName = Some s1 ->
  exists s, store_of self storeName = Some s /\ os_keyPath s = os_keyPath s1.
Proof.
  destruct (update self name y) as [[k|e] self1] eqn:Hu; simpl.
  - apply update_inv in Hu as (s0 & Hs0 & _ & Hs1 & Hother).
    destruct (decide (storeName = name)) as [->|Hne].
    + rewrite Hs1. intros [= <-]. eauto.
    + rewrite Hother by done. eauto.
  - apply update_rejected in Hu as ->. eauto.
Qed.

(** A call of a batch of updates that resolves leaves its record under its
    key, unless a later call of the batch names the same key. *)
Lemma run_updates_upsert storeName x k calls : forall i self,
  calls !! i = Some (storeName, x) ->
  (run_updates self calls).2 !! i = Some (Resolved k) ->
  exists s,
    store_of self storeName = Some s /\
    extract_key (os_keyPath s) x = Some k /\
    ((forall j x', (i < j)%nat -> calls !! j = Some (storeName, x') ->
                   extract_key (os_keyPath s) x' <> Some k) ->
     records_of (run_updates self calls).1 storeName !! k = Some x).
Proof.
  induction calls as [|[name y] calls IH]; intros i self Hi Hr; [done|].
  pose proof (update_store_before self name y storeName) as Hbefore.
  destruct (update self name y) as [p self1] eqn:Hu. simpl in Hbefore.
  destruct (run_updates self1 calls) as [self2 rs] eqn:Hrun.
  assert (run_updates self ((name, y) :: calls) = (self2, p :: rs)) as Hall
    by (simpl; by rewrite Hu, Hrun).
  rewrite Hall in Hr |- *. simpl in Hr. cbn [fst].
  destruct i as [|i]; simpl in Hi, Hr.
  - injection Hi as -> ->. injection Hr as ->.
    apply update_inv in Hu as (s & Hs & Hk & Hs1 & _).
    exists s. split; [done|]. split; [done|]. intros Hlater.
    destruct (run_updates_frame storeName k calls self1 _ Hs1) as (s' & Hs' & _ & Hrec).
    { intros x' [j Hj]%list_elem_of_lookup. simpl.
      apply (Hlater (S j)); [lia | done]. }
    rewrite Hrun in Hs'. simpl in Hs'. unfold records_of. rewrite Hs'.
    simpl in *. rewrite Hrec. apply lookup_insert_eq.
  - destruct (IH i self1 Hi) as (s1 & Hs1 & Hk & Hfinal).
    { by rewrite Hrun. }
    destruct (Hbefore s1 Hs1) as (s & Hs & Hpath).
    exists s. rewrite Hpath. split; [done|]. split; [done|]. intros Hlater.
    rewrite Hrun in Hfinal. simpl in Hfinal.
    apply Hfinal. intros j x' Hj. apply (Hlater (S j)). lia.
Qed.

(** C5, as the code has it.  For every data bundle, [saveAll] does what one
    independent [update] call per record of the [doctors], [patients] and
    [appointments] arrays does, in that grouping, and settles as
    [Promise.all] of their outcomes.  A record whose call resolves is
    stored under its id (and is there at the end unless a later record of
    the bundle has the same id); a call that is rejected stores nothing and
    undoes nothing; and a stored record whose id no record of the bundle
    has stays as it is. *)
Theorem saveAll_is_a_batch_of_updates self data :
  bundle data ->
  saveAll self data =
    (Promise_all (run_updates self (update_calls data)).2,
     (run_updates self (update_calls data)).1) /\
  (forall i storeName x k,
     update_calls data !! i = Some (storeName, x) ->
     (run_updates self (update_calls data)).2 !! i = Some (Resolved k) ->
     exists s,
       store_of self storeName = Some s /\
       extract_key (os_keyPath s) x = Some k /\
       ((forall j x', (i < j)%nat ->
           update_calls data !! j = Some (storeName, x') ->
           extract_key (os_keyPath s) x' <> Some k) ->
        records_of (saveAll self data).2 storeName !! k = Some x)) /\
  (forall storeName s k,
     store_of self storeName = Some s ->
     (forall x, (storeName, x) ∈ update_calls data ->
                extract_key (os_keyPath s) x <> Some k) ->
     records_of (saveAll self data).2 storeName !! k = os_records s !! k).
Proof.
  intros (Hd & Hp & Ha).
  assert (saveAll self data =
          (Promise_all (run_updates self (update_calls data)).2,
           (run_updates self (update_calls data)).1)) as Heq.
  { unfold saveAll, update_calls.
    rewrite (push_field_update data "doctors") by done.
    rewrite (push_field_update data "patients") by done.
    rewrite (push_field_update data "appointments") by done.
    rewrite !push_each_update, !run_updates_app. simpl.
    by rewrite <- !app_assoc. }
  split; [exact Heq|]. rewrite Heq. simpl. split.
  - intros i storeName x k Hi Hr. by apply run_updates_upsert.
  - intros storeName s k Hs Hnot.
    destruct (run_updates_frame storeName k _ self s Hs Hnot) as (s' & Hs' & _ & Hrec).
    unfold records_of. by rewrite Hs'.
Qed.

Lemma saveAll_is_a_batch_of_updates_witness :
  bundle sample_bundle /\
  saveAll clinic_with_patient_1 sample_bundle =
    (Promise_all (run_updates clinic_with_patient_1 (update_calls sample_bundle)).2,
     (run_updates clinic_with_patient_1 (update_calls sample_bundle)).1).
Proof.
  assert (bundle sample_bundle) as Hb by (vm_compute; auto).
  split; [exact Hb|].
  exact (proj1 (saveAll_is_a_batch_of_updates clinic_with_patient_1 sample_bundle Hb)).
Defined.

(** C5 fails as stated: not every listed record is upserted.  With
    [patient_1] stored, [saveAll] of [sample_bundle] is rejected because of
    [patient_2], whose phone number is taken: [patient_2] is not stored,
    while the doctor and the other two patients of the bundle are. *)
Lemma saveAll_skips_a_rejected_record :
  bundle sample_bundle /\
  patient_2 ∈ listed sample_bundle "patients" /\
  (saveAll clinic_with_patient_1 sample_bundle).1 = Rejected ConstraintError /\
  records_of (saveAll clinic_with_patient_1 sample_bundle).2 "patients" !! KStr "p2"
    = None /\
  records_of (saveAll clinic_with_patient_1 sample_bundle).2 "patients" !! KStr "p3"
    = Some patient_3 /\
  records_of (saveAll clinic_with_patient_1 sample_bundle).2 "patients" !! KStr "p4"
    = Some patient_4 /\
  records_of (saveAll clinic_with_patient_1 sample_bundle).2 "doctors" !! KStr "d1"
    = Some (doctor "d1" "Salma" "cardiology").
Proof.
  split; [vm_compute; auto|].
  split; [apply list_elem_of_further, list_elem_of_here|].
  repeat split; vm_compute; reflexivity.
Qed.

(** ** import *)

Lemma Promise_all_resolved {A} (promises : list (settled A)) values :
  Promise_all promises = Resolved values -> Forall resolved promises.
Proof.
  unfold Promise_all.
  destruct (omap (rejection thrown_on_issue) promises); [|done].
  destruct (omap (rejection (fun _ => true)) promises) as [|e l] eqn:Hall; [|done].
  intros _. apply Forall_forall. intros p Hp.
  destruct p as [a|e]; [by eexists|].
  assert (e ∈ omap (rejection (fun _ : error => true)) promises) as Hin.
  { apply list_elem_of_omap. exists (Rejected e). done. }
  rewrite Hall in Hin. by apply elem_of_nil in Hin.
Qed.

Lemma Promise_all_of_resolved {A} (promises : list (settled A)) :
  Forall resolved promises ->
  exists values, Promise_all promises = Resolved values /\
                 promises = Resolved <$> values.
Proof.
  intros Hall. exists (omap resolution promises).
  assert (forall sel, omap (rejection sel) promises = []) as Hnone.
  { intros sel. induction Hall as [|[a|e] ps [a' Hp] _ IH]; done. }
  unfold Promise_all. rewrite !Hnone. split; [done|].
  induction Hall as [|[a|e] ps [a' Hp] _ IH]; [done| |done].
  simpl. f_equal. apply IH. intros sel. apply (Hnone sel).
Qed.

Lemma clear_cases self storeName :
  (exists s,
     store_of self storeName = Some s /\
     (clear self storeName).1 = Resolved () /\
     store_of (clear self storeName).2 storeName = Some (store_clear s) /\
     forall name, name <> storeName ->
       store_of (clear self storeName).2 name = store_of self name) \/
  (exists e, clear self storeName = (Rejected e, self)).
Proof.
  unfold clear.
  destruct (open_store self storeName) as [e|[d s]] eqn:Ho; [right; eauto|].
  apply open_store_inr in Ho as [Hd Hs]. left. exists s. simpl.
  repeat split; auto.
  - by rewrite store_of_commit, decide_True.
  - intros name Hne. by apply store_of_commit_ne.
Qed.

Lemma push_field_add data storeName elems self ps :
  get_prop data storeName = inr (Some (VArr elems)) ->
  push_field data storeName (fun s => add s storeName) (self, ps) =
  inr ((add_each self storeName elems).1,
       (ps ++ (add_each self storeName elems).2)%list).
Proof.
  intros Hget. unfold push_field. rewrite Hget. simpl. unfold add_each.
  destruct (push_each_promises (fun s => add s storeName) elems self [])
    as (rs & Hrs & _ & Hshift).
  rewrite (Hshift ps). simpl in Hrs. by rewrite Hrs.
Qed.

(** The three stages of [import] on a valid bundle. *)
Lemma import_stages self data doctors patients appointments :
  valid_bundle data doctors patients appointments ->
  (clear self "doctors").1 = Resolved () ->
  (clear (clear self "doctors").2 "patients").1 = Resolved () ->
  (clear (clear (clear self "doctors").2 "patients").2 "appointments").1
    = Resolved () ->
  let s1 := add_each (cleared self) "doctors" doctors in
  let s2 := add_each s1.1 "patients" patients in
  let s3 := add_each s2.1 "appointments" appointments in
  import self data = (Promise_all (s1.2 ++ s2.2 ++ s3.2)%list, s3.1).
Proof.
  intros (Hd & Hp & Ha) H1 H2 H3. unfold import, cleared, JSON_parse.
  destruct (clear self "doctors") as [r1 self1]. simpl in *. subst r1.
  destruct (clear self1 "patients") as [r2 self2]. simpl in *. subst r2.
  destruct (clear self2 "appointments") as [r3 self3]. simpl in *. subst r3.
  rewrite (push_field_add data "doctors" doctors) by done. cbn [fst snd].
  rewrite (push_field_add data "patients" patients) by done. cbn [fst snd].
  rewrite (push_field_add data "appointments" appointments) by done.
  cbn [fst snd]. by rewrite <- app_assoc.
Qed.

Lemma import_resolved_clears self data keys self' :
  import self data = (Resolved keys, self') ->
  (clear self "doctors").1 = Resolved () /\
  (clear (clear self "doctors").2 "patients").1 = Resolved () /\
  (clear (clear (clear self "doctors").2 "patients").2 "appointments").1
    = Resolved ().
Proof.
  unfold import, JSON_parse.
  destruct (clear self "doctors") as [[[]|e] self1]; [|done]. cbn [fst snd].
  destruct (clear self1 "patients") as [[[]|e] self2]; [|done]. cbn [fst snd].
  destruct (clear self2 "appointments") as [[[]|e] self3]; [|done].
  intros _. repeat split.
Qed.

Lemma cleared_stores self :
  (clear self "doctors").1 = Resolved () ->
  (clear (clear self "doctors").2 "patients").1 = Resolved () ->
  (clear (clear (clear self "doctors").2 "patients").2 "appointments").1
    = Resolved () ->
  forall name, name ∈ ["doctors"; "patients"; "appointments"] ->
    exists s, store_of self name = Some s /\
              store_of (cleared self) name = Some (store_clear s).
Proof.
  intros H1 H2 H3. unfold cleared.
  destruct (clear_cases self "doctors") as [(sd & Hsd & _ & Hd1 & Ho1)|(e & E)];
    [|rewrite E in H1; done].
  destruct (clear_cases (clear self "doctors").2 "patients")
    as [(sp & Hsp & _ & Hp2 & Ho2)|(e & E)]; [|rewrite E in H2; done].
  destruct (clear_cases (clear (clear self "doctors").2 "patients").2 "appointments")
    as [(sa & Hsa & _ & Ha3 & Ho3)|(e & E)]; [|rewrite E in H3; done].
  intros name Hname.
  repeat (apply elem_of_cons in Hname as [->|Hname]);
    [| | |by apply elem_of_nil in Hname].
  - exists sd. split; [done|]. by rewrite Ho3, Ho2.
  - exists sp. rewrite Ho1 in Hsp by done. split; [done|]. by rewrite Ho3.
  - exists sa. rewrite Ho2, Ho1 in Hsa by done. done.
Qed.

Lemma add_each_other self storeName items name :
  name <> storeName ->
  store_of (add_each self storeName items).1 name = store_of self name.
Proof.
  intros Hne. unfold add_each. generalize (@nil (settled key)).
  revert self. induction items as [|x items IH]; intros self ps; [done|].
  rewrite push_each_cons, IH.
  destruct (add self storeName x) as [[k|e] self1] eqn:Hadd; simpl.
  - apply add_inv in Hadd as (_ & _ & _ & _ & _ & _ & Hother). by apply Hother.
  - by apply add_rejected in Hadd as ->.
Qed.

Lemma holds_exactly_store self storeName s items :
  store_of self storeName = Some s ->
  store_getAll s None ≡ₚ items ->
  holds_exactly self storeName items.
Proof. intros Hs Hl. eexists. split; [by apply getAll_store | done]. Qed.

(** C4, as the code has it.  For every valid bundle and every prior state
    of the database, an [import] that resolves has first emptied the three
    collections and has then added the records of the bundle to the emptied
    collections, so that each collection holds exactly the records of its
    array.  There is no schema-version check at all: [import] never reads
    the [version] of the bundle, and every valid bundle with the same three
    arrays is imported with the same outcome. *)
Theorem import_replaces_collections self data doctors patients appointments
    keys self' :
  valid_bundle data doctors patients appointments ->
  import self data = (Resolved keys, self') ->
  (forall name, name ∈ ["doctors"; "patients"; "appointments"] ->
     records_of (cleared self) name = ∅) /\
  self' =
    (add_each
       (add_each (add_each (cleared self) "doctors" doctors).1
                 "patients" patients).1
       "appointments" appointments).1 /\
  holds_exactly self' "doctors" doctors /\
  holds_exactly self' "patients" patients /\
  holds_exactly self' "appointments" appointments /\
  (forall data',
     valid_bundle data' doctors patients appointments ->
     import self data' = (Resolved keys, self')).
Proof.
  intros Hvalid Himport.
  destruct (import_resolved_clears _ _ _ _ Himport) as (H1 & H2 & H3).
  pose proof (cleared_stores self H1 H2 H3) as Hcleared.
  pose proof (import_stages self data _ _ _ Hvalid H1 H2 H3) as Hstages.
  simpl in Hstages. rewrite Hstages in Himport.
  injection Himport as Hall Hself.
  split.
  { intros name Hname. destruct (Hcleared name Hname) as (s & _ & Hs).
    unfold records_of. by rewrite Hs. }
  split; [done|].
  pose proof Hall as Hkeys. apply Promise_all_resolved in Hall.
  apply Forall_app in Hall as [Hall1 Hall23].
  apply Forall_app in Hall23 as [Hall2 Hall3].
  destruct (Hcleared "doctors") as (sd & _ & Hsd); [set_solver|].
  destruct (Hcleared "patients") as (sp & _ & Hsp); [set_solver|].
  destruct (Hcleared "appointments") as (sa & _ & Hsa); [set_solver|].
  set (c := cleared self) in *.
  set (s1 := (add_each c "doctors" doctors).1) in *.
  set (s2 := (add_each s1 "patients" patients).1) in *.
  destruct (add_each_getAll c "doctors" _ doctors Hsd eq_refl Hall1)
    as (Hnd1 & Hv1 & Hf1 & _).
  assert (store_of s1 "patients" = Some (store_clear sp)) as Hsp1.
  { unfold s1. by rewrite add_each_other. }
  destruct (add_each_getAll s1 "patients" _ patients Hsp1 eq_refl Hall2)
    as (Hnd2 & Hv2 & Hf2 & _).
  assert (store_of s2 "appointments" = Some (store_clear sa)) as Hsa2.
  { unfold s2, s1. by rewrite !add_each_other. }
  destruct (add_each_getAll s2 "appointments" _ appointments Hsa2 eq_refl Hall3)
    as (Hnd3 & Hv3 & Hf3 & _).
  subst self'.
  split; [|split; [|split]].
  - eapply holds_exactly_store; [|by apply store_getAll_keyed].
    rewrite add_each_other by done. unfold s2.
    rewrite add_each_other by done. exact Hf1.
  - eapply holds_exactly_store; [|by apply store_getAll_keyed].
    rewrite add_each_other by done. exact Hf2.
  - eapply holds_exactly_store; [|by apply store_getAll_keyed]. exact Hf3.
  - intros data' Hvalid'.
    rewrite (import_stages self data' _ _ _ Hvalid' H1 H2 H3). simpl.
    f_equal. exact Hkeys.
Qed.

Lemma import_replaces_collections_witness :
  valid_bundle sample_document
    [doctor "d1" "Salma" "cardiology"] [patient_3; patient_4] [] /\
  (import clinic_with_patient_1 sample_document).1 =
    Resolved [KStr "d1"; KStr "p3"; KStr "p4"] /\
  holds_exactly (import clinic_with_patient_1 sample_document).2 "doctors"
    [doctor "d1" "Salma" "cardiology"] /\
  holds_exactly (import clinic_with_patient_1 sample_document).2 "patients"
    [patient_3; patient_4] /\
  holds_exactly (import clinic_with_patient_1 sample_document).2 "appointments" [].
Proof.
  assert (valid_bundle sample_document
            [doctor "d1" "Salma" "cardiology"] [patient_3; patient_4] []) as Hv
    by (repeat split; vm_compute; reflexivity).
  assert (import clinic_with_patient_1 sample_document =
          (Resolved [KStr "d1"; KStr "p3"; KStr "p4"],
           (import clinic_with_patient_1 sample_document).2)) as Hi
    by (vm_compute; reflexivity).
  destruct (import_replaces_collections _ _ _ _ _ _ _ Hv Hi)
    as (_ & _ & Hd & Hp & Ha & _).
  split; [exact Hv|]. split; [by rewrite Hi|]. repeat split; assumption.
Defined.

(** C4 fails as stated: the version of the bundle is not compared with
    anything.  [sample_document] says version 99, the database is at
    version 2, and the import resolves all the same. *)
Lemma import_ignores_version :
  get_prop sample_document "version" = inr (Some (VNum 99)) /\
  cfg_version (config clinic_with_patient_1) = 2 /\
  (db_version <$> db clinic_with_patient_1) = Some 2 /\
  (import clinic_with_patient_1 sample_document).1 =
    Resolved [KStr "d1"; KStr "p3"; KStr "p4"] /\
  (getAll (import clinic_with_patient_1 sample_document).2 "patients" None QNull).1
    = Resolved [patient_3; patient_4].
Proof. repeat split; vm_compute; reflexivity. Qed.

(** ** export and the round trip *)

Lemma records_in_order_perm (m : gmap key jsval) :
  records_in_order m ≡ₚ map_to_list m.
Proof. apply merge_sort_Permutation. Qed.

Lemma store_getAll_in_order s :
  store_getAll s None = (records_in_order (os_records s)).*2.
Proof.
  unfold store_getAll. by rewrite filter_all by (apply Forall_forall; intros; done).
Qed.

Lemma Forall2_snd_fst {A B} (P : B -> A -> Prop) (l : list (A * B)) :
  Forall (fun kv => P kv.2 kv.1) l -> Forall2 P l.*2 l.*1.
Proof. induction 1; constructor; auto. Qed.

Lemma with_keys_in_order s :
  keyed_by_path s ->
  with_keys (os_keyPath s) (store_getAll s None) = records_in_order (os_records s).
Proof.
  intros Hkey. rewrite store_getAll_in_order.
  assert (Forall (fun kv => os_records s !! kv.1 = Some kv.2)
                 (records_in_order (os_records s))) as Hall.
  { apply Forall_forall. intros [k v] Hin.
    rewrite records_in_order_perm in Hin. by apply elem_of_map_to_list. }
  unfold with_keys. induction Hall as [|[k v] l Hkv _ IH]; [done|].
  simpl in *. rewrite (Hkey _ _ Hkv). simpl. by f_equal.
Qed.

(** Adding the records that [getAll] read from a store to an empty store
    of the same schema rebuilds the store. *)
Lemma restore_store self storeName empty original :
  store_of self storeName = Some empty ->
  os_records empty = ∅ ->
  os_keyPath empty = os_keyPath original ->
  os_indexes empty = os_indexes original ->
  store_ok original ->
  Forall resolved (add_each self storeName (store_getAll original None)).2 /\
  store_of (add_each self storeName (store_getAll original None)).1 storeName
    = Some original.
Proof.
  intros Hs Hempty Hpath Hixs [Hkey Hix].
  assert (Forall resolved
            (add_each self storeName (store_getAll original None)).2) as Hall.
  { apply (add_each_succeeds storeName (os_keyPath original) (os_records original)
             (store_getAll original None)
             (records_in_order (os_records original)).*1) with empty; auto.
    - rewrite store_getAll_in_order. apply Forall2_snd_fst, Forall_forall.
      intros [k v] Hin. rewrite records_in_order_perm in Hin.
      apply elem_of_map_to_list in Hin. simpl. split; [by apply Hkey | done].
    - rewrite records_in_order_perm. apply NoDup_fst_map_to_list.
    - intros k _. by rewrite Hempty.
    - rewrite Hempty. apply map_empty_subseteq.
    - rewrite Hixs. exact Hix. }
  split; [exact Hall|].
  destruct (add_each_getAll self storeName empty _ Hs Hempty Hall)
    as (_ & _ & Hfinal & _).
  rewrite Hfinal, Hpath, with_keys_in_order by done. f_equal.
  assert (list_to_map (records_in_order (os_records original)) = os_records original)
    as ->.
  { rewrite <- (list_to_map_to_list (os_records original)) at 2.
    apply list_to_map_proper; [|apply records_in_order_perm].
    rewrite records_in_order_perm. apply NoDup_fst_map_to_list. }
  unfold with_records. rewrite Hpath, Hixs. by destruct original.
Qed.

Lemma clinic_collection self name :
  clinic_state self -> name ∈ collections ->
  exists s, store_of self name = Some s /\ store_ok s /\
            Some (os_keyPath s, os_indexes s) =
            (fun s => (os_keyPath s, os_indexes s)) <$> clinic_store name.
Proof.
  intros (_ & _ & Hok & Hschema) Hname. specialize (Hschema name).
  unfold schema in Hschema.
  destruct (store_of self name) as [s|] eqn:Hs.
  - exists s. split; [done|]. split; [by apply (Hok name)|]. exact Hschema.
  - exfalso. unfold collections in Hname.
    repeat (apply elem_of_cons in Hname as [->|Hname]);
      [discriminate Hschema.. | by apply elem_of_nil in Hname].
Qed.

Lemma export_document self now sd sp sa :
  store_of self "doctors" = Some sd ->
  store_of self "patients" = Some sp ->
  store_of self "appointments" = Some sa ->
  export self now =
    (Resolved
       (VObj [("doctors", VArr (store_getAll sd None));
              ("patients", VArr (store_getAll sp None));
              ("appointments", VArr (store_getAll sa None));
              ("exportedAt", VStr (toISOString now));
              ("version", VNum (cfg_version (config self)))]),
     self).
Proof.
  intros Hd Hp Ha. unfold export, JSON_stringify.
  by rewrite (getAll_store _ _ _ Hd), (getAll_store _ _ _ Hp),
    (getAll_store _ _ _ Ha).
Qed.

Lemma clear_resolves self name s :
  store_of self name = Some s -> (clear self name).1 = Resolved ().
Proof.
  intros Hs. destruct (clear_cases self name) as [(_ & _ & H & _)|(e & E)]; [done|].
  unfold clear in E. destruct (store_of_open _ _ _ Hs) as (d & _ & _ & Ho).
  by rewrite Ho in E.
Qed.


Lemma clinic_after_save_reachable : reachable clinic_after_save.
Proof.
  exact (reach_call _ (OpSaveAll sample_bundle)
           (reach_call _ (OpAdd "patients" patient_1) reach_fresh)).
Qed.


Example round_trip_of_clinic_after_save :
  (getAll (import fresh_clinic (default VNull (resolution (export clinic_after_save 0).1))).2
          "patients" None QNull).1 =
  Resolved [patient_1; patient_3; patient_4].
Proof. vm_compute. reflexivity. Qed.

(** ** The date-time string *)

Lemma YearFromDay_spec d :
  DayFromYear (YearFromDay d) <= d < DayFromYear (YearFromDay d + 1).
Proof.
  unfold YearFromDay.
  set (guess := 1970 + 400 * d / 146097).
  assert (DayFromYear (guess - 1) <= d < DayFromYear (guess + 2)) as Hb.
  { unfold DayFromYear, guess. Z.div_mod_to_equations. lia. }
  destruct (Z.ltb_spec d (DayFromYear guess)).
  - replace (guess - 1 + 1) with guess by lia. lia.
  - destruct (Z.leb_spec (DayFromYear (guess + 1)) d).
    + replace (guess + 1 + 1) with (guess + 2) by lia. lia.
    + lia.
Qed.

Lemma DayFromYear_succ y : DayFromYear (y + 1) = DayFromYear y + DaysInYear y.
Proof.
  unfold DayFromYear, DaysInYear.
  repeat match goal with |- context [Z.eqb ?a ?b] => destruct (Z.eqb_spec a b) end;
    simpl; Z.div_mod_to_equations; lia.
Qed.

Lemma DaysInYear_cases y : DaysInYear y = 365 \/ DaysInYear y = 366.
Proof.
  unfold DaysInYear.
  repeat match goal with |- context [Z.eqb ?a ?b] => destruct (Z.eqb_spec a b) end;
    simpl; auto.
Qed.

Lemma DayWithinYear_range t :
  0 <= DayWithinYear t < DaysInYear (YearFromTime t).
Proof.
  unfold DayWithinYear, YearFromTime.
  pose proof (YearFromDay_spec (Day t)) as H.
  rewrite DayFromYear_succ in H. lia.
Qed.

Lemma date_range t :
  0 <= MonthFromTime t <= 11 /\
  1 <= DateFromTime t <= days_in_month (YearFromTime t) (MonthFromTime t + 1).
Proof.
  pose proof (DayWithinYear_range t) as Hd.
  unfold DateFromTime, MonthFromTime, InLeapYear, days_in_month.
  set (d := DayWithinYear t) in *. set (y := YearFromTime t) in *.
  destruct (DaysInYear_cases y) as [E|E]; rewrite E in *; simpl;
    repeat match goal with
           | |- context [Z.ltb ?a ?b] => destruct (Z.ltb_spec a b); simpl
           end; lia.
Qed.

Lemma year_range t :
  valid_time t -> -271821 <= YearFromTime t <= 275760.
Proof.
  unfold valid_time, YearFromTime. intros Ht.
  pose proof (YearFromDay_spec (Day t)) as H.
  assert (-100000000 <= Day t <= 100000000) as Hday.
  { unfold Day, msPerDay. Z.div_mod_to_equations. lia. }
  revert H. generalize (YearFromDay (Day t)). intros y.
  unfold DayFromYear. Z.div_mod_to_equations. lia.
Qed.

Lemma digit_spec n :
  is_digit (digit n) = true /\
  digit_value (digit n) = n mod 10 /\
  Ascii.eqb (digit n) "+" = false /\
  Ascii.eqb (digit n) "-" = false.
Proof.
  unfold digit. pose proof (Z.mod_pos_bound n 10 eq_refl) as Hr.
  set (r := n mod 10) in *.
  assert (r = 0 \/ r = 1 \/ r = 2 \/ r = 3 \/ r = 4 \/
          r = 5 \/ r = 6 \/ r = 7 \/ r = 8 \/ r = 9) as Hcases by lia.
  repeat destruct Hcases as [->|Hcases]; try subst r;
    try rewrite Hcases; vm_compute; auto.
Qed.

Lemma number_of_pad2 n :
  0 <= n < 100 -> number_of [digit (n / 10); digit n] = n.
Proof.
  intros Hn. unfold number_of. simpl.
  rewrite !(proj1 (proj2 (digit_spec _))). Z.div_mod_to_equations. lia.
Qed.

Lemma number_of_pad4 n :
  0 <= n < 10000 ->
  number_of [digit (n / 1000); digit (n / 100); digit (n / 10); digit n] = n.
Proof.
  intros Hn. unfold number_of. simpl.
  rewrite !(proj1 (proj2 (digit_spec _))). Z.div_mod_to_equations. lia.
Qed.

Lemma number_of_pad6 n :
  0 <= n < 1000000 ->
  number_of [digit (n / 100000); digit (n / 10000); digit (n / 1000);
             digit (n / 100); digit (n / 10); digit n] = n.
Proof.
  intros Hn. unfold number_of. simpl.
  rewrite !(proj1 (proj2 (digit_spec _))). Z.div_mod_to_equations. lia.
Qed.

Lemma is_iso_rest_pads y mo d h mi s ms :
  1 <= mo <= 12 ->
  1 <= d <= days_in_month y mo ->
  0 <= h <= 23 -> 0 <= mi <= 59 -> 0 <= s <= 59 ->
  is_iso_rest y
    (list_ascii_of_string
       ("-" ++ pad2 mo ++ "-" ++ pad2 d ++ "T" ++ pad2 h ++ ":" ++
        pad2 mi ++ ":" ++ pad2 s ++ "." ++ pad3 ms ++ "Z")) = true.
Proof.
  intros Hmo Hd Hh Hmi Hs.
  assert (days_in_month y mo <= 31) as Hdim.
  { unfold days_in_month. repeat case_match; lia. }
  unfold pad3, pad2. cbv [String.append list_ascii_of_string]. unfold is_iso_rest.
  cbn [forallb]. rewrite !(proj1 (digit_spec _)).
  rewrite !number_of_pad2 by lia. cbn [Ascii.eqb Bool.eqb andb].
  repeat (apply andb_true_intro; split); try reflexivity; apply Z.leb_le; lia.
Qed.

(** For every time value a [Date] can hold, [toISOString] produces an
    ISO 8601 date-time. *)
Lemma toISOString_iso8601 t : valid_time t -> is_iso8601 (toISOString t) = true.
Proof.
  intros Ht. pose proof (year_range t Ht) as Hy.
  destruct (date_range t) as [Hm Hd].
  assert (0 <= HourFromTime t <= 23) as Hh
    by (unfold HourFromTime; pose proof (Z.mod_pos_bound (t / 3600000) 24); lia).
  assert (0 <= MinFromTime t <= 59) as Hmi
    by (unfold MinFromTime; pose proof (Z.mod_pos_bound (t / 60000) 60); lia).
  assert (0 <= SecFromTime t <= 59) as Hs
    by (unfold SecFromTime; pose proof (Z.mod_pos_bound (t / 1000) 60); lia).
  pose proof (is_iso_rest_pads (YearFromTime t) (MonthFromTime t + 1)
                (DateFromTime t) (HourFromTime t) (MinFromTime t)
                (SecFromTime t) (msFromTime t)) as Hrest.
  unfold toISOString, iso_year.
  set (rest := ("-" ++ pad2 (MonthFromTime t + 1) ++ _)%string) in *.
  set (y := YearFromTime t) in *.
  destruct (Z.leb_spec 0 y) as [Hnonneg|Hneg]; simpl.
  - destruct (Z.leb_spec y 9999) as [Hsmall|Hbig]; simpl.
    + unfold is_iso8601, pad4, pad3, pad2.
      cbv [String.append list_ascii_of_string].
      rewrite (proj1 (proj2 (proj2 (digit_spec _)))),
        (proj2 (proj2 (proj2 (digit_spec _)))).
      cbn [orb forallb]. rewrite !(proj1 (digit_spec _)).
      rewrite number_of_pad4 by lia. apply Hrest; lia.
    + destruct (Z.ltb_spec y 0); [lia|].
      unfold is_iso8601, pad6, pad4, pad3, pad2.
      cbv [String.append list_ascii_of_string]. cbn [Ascii.eqb Bool.eqb orb forallb].
      rewrite !(proj1 (digit_spec _)).
      rewrite number_of_pad6 by lia.
      replace (1 * y) with y by lia. apply Hrest; lia.
  - destruct (Z.ltb_spec y 0); [|lia].
    unfold is_iso8601, pad6, pad4, pad3, pad2.
    cbv [String.append list_ascii_of_string]. cbn [Ascii.eqb Bool.eqb orb forallb].
    rewrite !(proj1 (digit_spec _)).
    rewrite number_of_pad6 by lia.
    replace (-1 * - y) with y by lia. apply Hrest; lia.
Qed.



Example export_of_clinic_after_save :
  (export clinic_after_save 1700000000000).1 =
  Resolved
    (VObj [("doctors", VArr [doctor "d1" "Salma" "cardiology"]);
           ("patients", VArr [patient_1; patient_3; patient_4]);
           ("appointments", VArr []);
           ("exportedAt", VStr "2023-11-14T22:13:20.000Z");
           ("version", VNum 2)]).
Proof. vm_compute. reflexivity. Qed.

(** ** The upcoming appointments *)

Lemma sort_insert_perm {A} (cmp : A -> A -> Z) x l :
  sort_insert cmp x l ≡ₚ x :: l.
Proof.
  induction l as [|y l IH]; simpl; [done|].
  destruct (cmp x y <=? 0); [done|]. rewrite IH. apply Permutation_swap.
Qed.

Lemma Array_sort_perm {A} (cmp : A -> A -> Z) l : Array_sort cmp l ≡ₚ l.
Proof.
  induction l as [|x l IH]; simpl; [done|].
  by rewrite sort_insert_perm, IH.
Qed.

(** ** The date of today, in UTC *)

Lemma digit_not_T n : Ascii.eqb (digit n) "T" = false.
Proof.
  unfold digit. pose proof (Z.mod_pos_bound n 10 eq_refl) as Hr.
  set (r := n mod 10) in *.
  assert (r = 0 \/ r = 1 \/ r = 2 \/ r = 3 \/ r = 4 \/
          r = 5 \/ r = 6 \/ r = 7 \/ r = 8 \/ r = 9) as Hcases by lia.
  repeat destruct Hcases as [->|Hcases]; try subst r;
    try rewrite Hcases; vm_compute; auto.
Qed.

Lemma split_on_cons sep s : exists piece pieces, split_on sep s = piece :: pieces.
Proof.
  destruct s as [|c s]; simpl; [by eexists _, _|].
  destruct (Ascii.eqb c sep); [by eexists _, _|].
  destruct (split_on sep s); by eexists _, _.
Qed.

Lemma split_on_hd sep p rest :
  (forall c, In c (list_ascii_of_string p) -> Ascii.eqb c sep = false) ->
  hd "" (split_on sep (p ++ String sep rest)) = p.
Proof.
  induction p as [|c p IH]; intros Hp.
  - change ("" ++ String sep rest) with (String sep rest). simpl.
    by rewrite Ascii.eqb_refl.
  - change (String c p ++ String sep rest) with (String c (p ++ String sep rest)).
    simpl. rewrite (Hp c) by (by left).
    specialize (IH (fun c' H => Hp c' (or_intror H))).
    destruct (split_on_cons sep (p ++ String sep rest)) as (piece & pieces & E).
    rewrite E in *. simpl in *. by rewrite IH.
Qed.

(** The date of today is the date part of the date-time string. *)
Lemma today_of_date now :
  today_of now =
    iso_year (YearFromTime now) ++ "-" ++ pad2 (MonthFromTime now + 1) ++ "-" ++
    pad2 (DateFromTime now).
Proof.
  unfold today_of, toISOString, iso_year.
  destruct ((0 <=? YearFromTime now) && (YearFromTime now <=? 9999));
    [|destruct (YearFromTime now <? 0)];
    cbv [pad2 pad3 pad4 pad6 String.append];
    match goal with |- _ = ?p => apply (split_on_hd "T" p) end;
    intros c Hc; simpl in Hc;
    repeat destruct Hc as [<-|Hc]; try apply digit_not_T; try reflexivity;
    destruct Hc.
Qed.

Lemma digit_plain n :
  (N_of_ascii (digit n) <? 128)%N && negb (N_of_ascii (digit n) =? 92)%N = true.
Proof.
  unfold digit. pose proof (Z.mod_pos_bound n 10 eq_refl) as Hr.
  set (r := n mod 10) in *.
  assert (r = 0 \/ r = 1 \/ r = 2 \/ r = 3 \/ r = 4 \/
          r = 5 \/ r = 6 \/ r = 7 \/ r = 8 \/ r = 9) as Hcases by lia.
  repeat destruct Hcases as [->|Hcases]; try subst r;
    try rewrite Hcases; vm_compute; auto.
Qed.

Lemma today_of_plain now : plain_string (today_of now) = true.
Proof.
  rewrite today_of_date. unfold iso_year, plain_string.
  destruct ((0 <=? YearFromTime now) && (YearFromTime now <=? 9999));
    [|destruct (YearFromTime now <? 0)];
    cbv [pad2 pad3 pad4 pad6 String.append list_ascii_of_string forallb];
    rewrite ?digit_plain; reflexivity.
Qed.

(** Against a string of ASCII characters, the order of the bytes is the
    order of the code units. *)
Lemma compare_plain_units x : forall y,
  plain_string x = true -> String.compare x y = units_compare x y.
Proof.
  unfold plain_string.
  induction x as [|a x IH]; intros [|b y]; simpl; try reflexivity.
  intros [[Ha _]%andb_true_iff Hx]%andb_true_iff.
  rewrite (IH y Hx). unfold Ascii.compare, unit_rank.
  apply N.ltb_lt in Ha.
  destruct (N.ltb_spec (N_of_ascii a) 238) as [_|?]; [|lia].
  destruct (N.ltb_spec (N_of_ascii b) 238) as [_|Hb]; [reflexivity|].
  assert (N_of_ascii a < N_of_ascii b)%N as -> %N.compare_lt_iff by lia.
  destruct (N.ltb_spec (N_of_ascii b) 240) as [?|?].
  - assert (N_of_ascii a < N_of_ascii b + 16)%N as -> %N.compare_lt_iff by lia.
    reflexivity.
  - assert (N_of_ascii a < N_of_ascii b - 2)%N as -> %N.compare_lt_iff by lia.
    reflexivity.
Qed.

(** The year, the month and the day of the month of a time value are
    those of its day, counted in UTC: [MakeDay] leads back to it. *)
Lemma day_of_date t :
  Day t = MakeDay (YearFromTime t) (MonthFromTime t) (DateFromTime t).
Proof.
  pose proof (DayWithinYear_range t) as Hd.
  pose proof (date_range t) as [Hm _].
  unfold MakeDay.
  replace (MonthFromTime t / 12) with 0 by (Z.div_mod_to_equations; lia).
  replace (MonthFromTime t mod 12) with (MonthFromTime t)
    by (Z.div_mod_to_equations; lia).
  rewrite Z.add_0_r. clear Hm.
  unfold DateFromTime, MonthFromTime, InLeapYear, DaysBeforeMonth.
  assert (Day t = DayFromYear (YearFromTime t) + DayWithinYear t) as ->
    by (unfold DayWithinYear; lia).
  set (d := DayWithinYear t) in *. set (y := YearFromTime t) in *.
  destruct (DaysInYear_cases y) as [E|E]; rewrite E in *; simpl;
    repeat match goal with
           | |- context [Z.ltb ?a ?b] => destruct (Z.ltb_spec a b); simpl
           end; lia.
Qed.

Section UpcomingOrder.

Variable localeCompare : string -> string -> Z.
Variable appointments : list appointment.

Hypothesis collation_sign :
  forall x y, localeCompare x y < 0 <-> 0 < localeCompare y x.
Hypothesis collation_trans :
  forall x y z, localeCompare x y <= 0 -> localeCompare y z <= 0 ->
                localeCompare x z <= 0.
Hypothesis dates_apart :
  forall a b, a ∈ appointments -> b ∈ appointments ->
              localeCompare (date a) (date b) = 0 -> date a = date b.

Local Abbreviation le := (appointment_le localeCompare).
Local Abbreviation cmp := (upcoming_compare localeCompare).

Lemma compare_le a b :
  a ∈ appointments -> b ∈ appointments -> cmp a b <= 0 -> le a b.
Proof.
  intros Ha Hb. unfold upcoming_compare, appointment_le.
  destruct (String.eqb_spec (date a) (date b)) as [E|N]; [by right|].
  intros H. left.
  destruct (Z.eq_dec (localeCompare (date a) (date b)) 0) as [Z0|]; [|lia].
  destruct N. by apply dates_apart.
Qed.

Lemma compare_gt a b :
  a ∈ appointments -> b ∈ appointments -> 0 < cmp a b -> le b a.
Proof.
  intros Ha Hb. unfold upcoming_compare, appointment_le.
  destruct (String.eqb_spec (date a) (date b)) as [E|N]; intros H.
  - right. split; [done|]. apply collation_sign in H. lia.
  - left. by apply collation_sign.
Qed.

Lemma le_trans a b c :
  a ∈ appointments -> b ∈ appointments -> c ∈ appointments ->
  le a b -> le b c -> le a c.
Proof.
  intros Ha Hb Hc [Hab|[Eab Hab]] [Hbc|[Ebc Hbc]].
  - left.
    assert (localeCompare (date a) (date c) <= 0) as Hle
      by (apply (collation_trans _ (date b)); lia).
    destruct (Z.eq_dec (localeCompare (date a) (date c)) 0) as [Z0|]; [|lia].
    apply dates_apart in Z0; [|done..]. rewrite <- Z0 in Hbc.
    apply collation_sign in Hbc. lia.
  - left. by rewrite <- Ebc.
  - left. by rewrite Eab.
  - right. split; [congruence|]. by apply (collation_trans _ (time b)).
Qed.

Lemma sort_insert_sorted x l :
  x ∈ appointments -> Forall (fun a => a ∈ appointments) l ->
  StronglySorted le l -> StronglySorted le (sort_insert cmp x l).
Proof.
  intros Hx Hall Hsorted.
  induction Hsorted as [|y l Hl IH Hy]; simpl.
  - repeat constructor.
  - apply Forall_cons in Hall as [Hyin Hall].
    destruct (Z.leb_spec (cmp x y) 0) as [Hle|Hgt].
    + constructor; [by constructor|].
      assert (le x y) as Hxy by by apply compare_le.
      constructor; [done|].
      rewrite Forall_forall in Hy, Hall |- *. intros z Hz.
      apply (le_trans x y z); auto.
    + constructor; [by apply IH|].
      rewrite sort_insert_perm. constructor; [by apply compare_gt | done].
Qed.

Lemma Array_sort_sorted l :
  Forall (fun a => a ∈ appointments) l -> StronglySorted le (Array_sort cmp l).
Proof.
  induction 1 as [|x l Hx Hall IH]; simpl; [constructor|].
  apply sort_insert_sorted; [done| |done].
  by rewrite Array_sort_perm.
Qed.


End UpcomingOrder.

Lemma code_unit_sign x y : code_unit_compare x y < 0 <-> 0 < code_unit_compare y x.
Proof.
  unfold code_unit_compare. rewrite (units_compare_antisym x y).
  destruct (units_compare x y); simpl; lia.
Qed.

Lemma code_unit_apart x y : code_unit_compare x y = 0 -> x = y.
Proof.
  unfold code_unit_compare. destruct (units_compare x y) eqn:E; try lia.
  intros _. by apply units_compare_eq.
Qed.

Lemma code_unit_trans x y z :
  code_unit_compare x y <= 0 -> code_unit_compare y z <= 0 ->
  code_unit_compare x z <= 0.
Proof.
  unfold code_unit_compare.
  destruct (units_compare x y) eqn:Exy; try lia;
    destruct (units_compare y z) eqn:Eyz; try lia; intros _ _.
  - apply units_compare_eq in Exy as ->. by rewrite Eyz.
  - apply units_compare_eq in Exy as ->. by rewrite Eyz.
  - apply units_compare_eq in Eyz as <-. by rewrite Exy.
  - by rewrite (units_compare_trans _ _ _ Exy Eyz).
Qed.



(** ** The order of the keys *)

Lemma key_compare_antisym a : forall b,
  key_compare b a = CompOpp (key_compare a b).
Proof.
  induction a as [n|s|ks IH] using key_ind_nested; intros [m|t|ys]; simpl;
    try reflexivity.
  - apply Z.compare_antisym.
  - apply units_compare_antisym.
  - revert ys. induction IH as [|k ks Hk _ IHks]; intros [|y ys]; try reflexivity.
    rewrite (Hk y). destruct (key_compare k y); simpl; auto.
Qed.

Lemma key_leb_total a b : key_leb a b = true \/ key_leb b a = true.
Proof.
  unfold key_leb. rewrite (key_compare_antisym a b).
  destruct (key_compare a b); simpl; auto.
Qed.

(** [getAll] reads the records in ascending order of their keys. *)
Lemma records_in_order_sorted (m : gmap key jsval) :
  Sorted (fun a b => key_leb a.1 b.1) (records_in_order m).
Proof.
  apply Sorted_merge_sort. intros a b.
  destruct (key_leb_total a.1 b.1) as [H|H]; rewrite H; [by left | by right].
Qed.

(** ** The wrapper on its edges *)

Example add_without_id :
  add fresh_clinic "patients" (VObj [("name", VStr "Amal")]) =
  (Rejected DataError, fresh_clinic).
Proof. vm_compute. reflexivity. Qed.

Example add_to_unknown_store :
  add fresh_clinic "invoices" patient_1 = (Rejected NotFoundError, fresh_clinic).
Proof. vm_compute. reflexivity. Qed.

Example add_before_init :
  add (constructed clinic_config) "patients" patient_1 =
  (Rejected TypeError, constructed clinic_config).
Proof. reflexivity. Qed.

Example get_with_null_key :
  get clinic_with_patient_1 "patients" VNull =
  (Rejected DataError, clinic_with_patient_1).
Proof. vm_compute. reflexivity. Qed.

Example getAll_by_phone :
  (getAll clinic_after_save "patients" (Some "phone")
          (QValue (VStr "0500000003"))).1 = Resolved [patient_3].
Proof. vm_compute. reflexivity. Qed.

Example getAll_by_name_in_order :
  (getAll clinic_after_save "patients" (Some "name") QNull).1 =
  Resolved [patient_1; patient_3; patient_4].
Proof. vm_compute. reflexivity. Qed.

Example import_of_null :
  (import clinic_with_patient_1 VNull).1 = Rejected TypeError /\
  records_of (import clinic_with_patient_1 VNull).2 "patients" = ∅.
Proof. split; vm_compute; reflexivity. Qed.

Example init_on_newer_database :
  init (constructed clinic_config)
       (Some {| db_version := 3; db_stores := ∅ |}) =
  (Rejected VersionError, constructed clinic_config).
Proof. reflexivity. Qed.

(** [init] on a database of an older version creates the stores that are
    missing and leaves an existing store as it is, indexes included. *)
Example init_keeps_an_existing_store :
  let old_patients :=
    {| os_keyPath := "id"; os_indexes := []; os_records := ∅ |} in
  let old :=
    {| db_version := 1; db_stores := {[ "patients" := old_patients ]} |} in
  store_of (init (constructed clinic_config) (Some old)).2 "patients"
    = Some old_patients /\
  (os_indexes <$> store_of (init (constructed clinic_config) (Some old)).2 "doctors")
    = (os_indexes <$> store_of fresh_clinic "doctors").
Proof. split; vm_compute; reflexivity. Qed.

(** ** The order of the keys, continued *)

Lemma string_compare_refl s : String.compare s s = Eq.
Proof.
  pose proof (String.compare_antisym s s) as H.
  by destruct (String.compare s s).
Qed.

Lemma key_compare_eq a : forall b, key_compare a b = Eq <-> a = b.
Proof.
  induction a as [n|s|ks IH] using key_ind_nested; intros [m|t|ys]; simpl;
    try (split; discriminate).
  - rewrite Z.compare_eq_iff. split; congruence.
  - rewrite units_compare_eq. split; congruence.
  - revert ys. induction IH as [|k ks Hk _ IHks]; intros [|y ys];
      try (split; discriminate); [done|].
    destruct (key_compare k y) eqn:E.
    + apply Hk in E as ->. rewrite IHks. split; congruence.
    + split; [discriminate|]. intros [= -> _].
      assert (key_compare y y = Eq) as E' by by apply Hk. congruence.
    + split; [discriminate|]. intros [= -> _].
      assert (key_compare y y = Eq) as E' by by apply Hk. congruence.
Qed.

Lemma key_compare_trans a : forall b c,
  key_compare a b = Lt -> key_compare b c = Lt -> key_compare a c = Lt.
Proof.
  induction a as [n|s|ks IH] using key_ind_nested; intros [m|t|ys] [p|u|zs];
    simpl; try done.
  - rewrite !Z.compare_lt_iff. lia.
  - apply units_compare_trans.
  - revert ys zs.
    induction IH as [|k ks Hk _ IHks]; intros [|y ys] [|z zs]; try done.
    destruct (key_compare k y) eqn:Eky; try done.
    + apply key_compare_eq in Eky as ->.
      destruct (key_compare y z) eqn:Eyz; try done. apply IHks.
    + destruct (key_compare y z) eqn:Eyz; try done.
      * apply key_compare_eq in Eyz as ->. by rewrite Eky.
      * by rewrite (Hk _ _ Eky Eyz).
Qed.

Lemma key_leb_trans a b c :
  key_leb a b = true -> key_leb b c = true -> key_leb a c = true.
Proof.
  unfold key_leb.
  destruct (key_compare a b) eqn:Eab; try done;
    destruct (key_compare b c) eqn:Ebc; try done; intros _ _.
  - apply key_compare_eq in Eab as ->. by rewrite Ebc.
  - apply key_compare_eq in Eab as ->. by rewrite Ebc.
  - apply key_compare_eq in Ebc as <-. by rewrite Eab.
  - by rewrite (key_compare_trans _ _ _ Eab Ebc).
Qed.

Lemma records_in_order_strongly_sorted (m : gmap key jsval) :
  StronglySorted (fun a b => key_compare a b = Lt) (records_in_order m).*1.
Proof.
  assert (StronglySorted (fun a b : key * jsval => key_leb a.1 b.1)
            (records_in_order m)) as Hs.
  { apply StronglySorted_merge_sort.
    - intros a b c Hab Hbc. apply Is_true_true. apply Is_true_true in Hab, Hbc.
      by eapply key_leb_trans.
    - intros a b. destruct (key_leb_total a.1 b.1) as [H|H]; rewrite H;
        [by left | by right]. }
  assert (NoDup (records_in_order m).*1) as Hnd.
  { rewrite records_in_order_perm. apply NoDup_fst_map_to_list. }
  induction Hs as [|[k v] l Hl IH Hall]; simpl in *; constructor.
  - apply IH. by apply NoDup_cons in Hnd as [_ ?].
  - apply NoDup_cons in Hnd as [Hk _].
    apply Forall_fmap, Forall_forall. intros [k' v'] Hin.
    rewrite Forall_forall in Hall. specialize (Hall _ Hin). simpl in *.
    unfold key_leb in Hall. destruct (key_compare k k') eqn:E; try done.
    apply key_compare_eq in E as ->. destruct Hk.
    apply list_elem_of_fmap. by exists (k', v').
Qed.

(** ** Opening the database *)

Lemma create_indexes_failed ixs :
  foldl
    (fun acc ix =>
       acc ≫= fun made : list index_config =>
         if existsb (fun ix' => String.eqb (ix_name ix') (ix_name ix)) made
         then None
         else if valid_key_path (ix_keyPath ix) then Some (made ++ [ix])%list
         else None)
    None ixs = None.
Proof. induction ixs as [|ix ixs IH]; [done | exact IH]. Qed.

Lemma create_indexes_from made ixs :
  NoDup (ix_name <$> made) ->
  foldl
    (fun acc ix =>
       acc ≫= fun made =>
         if existsb (fun ix' => String.eqb (ix_name ix') (ix_name ix)) made
         then None
         else if valid_key_path (ix_keyPath ix) then Some (made ++ [ix])%list
         else None)
    (Some made) ixs =
  if decide (NoDup (ix_name <$> (made ++ ixs)%list) /\
             Forall (fun ix => valid_key_path (ix_keyPath ix) = true) ixs)
  then Some (made ++ ixs)%list
  else None.
Proof.
  revert made. induction ixs as [|ix ixs IH]; intros made Hmade.
  - simpl. rewrite app_nil_r. by rewrite decide_True.
  - cbn [foldl mbind option_bind].
    destruct (existsb _ made) eqn:Hex.
    + rewrite create_indexes_failed, decide_False; [done|].
      apply existsb_exists in Hex as (ix' & Hin & Heq%String.eqb_eq).
      rewrite fmap_app, fmap_cons. intros [Hnd%NoDup_app _].
      destruct Hnd as (_ & Hdisj & _). apply (Hdisj (ix_name ix)).
      * rewrite <- Heq. apply list_elem_of_fmap. exists ix'.
        split; [done | by apply list_elem_of_In].
      * left.
    + assert (ix_name ix ∉ ix_name <$> made) as Hfresh.
      { intros (ix' & Heq & Hin)%list_elem_of_fmap.
        rewrite existsb_false in Hex.
        specialize (Hex ix' (proj1 (list_elem_of_In _ _) Hin)).
        apply String.eqb_neq in Hex. congruence. }
      destruct (valid_key_path (ix_keyPath ix)) eqn:Hvalid.
      * rewrite IH.
        -- rewrite <- app_assoc. simpl.
           destruct (decide (_ /\ Forall _ ixs)) as [[Hnd Hall]|Hno].
           ++ rewrite decide_True; [done|]. split; [done|]. by constructor.
           ++ rewrite decide_False; [done|]. intros [Hnd Hall].
              apply Hno. split; [done|]. by inversion Hall.
        -- rewrite fmap_app. apply NoDup_app. split; [done|]. split.
           ++ intros x Hx [->|[]%elem_of_nil]%elem_of_cons. done.
           ++ apply NoDup_singleton.
      * rewrite create_indexes_failed, decide_False; [done|].
        intros [_ Hall]. inversion Hall. congruence.
Qed.

Lemma create_indexes_Some ixs made :
  create_indexes ixs = Some made <->
  made = ixs /\ NoDup (ix_name <$> ixs) /\
  forall ix, In ix ixs -> valid_key_path (ix_keyPath ix) = true.
Proof.
  unfold create_indexes. rewrite (create_indexes_from [] ixs) by constructor.
  simpl. rewrite <- List.Forall_forall. case_decide; split; try done.
  - by intros [= <-].
  - by intros [-> _].
  - by intros [_ ?].
Qed.

(** [create_store] makes the empty store of a configuration entry that is
    creatable, and throws on any other. *)
Lemma create_store_Some sc s :
  create_store sc = Some s <-> s = empty_store sc /\ creatable sc.
Proof.
  unfold create_store, creatable, empty_store.
  destruct (valid_key_path (sc_keyPath sc)); [|by split; [|intros (_ & ? & _)]].
  destruct (create_indexes _) as [ixs|] eqn:Hix.
  - apply create_indexes_Some in Hix as (-> & Hnd & Hall).
    split; [by intros [= <-] | by intros [-> _]].
  - split; [done|]. intros (_ & _ & Hnd & Hall).
    pose proof (proj2 (create_indexes_Some _ _) (conj eq_refl (conj Hnd Hall))).
    congruence.
Qed.

Lemma upgrade_failed stores :
  foldl
    (fun acc sc =>
       acc ≫= fun m : gmap string object_store =>
         match m !! sc_name sc with
         | Some _ => Some m
         | None =>
             match create_store sc with
             | None => None
             | Some s => Some (<[sc_name sc := s]> m)
             end
         end)
    None stores = None.
Proof. induction stores as [|sc stores IH]; [done | exact IH]. Qed.

(** What [upgrade] leaves: the stores that existed, as they were, and an
    empty store for the first configuration entry of each missing name. *)
Lemma upgrade_Some stores : forall m m',
  upgrade stores m = Some m' ->
  forall name,
    m' !! name =
    match m !! name with
    | Some s => Some s
    | None =>
        empty_store <$> find (fun sc => String.eqb (sc_name sc) name) stores
    end.
Proof.
  unfold upgrade. induction stores as [|sc stores IH]; intros m m'.
  - simpl. intros [= <-] name. by destruct (m !! name).
  - cbn [foldl mbind option_bind find].
    destruct (m !! sc_name sc) as [s0|] eqn:Hsc.
    + intros H name. rewrite (IH _ _ H name).
      destruct (m !! name) as [s|] eqn:Hname; [done|].
      destruct (String.eqb_spec (sc_name sc) name) as [<-|Hne]; [congruence|done].
    + destruct (create_store sc) as [s|] eqn:Hs;
        [|by rewrite upgrade_failed].
      apply create_store_Some in Hs as [-> _].
      intros H name. rewrite (IH _ _ H name).
      rewrite lookup_insert.
      destruct (String.eqb_spec (sc_name sc) name) as [<-|Hne].
      * rewrite decide_True by done. by rewrite Hsc.
      * rewrite decide_False by done. done.
Qed.

Lemma upgrade_resolves stores : forall m,
  (forall sc, In sc stores -> creatable sc) ->
  is_Some (upgrade stores m).
Proof.
  unfold upgrade. induction stores as [|sc stores IH]; intros m Hok.
  - by eexists.
  - cbn [foldl mbind option_bind].
    destruct (m !! sc_name sc) as [s0|].
    + apply IH. intros sc' Hin. apply Hok. by right.
    + destruct (create_store sc) as [s|] eqn:Hs.
      * apply IH. intros sc' Hin. apply Hok. by right.
      * exfalso. pose proof (Hok sc (or_introl eq_refl)) as Hsc.
        pose proof (proj2 (create_store_Some _ _) (conj eq_refl Hsc)).
        congruence.
Qed.

Lemma empty_store_ok sc : store_ok (empty_store sc).
Proof.
  split; [intros k v | intros ix _ _ k1 v1 k2 v2 ik]; simpl; by rewrite lookup_empty.
Qed.

(** X1.  On an origin that holds no database, [init] with a version from 1
    to [2^53 - 1], valid key paths written in plain characters and no
    index name repeated within a store resolves and creates the configured
    stores and nothing else: each is empty and has the key path and the
    indexes of the first configuration entry of its name. *)
Theorem init_creates_the_configured_stores cfg :
  1 <= cfg_version cfg <= MAX_SAFE_INTEGER ->
  plain_key_paths cfg ->
  (forall sc, In sc (cfg_stores cfg) -> creatable sc) ->
  exists self,
    init (constructed cfg) None = (Resolved (), self) /\
    config self = cfg /\
    db_version <$> db self = Some (cfg_version cfg) /\
    (forall name,
       store_of self name =
       empty_store <$>
         find (fun sc => String.eqb (sc_name sc) name) (cfg_stores cfg)) /\
    service_ok self.
Proof.
  intros Hv _ Hok. unfold init, constructed. cbn [config from_option].
  destruct (Z.ltb_spec (cfg_version cfg) 1) as [?|_]; [lia|].
  destruct (Z.ltb_spec MAX_SAFE_INTEGER (cfg_version cfg)) as [?|_]; [lia|].
  cbn [orb].
  destruct (Z.ltb_spec (cfg_version cfg) 0) as [?|_]; [lia|].
  destruct (Z.ltb_spec 0 (cfg_version cfg)) as [_|?]; [|lia].
  destruct (upgrade_resolves (cfg_stores cfg) ∅ Hok) as [m Hm]. rewrite Hm.
  eexists. split; [reflexivity|]. split; [done|]. split; [done|].
  assert (forall name,
            m !! name =
            empty_store <$>
              find (fun sc => String.eqb (sc_name sc) name) (cfg_stores cfg))
    as Hlook.
  { intros name. rewrite (upgrade_Some _ _ _ Hm name). by rewrite lookup_empty. }
  split; [exact Hlook|].
  intros name s. unfold store_of. simpl. rewrite Hlook.
  destruct (find _ _) as [sc|]; [|done]. intros [= <-]. apply empty_store_ok.
Qed.

(** X2.  [init] on an origin that already holds the database never touches
    what is stored: when it resolves, every store that existed is there
    with the same key path, indexes and records, whatever the
    configuration says about it; the only stores it adds are empty ones
    for configured names that were missing, and only when the version
    grows; at an unchanged version the database is exactly the one that
    was found. *)
Theorem init_keeps_the_stored_data cfg d self :
  init (constructed cfg) (Some d) = (Resolved (), self) ->
  config self = cfg /\
  db_version <$> db self = Some (cfg_version cfg) /\
  (forall name s, db_stores d !! name = Some s -> store_of self name = Some s) /\
  (forall name s,
     store_of self name = Some s -> db_stores d !! name = None ->
     db_version d < cfg_version cfg /\
     exists sc, In sc (cfg_stores cfg) /\ sc_name sc = name /\ s = empty_store sc) /\
  (db_version d = cfg_version cfg -> db self = Some d).
Proof.
  unfold init, constructed. cbn [config from_option].
  destruct (Z.ltb_spec (cfg_version cfg) 1) as [?|_]; [done|].
  destruct (Z.ltb_spec MAX_SAFE_INTEGER (cfg_version cfg)) as [?|_]; [done|].
  cbn [orb].
  destruct (Z.ltb_spec (cfg_version cfg) (db_version d)) as [?|Hle]; [done|].
  destruct (Z.ltb_spec (db_version d) (cfg_version cfg)) as [Hlt|Hge].
  - destruct (upgrade _ _) as [m|] eqn:Hm; [|done]. intros [= <-].
    pose proof (upgrade_Some _ _ _ Hm) as Hlook.
    split; [done|]. split; [done|]. unfold store_of. simpl. split; [|split].
    + intros name s Hs. by rewrite Hlook, Hs.
    + intros name s. rewrite Hlook. intros Hs Hnone. rewrite Hnone in Hs.
      split; [done|].
      destruct (find _ _) as [sc|] eqn:Hfind; [|done]. injection Hs as <-.
      apply find_some in Hfind as [Hin Heq%String.eqb_eq]. eauto.
    + lia.
  - intros [= <-]. assert (db_version d = cfg_version cfg) as Hv by lia.
    split; [done|]. split; [simpl; by rewrite Hv|]. unfold store_of. simpl.
    split; [done|]. split; [intros; congruence|]. intros _. by destruct d.
Qed.

(** ** init, when it is rejected *)

Lemma forallb_false {A} (f : A -> bool) (l : list A) :
  forallb f l = false -> exists x, In x l /\ f x = false.
Proof.
  induction l as [|a l IH]; simpl; [done|].
  destruct (f a) eqn:Ha; simpl.
  - intros (x & Hx & Hfx)%IH. exists x. split; [by right | done].
  - intros _. exists a. split; [by left | done].
Qed.

Lemma upgrade_None stores : forall m,
  upgrade stores m = None ->
  exists sc, In sc stores /\ m !! sc_name sc = None /\ ~ creatable sc.
Proof.
  unfold upgrade. induction stores as [|sc stores IH]; intros m; [done|].
  cbn [foldl mbind option_bind].
  destruct (m !! sc_name sc) as [s0|] eqn:Hsc.
  - intros (sc' & Hin & Hnone & Hbad)%IH. exists sc'. split; [by right | done].
  - destruct (create_store sc) as [s|] eqn:Hs.
    + intros (sc' & Hin & Hnone & Hbad)%IH. exists sc'. split; [by right|].
      split; [|done]. by apply lookup_insert_None in Hnone as [? _].
    + intros _. exists sc. split; [by left|]. split; [done|]. intros Hok.
      pose proof (proj2 (create_store_Some _ _) (conj eq_refl Hok)). congruence.
Qed.

(** X29.  When [init], on a configuration whose key paths are written in
    plain characters, is rejected, the service is left as the constructor
    made it, the database not open, and the error tells why: a
    [TypeError] for a version below 1 or above [2^53 - 1], a
    [VersionError] when the origin holds a newer version of the database,
    and otherwise an [AbortError] of an upgrade in which a store to create
    has a key path that is not valid, or an index with such a key path, or
    names one of its indexes twice. *)
Theorem init_rejections cfg existing e self' :
  plain_key_paths cfg ->
  init (constructed cfg) existing = (Rejected e, self') ->
  self' = constructed cfg /\
  ((e = TypeError /\
    (cfg_version cfg < 1 \/ MAX_SAFE_INTEGER < cfg_version cfg)) \/
   (e = VersionError /\
    1 <= cfg_version cfg <= MAX_SAFE_INTEGER /\
    cfg_version cfg < from_option db_version 0 existing) \/
   (e = AbortError /\
    1 <= cfg_version cfg <= MAX_SAFE_INTEGER /\
    from_option db_version 0 existing < cfg_version cfg /\
    exists sc,
      In sc (cfg_stores cfg) /\
      from_option db_stores ∅ existing !! sc_name sc = None /\
      (valid_key_path (sc_keyPath sc) = false \/
       (exists ix, In ix (default [] (sc_indexes sc)) /\
                   valid_key_path (ix_keyPath ix) = false) \/
       ~ NoDup (ix_name <$> default [] (sc_indexes sc))))).
Proof.
  intros _. unfold init. cbn [constructed config].
  destruct (Z.ltb_spec (cfg_version cfg) 1) as [Hlow|Hv].
  { intros [= <- <-]. split; [done|]. left. split; [done | by left]. }
  destruct (Z.ltb_spec MAX_SAFE_INTEGER (cfg_version cfg)) as [Hhigh|Hmax].
  { intros [= <- <-]. split; [done|]. left. split; [done | by right]. }
  cbn [orb].
  destruct (Z.ltb_spec (cfg_version cfg) (from_option db_version 0 existing))
    as [Hnewer|Hle].
  { intros [= <- <-]. split; [done|]. right. left. split; [done | lia]. }
  destruct (Z.ltb_spec (from_option db_version 0 existing) (cfg_version cfg))
    as [Hlt|Hge]; [|done].
  destruct (upgrade _ _) as [m|] eqn:Hm; [done|].
  intros [= <- <-]. split; [done|]. right. right.
  split; [done|]. split; [lia|]. split; [done|].
  apply upgrade_None in Hm as (sc & Hin & Hnone & Hbad).
  exists sc. split; [done|]. split; [done|].
  destruct (valid_key_path (sc_keyPath sc)) eqn:Hpath; [|by left]. right.
  destruct (decide (NoDup (ix_name <$> default [] (sc_indexes sc))))
    as [Hnd|Hdup]; [|by right]. left.
  destruct (forallb (fun ix => valid_key_path (ix_keyPath ix))
              (default [] (sc_indexes sc))) eqn:Hall.
  - exfalso. apply Hbad. split; [done|]. split; [done|].
    by apply forallb_forall.
  - apply forallb_false in Hall as (ix & Hix & Hbadix). eauto.
Qed.

Lemma init_rejections_witness :
  plain_key_paths spaced_key_path_config /\
  init (constructed spaced_key_path_config) (db fresh_clinic) =
    (Rejected AbortError, constructed spaced_key_path_config) /\
  exists sc,
    In sc (cfg_stores spaced_key_path_config) /\
    from_option db_stores ∅ (db fresh_clinic) !! sc_name sc = None /\
    (valid_key_path (sc_keyPath sc) = false \/
     (exists ix, In ix (default [] (sc_indexes sc)) /\
                 valid_key_path (ix_keyPath ix) = false) \/
     ~ NoDup (ix_name <$> default [] (sc_indexes sc))).
Proof.
  assert (plain_key_paths spaced_key_path_config) as Hplain.
  { intros sc [<-|[]]. split; [vm_compute; reflexivity | intros ix []]. }
  assert (init (constructed spaced_key_path_config) (db fresh_clinic) =
          (Rejected AbortError, constructed spaced_key_path_config)) as Hinit
    by (vm_compute; reflexivity).
  split; [exact Hplain|]. split; [exact Hinit|].
  destruct (init_rejections spaced_key_path_config (db fresh_clinic) AbortError
              (constructed spaced_key_path_config) Hplain Hinit)
    as [_ [[Habs _]|[[Habs _]|(_ & _ & _ & Hsc)]]];
    [discriminate Habs | discriminate Habs | exact Hsc].
Defined.

(** The other rejections of [init] on the samples: an index name twice, a
    version above [2^53 - 1], a version below the stored one. *)
Example init_of_a_repeated_index :
  init (constructed repeated_index_config) (db fresh_clinic) =
    (Rejected AbortError, constructed repeated_index_config).
Proof. vm_compute; reflexivity. Qed.

Example init_above_the_largest_version :
  let cfg := {| cfg_name := "clinicpro_db";
                cfg_version := MAX_SAFE_INTEGER + 1;
                cfg_stores := cfg_stores clinic_config |} in
  init (constructed cfg) None = (Rejected TypeError, constructed cfg).
Proof. vm_compute; reflexivity. Qed.

Example init_below_the_stored_version :
  let cfg := {| cfg_name := "clinicpro_db";
                cfg_version := 1;
                cfg_stores := cfg_stores clinic_config |} in
  init (constructed cfg) (db fresh_clinic) =
    (Rejected VersionError, constructed cfg).
Proof. vm_compute; reflexivity. Qed.

(** ** Single calls, one after the other *)

Lemma records_in_order_empty : records_in_order ∅ = [].
Proof. unfold records_in_order. by rewrite map_to_list_empty. Qed.

Lemma with_records_same s : with_records s (os_records s) = s.
Proof. by destruct s. Qed.

Lemma open_store_commit self d storeName s :
  open_store (commit self d storeName s) storeName =
  inr ({| db_version := db_version d;
          db_stores := <[storeName := s]> (db_stores d) |}, s).
Proof. unfold open_store, commit. simpl. by rewrite lookup_insert_eq. Qed.

Lemma commit_commit self d storeName s s' :
  commit (commit self d storeName s)
         {| db_version := db_version d;
            db_stores := <[storeName := s]> (db_stores d) |} storeName s' =
  commit self d storeName s'.
Proof. unfold commit. simpl. by rewrite insert_insert_eq. Qed.

(** X3.  [clear] on an existing store resolves and leaves that store
    empty, with its key path and indexes, and the other stores as they
    were: afterwards [getAll] resolves with the empty list and [get] with
    [undefined] for every key, and a second [clear] changes nothing. *)
Theorem clear_empties_the_store self storeName s :
  store_of self storeName = Some s ->
  exists self',
    clear self storeName = (Resolved (), self') /\
    store_of self' storeName = Some (store_clear s) /\
    getAll self' storeName None QNull = (Resolved [], self') /\
    (forall k : key, get self' storeName (key_value k) = (Resolved None, self')) /\
    schema self' storeName = schema self storeName /\
    (forall name, name <> storeName -> store_of self' name = store_of self name) /\
    clear self' storeName = (Resolved (), self').
Proof.
  intros Hst. destruct (store_of_open _ _ _ Hst) as (d & Hd & Hs & Ho).
  unfold clear at 1. rewrite Ho. eexists. split; [reflexivity|].
  assert (store_of (commit self d storeName (store_clear s)) storeName
          = Some (store_clear s)) as Hst'
    by by rewrite store_of_commit, decide_True.
  split; [exact Hst'|]. split.
  { rewrite (getAll_store _ _ _ Hst'), store_getAll_in_order. simpl.
    by rewrite records_in_order_empty. }
  split.
  { intros k. rewrite (get_lookup _ _ _ _ Hst'). simpl. by rewrite lookup_empty. }
  split; [unfold schema; by rewrite Hst', Hst|].
  split; [intros name Hne; by apply store_of_commit_ne|].
  unfold clear. rewrite open_store_commit, commit_commit. done.
Qed.

(** X4.  When [add] resolves, it resolves with the id of the item, no
    record was stored under that id before, [get] with the id then
    resolves with the item, and [getAll] resolves with the item and the
    records that it resolved with before. *)
Theorem add_then_get self storeName item k self' :
  add self storeName item = (Resolved k, self') ->
  exists s l l',
    store_of self storeName = Some s /\
    extract_key (os_keyPath s) item = Some k /\
    get self storeName (key_value k) = (Resolved None, self) /\
    get self' storeName (key_value k) = (Resolved (Some item), self') /\
    getAll self storeName None QNull = (Resolved l, self) /\
    getAll self' storeName None QNull = (Resolved l', self') /\
    l' ≡ₚ item :: l.
Proof.
  intros (s & Hs & Hk & Hnone & _ & Hs' & _)%add_inv.
  exists s, (store_getAll s None),
    (store_getAll (with_records s (<[k := item]> (os_records s))) None).
  split; [done|]. split; [done|].
  split; [by rewrite (get_lookup _ _ _ _ Hs), Hnone|].
  split; [rewrite (get_lookup _ _ _ _ Hs'); simpl; by rewrite lookup_insert_eq|].
  split; [by apply getAll_store|]. split; [by apply getAll_store|].
  rewrite !store_getAll_all. simpl.
  by rewrite map_to_list_insert by done.
Qed.

(** X5.  [delete] with the key that an [add] resolved with undoes the
    [add]: the service is again the one before the two calls. *)
Theorem add_then_delete self storeName item k self' :
  add self storeName item = (Resolved k, self') ->
  delete_ self' storeName (key_value k) = (Resolved (), self).
Proof.
  unfold add. destruct (open_store self storeName) as [e|[d s]] eqn:Ho; [done|].
  destruct (store_add s item) as [e|[k' s']] eqn:Ha; [done|].
  intros [= -> <-].
  apply store_record_inr in Ha as (_ & Hnone & _ & ->).
  apply open_store_inr in Ho as [Hd Hs].
  unfold delete_. rewrite open_store_commit. unfold store_delete.
  rewrite to_key_value. simpl. rewrite commit_commit. f_equal.
  unfold with_records at 1. simpl.
  rewrite delete_insert_id by auto. fold (with_records s (os_records s)).
  rewrite with_records_same. apply commit_same; [done|].
  unfold store_of in Hs. by rewrite Hd in Hs.
Qed.

Lemma index_conflict_after_put ix records k v :
  index_conflict ix records k v = false ->
  index_conflict ix (<[k := v]> records) k v = false.
Proof.
  rewrite !index_conflict_false. intros H Hu ik k' v' Hik Hk' Hv'.
  destruct (decide (k' = k)) as [->|Hne]; [done|].
  rewrite lookup_insert_ne in Hk' by done. by eapply H.
Qed.

(** X6.  [update] is idempotent: repeating an [update] that resolved
    resolves with the same key and changes nothing, and an [add] of the
    item is then rejected with a constraint error. *)
Theorem update_twice self storeName item k self' :
  update self storeName item = (Resolved k, self') ->
  update self' storeName item = (Resolved k, self') /\
  add self' storeName item = (Rejected ConstraintError, self').
Proof.
  unfold update at 1.
  destruct (open_store self storeName) as [e|[d s]] eqn:Ho; [done|].
  destruct (store_put s item) as [e|[k' s']] eqn:Ha; [done|].
  intros [= -> <-].
  apply store_record_inr in Ha as (Hk & _ & Hix & ->).
  unfold update, add. rewrite open_store_commit.
  unfold store_put, store_add, store_record. simpl. rewrite Hk.
  rewrite lookup_insert_eq. rewrite bool_decide_eq_true_2 by eauto. simpl.
  split; [|done].
  assert (existsb (fun ix => index_conflict ix (<[k := item]> (os_records s)) k item)
            (os_indexes s) = false) as ->.
  { apply existsb_false. intros ix Hin. by apply index_conflict_after_put, Hix. }
  rewrite commit_commit. unfold with_records. simpl.
  by rewrite insert_insert_eq.
Qed.

(** X7.  [getAll] without an index resolves with the stored records, each
    once, in ascending order of their ids (numbers before strings, strings
    by code units), whatever the order in which they were stored. *)
Theorem getAll_in_key_order self storeName s :
  store_of self storeName = Some s ->
  keyed_by_path s ->
  exists l ks,
    getAll self storeName None QNull = (Resolved l, self) /\
    l ≡ₚ (map_to_list (os_records s)).*2 /\
    Forall2 (fun v k => extract_key (os_keyPath s) v = Some k) l ks /\
    StronglySorted (fun a b => key_compare a b = Lt) ks.
Proof.
  intros Hs Hkey.
  exists (store_getAll s None), (records_in_order (os_records s)).*1.
  split; [by apply getAll_store|]. split; [apply store_getAll_all|].
  split; [|apply records_in_order_strongly_sorted].
  rewrite store_getAll_in_order. apply Forall2_snd_fst, Forall_forall.
  intros [k v] Hin. rewrite records_in_order_perm in Hin.
  apply elem_of_map_to_list in Hin. by apply Hkey.
Qed.

(** X12.  No call on the wrapper changes the schema: the configuration,
    the version of the database, the set of stores, and the key path and
    the indexes of every store are after the call what they were before. *)
Theorem calls_keep_the_schema self o :
  config (perform self o) = config self /\
  db_version <$> db (perform self o) = db_version <$> db self /\
  forall storeName, schema (perform self o) storeName = schema self storeName.
Proof.
  pose proof (perform_evolves self o) as Hev.
  split; [apply Hev|]. split; [apply Hev|].
  intros storeName. by apply service_evolves_schema.
Qed.

(** X13.  For every configuration, the calls keep the invariants of the
    stores: every record is stored under the id that its own value
    carries, and no two records of a store have the same key under an
    index declared unique. *)
Theorem calls_keep_the_stores_consistent self o :
  service_ok self -> service_ok (perform self o).
Proof. apply service_evolves_ok, perform_evolves. Qed.

(** X14.  A call that names a store the database does not have, or that
    is made before [init] has opened the database, is rejected (with
    [NotFoundError], and with [TypeError] when the database is not open)
    and changes nothing. *)
Theorem calls_on_a_missing_store self storeName :
  store_of self storeName = None ->
  let e := match db self with Some _ => NotFoundError | None => TypeError end in
  (forall item, add self storeName item = (Rejected e, self)) /\
  (forall item, update self storeName item = (Rejected e, self)) /\
  (forall k, get self storeName k = (Rejected e, self)) /\
  (forall indexName q, getAll self storeName indexName q = (Rejected e, self)) /\
  (forall k, delete_ self storeName k = (Rejected e, self)) /\
  clear self storeName = (Rejected e, self).
Proof.
  intros Hs e.
  assert (open_store self storeName = inl e) as Ho.
  { unfold open_store, store_of, e in *. destruct (db self) as [d|]; [|done].
    simpl in Hs. by rewrite Hs. }
  unfold add, update, get, getAll, delete_, clear. rewrite Ho. done.
Qed.

(** X15.  A value that carries no valid key is refused with [DataError]
    and changes nothing: [add] and [update] of an item without a number,
    string or array at the key path of the store, and [get] and [delete]
    with [null], a boolean or an object as the key. *)
Theorem calls_with_an_invalid_key self storeName s :
  store_of self storeName = Some s ->
  (forall item, extract_key (os_keyPath s) item = None ->
     add self storeName item = (Rejected DataError, self) /\
     update self storeName item = (Rejected DataError, self)) /\
  (forall k, to_key k = None ->
     get self storeName k = (Rejected DataError, self) /\
     delete_ self storeName k = (Rejected DataError, self)).
Proof.
  intros (d & _ & _ & Ho)%store_of_open.
  unfold add, update, get, delete_, store_add, store_put, store_record,
    store_get, store_delete.
  rewrite Ho. split.
  - intros item ->. done.
  - intros k ->. done.
Qed.

(** ** getAll through an index *)

Lemma in_range_only (ik k : key) : in_range (key_range_only ik) k = true <-> k = ik.
Proof.
  unfold in_range, key_range_only. simpl.
  rewrite (key_compare_antisym ik k).
  destruct (key_compare ik k) eqn:E; simpl.
  - apply key_compare_eq in E as ->. done.
  - split; [done|]. intros ->. by rewrite (proj2 (key_compare_eq ik ik) eq_refl) in E.
  - split; [done|]. intros ->. by rewrite (proj2 (key_compare_eq ik ik) eq_refl) in E.
Qed.

Lemma index_values_all keyPath (l : list (key * jsval)) :
  (fun e : key * (key * jsval) => e.2.2) <$>
    omap (fun kv => (fun ik => (ik, kv)) <$> extract_key keyPath kv.2) l =
  (filter (fun kv => is_Some (extract_key keyPath kv.2)) l).*2.
Proof.
  induction l as [|[k v] l IH]; [done|]. simpl.
  destruct (extract_key keyPath v) as [ik|] eqn:E; simpl.
  - rewrite filter_cons_True by (simpl; rewrite E; eauto). simpl.
    f_equal. exact IH.
  - rewrite filter_cons_False by (simpl; rewrite E; by intros [? ?]). exact IH.
Qed.

Lemma index_values_only keyPath (ik : key) (l : list (key * jsval)) :
  (fun e : key * (key * jsval) => e.2.2) <$>
    filter (fun e : key * (key * jsval) => in_range (key_range_only ik) e.1)
      (omap (fun kv => (fun ik => (ik, kv)) <$> extract_key keyPath kv.2) l) =
  (filter (fun kv => extract_key keyPath kv.2 = Some ik) l).*2.
Proof.
  induction l as [|[k v] l IH]; [done|]. simpl.
  destruct (extract_key keyPath v) as [ik'|] eqn:E; simpl.
  - destruct (decide (ik' = ik)) as [->|Hne].
    + rewrite filter_cons_True by (simpl; by apply Is_true_true, in_range_only).
      rewrite filter_cons_True by done. simpl. f_equal. exact IH.
    + rewrite filter_cons_False
        by (simpl; intros H%Is_true_true%in_range_only; done).
      rewrite filter_cons_False by (simpl; congruence). exact IH.
  - rewrite filter_cons_False by (simpl; congruence). exact IH.
Qed.

Lemma getAll_index self storeName s indexName ix q :
  store_of self storeName = Some s ->
  indexName <> "" ->
  store_index s indexName = Some ix ->
  getAll self storeName (Some indexName) q =
  match (if query_truthy q then query_range q else inr None) with
  | inl e => (Rejected e, self)
  | inr r => (Resolved (index_getAll ix s r), self)
  end.
Proof.
  intros (d & _ & _ & Ho)%store_of_open Hname Hix. unfold getAll. rewrite Ho.
  simpl. apply String.eqb_neq in Hname. rewrite Hname. simpl. by rewrite Hix.
Qed.

(** X8.  [getAll] through an index with a key as the query resolves with
    exactly the stored records whose value at the key path of the index is
    that key, each once (the key being neither [0] nor the empty string,
    which the wrapper takes for an absent query); through a unique index,
    that is at most one record. *)
Theorem getAll_by_index_value self storeName s indexName ix (ik : key) :
  store_of self storeName = Some s ->
  indexName <> "" ->
  store_index s indexName = Some ix ->
  ik <> KNum 0 -> ik <> KStr "" ->
  exists l,
    getAll self storeName (Some indexName) (QValue (key_value ik))
      = (Resolved l, self) /\
    l ≡ₚ (filter (fun kv => extract_key (ix_keyPath ix) kv.2 = Some ik)
            (map_to_list (os_records s))).*2 /\
    (store_ok s -> ix_unique ix = true -> (length l <= 1)%nat).
Proof.
  intros Hs Hname Hix H0 He.
  rewrite (getAll_index _ _ _ _ _ _ Hs Hname Hix).
  assert (query_truthy (QValue (key_value ik)) = true) as ->.
  { destruct ik as [n|t|ks]; simpl; [| |done].
    - apply negb_true_iff, Z.eqb_neq. congruence.
    - apply negb_true_iff, String.eqb_neq. congruence. }
  simpl. rewrite to_key_value. eexists. split; [reflexivity|].
  assert (index_getAll ix s (Some (key_range_only ik)) ≡ₚ
          (filter (fun kv => extract_key (ix_keyPath ix) kv.2 = Some ik)
             (map_to_list (os_records s))).*2) as Hperm.
  { unfold index_getAll, index_records. simpl.
    rewrite merge_sort_Permutation. by rewrite index_values_only. }
  split; [exact Hperm|]. intros [_ Hok] Hu. rewrite Hperm, length_fmap.
  apply find_some in Hix as [Hin _]. specialize (Hok ix Hin Hu).
  pose proof (NoDup_filter
                (fun kv : key * jsval => extract_key (ix_keyPath ix) kv.2 = Some ik)
                _ (NoDup_map_to_list (os_records s))) as Hnd.
  destruct (filter _ _) as [|[k1 v1] [|[k2 v2] rest]] eqn:Hf; simpl; [lia..|].
  exfalso.
  assert ((k1, v1) ∈ filter (fun kv : key * jsval =>
             extract_key (ix_keyPath ix) kv.2 = Some ik)
            (map_to_list (os_records s))) as H1 by (rewrite Hf; set_solver).
  assert ((k2, v2) ∈ filter (fun kv : key * jsval =>
             extract_key (ix_keyPath ix) kv.2 = Some ik)
            (map_to_list (os_records s))) as H2 by (rewrite Hf; set_solver).
  apply list_elem_of_filter in H1 as [E1 H1%elem_of_map_to_list].
  apply list_elem_of_filter in H2 as [E2 H2%elem_of_map_to_list].
  simpl in *. assert (k1 = k2) as -> by by eapply Hok.
  assert (v1 = v2) as -> by congruence.
  apply NoDup_cons in Hnd as [Hnd _]. apply Hnd. left.
Qed.

(** X9.  [getAll] through an index without a query, or with a falsy one
    ([0], the empty string), resolves with exactly the stored records that
    have a key at the key path of the index, each once: a record whose
    value there is missing, [null], a boolean or an object is not listed. *)
Theorem getAll_by_index self storeName s indexName ix q :
  store_of self storeName = Some s ->
  indexName <> "" ->
  store_index s indexName = Some ix ->
  query_truthy q = false ->
  exists l,
    getAll self storeName (Some indexName) q = (Resolved l, self) /\
    l ≡ₚ (filter (fun kv => is_Some (extract_key (ix_keyPath ix) kv.2))
            (map_to_list (os_records s))).*2.
Proof.
  intros Hs Hname Hix Hq.
  rewrite (getAll_index _ _ _ _ _ _ Hs Hname Hix), Hq.
  eexists. split; [reflexivity|].
  unfold index_getAll, index_records.
  rewrite filter_all by (apply Forall_forall; intros; done).
  rewrite merge_sort_Permutation. by rewrite index_values_all.
Qed.

(** ** saveAll after export *)

Lemma update_stored self storeName s k v :
  store_of self storeName = Some s ->
  store_ok s ->
  os_records s !! k = Some v ->
  update self storeName v = (Resolved k, self).
Proof.
  intros Hst [Hkey Hix] Hv.
  destruct (store_of_open _ _ _ Hst) as (d & Hd & Hs & Ho).
  unfold update. rewrite Ho.
  assert (store_put s v = inr (k, with_records s (<[k := v]> (os_records s))))
    as ->.
  { apply store_record_inr. split; [by apply Hkey|]. split; [done|].
    split; [|done]. intros ix Hin. apply index_conflict_false.
    intros Hu ik k' v' E Hk' E'. by eapply (Hix ix Hin Hu). }
  rewrite insert_id by done. rewrite with_records_same.
  by rewrite commit_same.
Qed.

Lemma push_each_update_stored self storeName s items ks :
  store_of self storeName = Some s ->
  store_ok s ->
  Forall2 (fun v k => os_records s !! k = Some v) items ks ->
  forall ps,
    push_each (fun s => update s storeName) items (self, ps) =
    (self, (ps ++ (Resolved <$> ks))%list).
Proof.
  intros Hst Hok. induction 1 as [|v k items ks Hv _ IH]; intros ps.
  - simpl. by rewrite app_nil_r.
  - rewrite push_each_cons, (update_stored _ _ _ _ _ Hst Hok Hv). simpl.
    rewrite IH, <- app_assoc. done.
Qed.

Lemma store_getAll_stored s :
  Forall2 (fun v k => os_records s !! k = Some v)
          (store_getAll s None) (records_in_order (os_records s)).*1.
Proof.
  rewrite store_getAll_in_order. apply Forall2_snd_fst, Forall_forall.
  intros [k v] Hin. rewrite records_in_order_perm in Hin.
  by apply elem_of_map_to_list.
Qed.

Lemma Promise_all_fmap_Resolved {A} (values : list A) :
  Promise_all (Resolved <$> values) = Resolved values.
Proof.
  destruct (Promise_all_of_resolved (Resolved <$> values)) as (values' & -> & Heq).
  { apply Forall_fmap, Forall_forall. intros k _. by eexists. }
  f_equal. revert values' Heq.
  induction values as [|k l IH]; intros [|k' values']; simpl; try done.
  intros [= -> H]. f_equal. by apply IH.
Qed.


(** ** import, whatever its outcome *)

Lemma add_origin self storeName x name s' v :
  store_of (add self storeName x).2 name = Some s' ->
  stored s' v ->
  (exists s, store_of self name = Some s /\ stored s v) \/
  (name = storeName /\ v = x).
Proof.
  destruct (add self storeName x) as [[k|e] self'] eqn:Ha; simpl.
  - apply add_inv in Ha as (s & Hs & _ & _ & _ & Hs' & Hother).
    destruct (decide (name = storeName)) as [->|Hne].
    + rewrite Hs'. intros [= <-] [k' Hv]. simpl in Hv.
      rewrite lookup_insert in Hv. case_decide.
      * right. split; [done | congruence].
      * left. exists s. split; [done | by exists k'].
    + rewrite Hother by done. intros ? ?. left. eauto.
  - apply add_rejected in Ha as ->. intros ? ?. left. eauto.
Qed.

Lemma push_each_add_origin storeName elems : forall self ps name s' v,
  store_of (push_each (fun s => add s storeName) elems (self, ps)).1 name = Some s' ->
  stored s' v ->
  (exists s, store_of self name = Some s /\ stored s v) \/
  (name = storeName /\ v ∈ elems).
Proof.
  induction elems as [|x elems IH]; intros self ps name s' v.
  - simpl. intros ? ?. left. eauto.
  - rewrite push_each_cons. intros Hs' Hv.
    destruct (IH _ _ _ _ _ Hs' Hv) as [(s1 & Hs1 & Hv1)|[-> Hin]].
    + destruct (add_origin _ _ _ _ _ _ Hs1 Hv1) as [?|[-> ->]]; [by left|].
      right. split; [done | left].
    + right. split; [done | by right].
Qed.

Lemma push_field_add_origin data field b b' name s' v :
  push_field data field (fun s => add s field) b = inr b' ->
  store_of b'.1 name = Some s' ->
  stored s' v ->
  (exists s, store_of b.1 name = Some s /\ stored s v) \/
  (name = field /\
   exists f elems, get_prop data field = inr (Some f) /\
                   iterate f = Some elems /\ v ∈ elems).
Proof.
  unfold push_field. destruct (get_prop data field) as [e|f]; [done|].
  destruct (truthy f).
  - destruct f as [f|]; simpl; [|done].
    destruct (iterate f) as [elems|] eqn:Hit; [|done].
    destruct b as [self ps]. intros [= <-] Hs' Hv.
    destruct (push_each_add_origin _ _ _ _ _ _ _ Hs' Hv) as [?|[-> Hin]];
      [by left|].
    right. split; [done|]. by exists f, elems.
  - intros [= <-] ? ?. left. eauto.
Qed.

Lemma string_not_keyed (s : string) : extract_key "id" (VStr s) = None.
Proof. reflexivity. Qed.

Lemma import_origin self data name s' v :
  (clear self "doctors").1 = Resolved () ->
  (clear (clear self "doctors").2 "patients").1 = Resolved () ->
  (clear (clear (clear self "doctors").2 "patients").2 "appointments").1
    = Resolved () ->
  (forall s, store_of (cleared self) name = Some s -> ~ stored s v) ->
  store_of (import self data).2 name = Some s' ->
  stored s' v ->
  exists f elems, get_prop data name = inr (Some f) /\
                  iterate f = Some elems /\ v ∈ elems.
Proof.
  unfold import, JSON_parse, cleared.
  destruct (clear self "doctors") as [[[]|e1] self1]; simpl; [|done].
  destruct (clear self1 "patients") as [[[]|e2] self2]; simpl; [|done].
  destruct (clear self2 "appointments") as [[[]|e3] self3]; simpl; [|done].
  intros _ _ _ Hempty.
  destruct (push_field data "doctors" _ _) as [e|b1] eqn:P1.
  { simpl. intros Hs' Hv. destruct (Hempty _ Hs' Hv). }
  destruct (push_field data "patients" _ _) as [e|b2] eqn:P2.
  { simpl. intros Hs' Hv.
    destruct (push_field_add_origin _ _ _ _ _ _ _ P1 Hs' Hv)
      as [(s & Hs & Hv0)|[-> H]]; [destruct (Hempty _ Hs Hv0) | exact H]. }
  destruct (push_field data "appointments" _ _) as [e|b3] eqn:P3.
  { simpl. intros Hs' Hv.
    destruct (push_field_add_origin _ _ _ _ _ _ _ P2 Hs' Hv)
      as [(s2 & Hs2 & Hv2)|[-> H]]; [|exact H].
    destruct (push_field_add_origin _ _ _ _ _ _ _ P1 Hs2 Hv2)
      as [(s & Hs & Hv0)|[-> H]]; [destruct (Hempty _ Hs Hv0) | exact H]. }
  simpl. intros Hs' Hv.
  destruct (push_field_add_origin _ _ _ _ _ _ _ P3 Hs' Hv)
    as [(s3 & Hs3 & Hv3)|[-> H]]; [|exact H].
  destruct (push_field_add_origin _ _ _ _ _ _ _ P2 Hs3 Hv3)
    as [(s2 & Hs2 & Hv2)|[-> H]]; [|exact H].
  destruct (push_field_add_origin _ _ _ _ _ _ _ P1 Hs2 Hv2)
    as [(s & Hs & Hv0)|[-> H]]; [destruct (Hempty _ Hs Hv0) | exact H].
Qed.

Lemma clinic_key_path self name s :
  clinic_state self -> name ∈ collections -> store_of self name = Some s ->
  os_keyPath s = "id" /\ store_ok s.
Proof.
  intros Hc Hname Hs.
  destruct (clinic_collection self name Hc Hname) as (s0 & Hs0 & Hok & Hsch).
  assert (s0 = s) as -> by congruence. split; [|exact Hok].
  unfold collections in Hname.
  repeat (apply elem_of_cons in Hname as [->|Hname]);
    [by injection Hsch.. | by apply elem_of_nil in Hname].
Qed.

(** X11.  [import] parses before it clears.  In every state of the
    clinic's database: on a string that is no JSON text the call is
    rejected with the [SyntaxError] of [JSON.parse] and the database is
    left as it was, every stored record in place; on a JSON text, whatever
    the document and however the call settles, no record of the earlier
    contents is left behind: each record of the three collections after
    the call is one of the records that the document lists for the
    collection. *)
Theorem import_no_old_record_or_no_change self jsonData :
  reachable self ->
  match jsonData with
  | Not_JSON => import_text self jsonData = (Rejected SyntaxError, self)
  | JSON_text document =>
      forall name s' v,
        name ∈ collections ->
        store_of (import_text self jsonData).2 name = Some s' ->
        stored s' v ->
        v ∈ listed (JSON_parse document) name
  end.
Proof.
  intros Hr. destruct jsonData as [jsonData|]; [|reflexivity].
  cbn [import_text]. intros name s' v Hname Hs' Hv.
  pose proof (reachable_clinic_state _ Hr) as Hc.
  destruct (clinic_collection self "doctors" Hc) as (sd & Hsd & _); [set_solver|].
  destruct (clinic_collection self "patients" Hc) as (sp & Hsp & _); [set_solver|].
  destruct (clinic_collection self "appointments" Hc) as (sa & Hsa & _);
    [set_solver|].
  pose proof (clear_resolves _ _ _ Hsd) as H1.
  destruct (clear_cases self "doctors") as [(? & _ & _ & _ & Ho1)|(e & E)];
    [|by rewrite E in H1].
  assert ((clear (clear self "doctors").2 "patients").1 = Resolved ()) as H2.
  { eapply clear_resolves. rewrite Ho1 by done. exact Hsp. }
  destruct (clear_cases (clear self "doctors").2 "patients")
    as [(? & _ & _ & _ & Ho2)|(e & E)]; [|by rewrite E in H2].
  assert ((clear (clear (clear self "doctors").2 "patients").2 "appointments").1
          = Resolved ()) as H3.
  { eapply clear_resolves. rewrite Ho2, Ho1 by done. exact Hsa. }
  destruct (import_origin self (JSON_parse jsonData) name s' v H1 H2 H3)
    as (f & elems & Hf & Hit & Hin); [|exact Hs'|exact Hv|].
  { intros s Hs [k Hk].
    destruct (cleared_stores self H1 H2 H3 name Hname) as (s0 & _ & Hs0).
    rewrite Hs0 in Hs. injection Hs as <-. simpl in Hk.
    by rewrite lookup_empty in Hk. }
  unfold listed. rewrite Hf. destruct f as [| | |t|l|]; try done.
  - exfalso. injection Hit as <-.
    apply list_elem_of_fmap in Hin as (c & -> & _).
    destruct (clinic_key_path (import self jsonData).2 name s') as [Hpath [Hkey _]];
      [|done..|].
    { apply reachable_clinic_state. exact (reach_call self (OpImport jsonData) Hr). }
    destruct Hv as [k Hk]. apply Hkey in Hk. rewrite Hpath in Hk. done.
  - by injection Hit as <-.
Qed.

(** ** The properties at work on the sample states *)

Lemma clinic_config_plain : plain_key_paths clinic_config.
Proof.
  intros sc Hsc. split.
  - destruct Hsc as [<-|[<-|[<-|[]]]]; vm_compute; reflexivity.
  - intros ix Hix.
    destruct Hsc as [<-|[<-|[<-|[]]]]; simpl in Hix;
      repeat (destruct Hix as [<-|Hix]; [vm_compute; reflexivity|]);
      destruct Hix.
Qed.

Lemma clinic_config_creatable sc : In sc (cfg_stores clinic_config) -> creatable sc.
Proof.
  intros Hsc. split; [|split].
  - destruct Hsc as [<-|[<-|[<-|[]]]]; vm_compute; reflexivity.
  - destruct Hsc as [<-|[<-|[<-|[]]]];
      apply (bool_decide_unpack _); vm_compute; exact I.
  - intros ix Hix.
    destruct Hsc as [<-|[<-|[<-|[]]]]; simpl in Hix;
      repeat (destruct Hix as [<-|Hix]; [vm_compute; reflexivity|]);
      destruct Hix.
Qed.

Lemma init_creates_the_configured_stores_witness :
  1 <= cfg_version clinic_config <= MAX_SAFE_INTEGER /\
  plain_key_paths clinic_config /\
  (forall sc, In sc (cfg_stores clinic_config) -> creatable sc) /\
  exists self,
    init (constructed clinic_config) None = (Resolved (), self) /\
    config self = clinic_config /\
    db_version <$> db self = Some 2 /\
    (forall name, store_of self name = clinic_store name) /\
    service_ok self.
Proof.
  assert (1 <= cfg_version clinic_config <= MAX_SAFE_INTEGER) as Hv
    by (vm_compute; split; discriminate).
  split; [exact Hv|]. split; [exact clinic_config_plain|].
  split; [exact clinic_config_creatable|].
  exact (init_creates_the_configured_stores clinic_config Hv
           clinic_config_plain clinic_config_creatable).
Defined.

Lemma init_keeps_the_stored_data_witness :
  init (constructed clinic_config) (Some clinic_version_1)
    = (Resolved (), clinic_upgraded) /\
  config clinic_upgraded = clinic_config /\
  db_version <$> db clinic_upgraded = Some 2 /\
  (forall name s, db_stores clinic_version_1 !! name = Some s ->
                  store_of clinic_upgraded name = Some s) /\
  (forall name s,
     store_of clinic_upgraded name = Some s ->
     db_stores clinic_version_1 !! name = None ->
     1 < 2 /\
     exists sc, In sc (cfg_stores clinic_config) /\ sc_name sc = name /\
                s = empty_store sc) /\
  (1 = 2 -> db clinic_upgraded = Some clinic_version_1).
Proof.
  split; [vm_compute; reflexivity|].
  apply (init_keeps_the_stored_data clinic_config clinic_version_1 clinic_upgraded).
  vm_compute. reflexivity.
Defined.

Lemma clear_empties_the_store_witness :
  exists s,
    store_of clinic_with_patient_1 "patients" = Some s /\
    exists self',
      clear clinic_with_patient_1 "patients" = (Resolved (), self') /\
      store_of self' "patients" = Some (store_clear s) /\
      getAll self' "patients" None QNull = (Resolved [], self') /\
      (forall k : key, get self' "patients" (key_value k) = (Resolved None, self')) /\
      schema self' "patients" = schema clinic_with_patient_1 "patients" /\
      (forall name, name <> "patients" ->
                    store_of self' name = store_of clinic_with_patient_1 name) /\
      clear self' "patients" = (Resolved (), self').
Proof.
  eexists. split; [vm_compute; reflexivity|].
  apply (clear_empties_the_store clinic_with_patient_1 "patients").
  vm_compute. reflexivity.
Defined.

Lemma add_then_get_witness :
  add fresh_clinic "patients" patient_1 =
    (Resolved (KStr "p1"), clinic_with_patient_1) /\
  exists s l l',
    store_of fresh_clinic "patients" = Some s /\
    extract_key (os_keyPath s) patient_1 = Some (KStr "p1") /\
    get fresh_clinic "patients" (VStr "p1") = (Resolved None, fresh_clinic) /\
    get clinic_with_patient_1 "patients" (VStr "p1") =
      (Resolved (Some patient_1), clinic_with_patient_1) /\
    getAll fresh_clinic "patients" None QNull = (Resolved l, fresh_clinic) /\
    getAll clinic_with_patient_1 "patients" None QNull =
      (Resolved l', clinic_with_patient_1) /\
    l' ≡ₚ patient_1 :: l.
Proof.
  split; [vm_compute; reflexivity|].
  apply (add_then_get fresh_clinic "patients" patient_1 (KStr "p1")
           clinic_with_patient_1).
  vm_compute. reflexivity.
Defined.

Lemma add_then_delete_witness :
  add fresh_clinic "patients" patient_1 =
    (Resolved (KStr "p1"), clinic_with_patient_1) /\
  delete_ clinic_with_patient_1 "patients" (VStr "p1") = (Resolved (), fresh_clinic).
Proof.
  split; [vm_compute; reflexivity|].
  apply (add_then_delete fresh_clinic "patients" patient_1 (KStr "p1")
           clinic_with_patient_1).
  vm_compute. reflexivity.
Defined.

Lemma update_twice_witness :
  update fresh_clinic "patients" patient_1 =
    (Resolved (KStr "p1"), clinic_with_patient_1) /\
  update clinic_with_patient_1 "patients" patient_1 =
    (Resolved (KStr "p1"), clinic_with_patient_1) /\
  add clinic_with_patient_1 "patients" patient_1 =
    (Rejected ConstraintError, clinic_with_patient_1).
Proof.
  split; [vm_compute; reflexivity|].
  apply (update_twice fresh_clinic "patients" patient_1 (KStr "p1")
           clinic_with_patient_1).
  vm_compute. reflexivity.
Defined.

Lemma getAll_in_key_order_witness :
  exists s,
    store_of clinic_after_save "patients" = Some s /\
    keyed_by_path s /\
    exists l ks,
      getAll clinic_after_save "patients" None QNull
        = (Resolved l, clinic_after_save) /\
      l ≡ₚ (map_to_list (os_records s)).*2 /\
      Forall2 (fun v k => extract_key (os_keyPath s) v = Some k) l ks /\
      StronglySorted (fun a b => key_compare a b = Lt) ks.
Proof.
  eexists. split; [vm_compute; reflexivity|].
  assert (forall s, store_of clinic_after_save "patients" = Some s ->
                    keyed_by_path s) as Hkey.
  { intros s Hs.
    apply (reachable_store_ok clinic_after_save "patients" s
             clinic_after_save_reachable Hs). }
  split; [apply Hkey; vm_compute; reflexivity|].
  apply (getAll_in_key_order clinic_after_save "patients");
    [vm_compute; reflexivity | apply Hkey; vm_compute; reflexivity].
Defined.

Lemma getAll_by_index_value_witness :
  exists s,
    store_of clinic_after_save "patients" = Some s /\
    store_index s "phone" = Some phone_index /\
    exists l,
      getAll clinic_after_save "patients" (Some "phone") (QValue (VStr "0500000003"))
        = (Resolved l, clinic_after_save) /\
      l ≡ₚ (filter (fun kv => extract_key "phone" kv.2 = Some (KStr "0500000003"))
              (map_to_list (os_records s))).*2 /\
      (store_ok s -> ix_unique phone_index = true -> (length l <= 1)%nat).
Proof.
  eexists. split; [vm_compute; reflexivity|]. split; [vm_compute; reflexivity|].
  apply (getAll_by_index_value clinic_after_save "patients" _ "phone" phone_index
           (KStr "0500000003"));
    [vm_compute; reflexivity | discriminate | vm_compute; reflexivity
    | discriminate | discriminate].
Defined.

Lemma getAll_by_index_witness :
  exists s,
    store_of clinic_after_save "doctors" = Some s /\
    store_index s "isActive" = Some isActive_index /\
    exists l,
      getAll clinic_after_save "doctors" (Some "isActive") QNull
        = (Resolved l, clinic_after_save) /\
      l ≡ₚ (filter (fun kv => is_Some (extract_key "isActive" kv.2))
              (map_to_list (os_records s))).*2.
Proof.
  eexists. split; [vm_compute; reflexivity|]. split; [vm_compute; reflexivity|].
  apply (getAll_by_index clinic_after_save "doctors" _ "isActive" isActive_index
           QNull);
    [vm_compute; reflexivity | discriminate | vm_compute; reflexivity
    | reflexivity].
Defined.

(** The doctors of the samples are active, and none of them is in the
    [isActive] index: [true] is no key. *)
Example getAll_by_isActive :
  (getAll clinic_after_save "doctors" None QNull).1 =
    Resolved [doctor "d1" "Salma" "cardiology"] /\
  (getAll clinic_after_save "doctors" (Some "isActive") QNull).1 = Resolved [].
Proof. split; vm_compute; reflexivity. Qed.


Lemma import_no_old_record_or_no_change_witness :
  reachable clinic_with_patient_1 /\
  exists s',
    store_of (import_text clinic_with_patient_1 (JSON_text sample_document)).2
      "patients" = Some s' /\
    stored s' patient_3 /\
    patient_3 ∈ listed (JSON_parse sample_document) "patients".
Proof.
  split; [apply clinic_with_patient_1_reachable|].
  eexists. split; [vm_compute; reflexivity|].
  split; [exists (KStr "p3"); vm_compute; reflexivity|].
  eapply (import_no_old_record_or_no_change clinic_with_patient_1
            (JSON_text sample_document) clinic_with_patient_1_reachable
            "patients" _ patient_3).
  - unfold collections. set_solver.
  - vm_compute. reflexivity.
  - exists (KStr "p3"). vm_compute. reflexivity.
Defined.

(** [import] of a string that is no JSON text, with [patient_1] stored:
    the call is rejected and [patient_1] is still there. *)
Example import_of_a_string_that_is_no_JSON :
  import_text clinic_with_patient_1 Not_JSON =
    (Rejected SyntaxError, clinic_with_patient_1) /\
  (get clinic_with_patient_1 "patients" (VStr "p1")).1 = Resolved (Some patient_1).
Proof. split; vm_compute; reflexivity. Qed.

(** The order of the ids is that of their code units: an id that starts
    with [U+1F600], a surrogate pair, comes before one that starts with
    [U+FF5E], although its code point and its UTF-8 bytes are the larger;
    and the length of a string is counted in code units. *)
Example getAll_in_code_unit_order :
  let tilde := patient "～1" "Amal" "0500000001" in
  let face := patient "😀1" "Badr" "0500000002" in
  let self := (add (add fresh_clinic "patients" tilde).2 "patients" face).2 in
  key_compare (KStr "😀1") (KStr "～1") = Lt /\
  String.compare "😀1" "～1" = Gt /\
  getAll self "patients" None QNull = (Resolved [face; tilde], self).
Proof. cbv zeta. repeat split; vm_compute; reflexivity. Qed.

Example length_in_code_units :
  extract_key "name.length" (patient "p5" "أحمد" "0500000005") = Some (KNum 4) /\
  extract_key "name.length" (patient "p6" "😀" "0500000006") = Some (KNum 2) /\
  iterate (VStr "aé😀") = Some [VStr "a"; VStr "é"; VStr "😀"].
Proof. repeat split; vm_compute; reflexivity. Qed.

Lemma calls_keep_the_stores_consistent_witness :
  service_ok fresh_clinic /\
  service_ok (perform fresh_clinic (OpAdd "patients" patient_2)).
Proof.
  assert (service_ok fresh_clinic) as Hok by apply fresh_clinic_state.
  split; [exact Hok|].
  apply (calls_keep_the_stores_consistent fresh_clinic (OpAdd "patients" patient_2)).
  exact Hok.
Defined.

Lemma calls_on_a_missing_store_witness :
  store_of fresh_clinic "invoices" = None /\
  (forall item, add fresh_clinic "invoices" item
                = (Rejected NotFoundError, fresh_clinic)) /\
  (forall item, update fresh_clinic "invoices" item
                = (Rejected NotFoundError, fresh_clinic)) /\
  (forall k, get fresh_clinic "invoices" k = (Rejected NotFoundError, fresh_clinic)) /\
  (forall indexName q, getAll fresh_clinic "invoices" indexName q
                       = (Rejected NotFoundError, fresh_clinic)) /\
  (forall k, delete_ fresh_clinic "invoices" k
             = (Rejected NotFoundError, fresh_clinic)) /\
  clear fresh_clinic "invoices" = (Rejected NotFoundError, fresh_clinic).
Proof.
  split; [vm_compute; reflexivity|].
  apply (calls_on_a_missing_store fresh_clinic "invoices").
  vm_compute. reflexivity.
Defined.

Lemma calls_with_an_invalid_key_witness :
  exists s,
    store_of clinic_with_patient_1 "patients" = Some s /\
    extract_key (os_keyPath s) (VObj [("name", VStr "Amal")]) = None /\
    to_key (VBool true) = None /\
    add clinic_with_patient_1 "patients" (VObj [("name", VStr "Amal")])
      = (Rejected DataError, clinic_with_patient_1) /\
    update clinic_with_patient_1 "patients" (VObj [("name", VStr "Amal")])
      = (Rejected DataError, clinic_with_patient_1) /\
    get clinic_with_patient_1 "patients" (VBool true)
      = (Rejected DataError, clinic_with_patient_1) /\
    delete_ clinic_with_patient_1 "patients" (VBool true)
      = (Rejected DataError, clinic_with_patient_1).
Proof.
  eexists. split; [vm_compute; reflexivity|].
  match goal with
  | |- context [os_keyPath ?s] =>
      destruct (calls_with_an_invalid_key clinic_with_patient_1 "patients" s)
        as [Hitem Hkey]; [vm_compute; reflexivity|]
  end.
  split; [vm_compute; reflexivity|]. split; [reflexivity|].
  destruct (Hitem (VObj [("name", VStr "Amal")]) ltac:(vm_compute; reflexivity))
    as [Hadd Hupdate].
  destruct (Hkey (VBool true) eq_refl) as [Hget Hdelete].
  repeat split; assumption.
Defined.

(** ** The date of today *)

(** X16.  The date of today that [updateStats], [updateUpcomingAppointments]
    and [setupDatePickers] compute is the date part of the clock reading in
    UTC, [YYYY-MM-DD] with the month and the day on two digits: ten
    characters for the years 0 to 9999, the form in which the dates of the
    appointments compare with it. *)
Theorem today_is_the_date_part now :
  today_of now =
    iso_year (YearFromTime now) ++ "-" ++ pad2 (MonthFromTime now + 1) ++ "-" ++
    pad2 (DateFromTime now) /\
  (0 <= YearFromTime now <= 9999 -> String.length (today_of now) = 10%nat).
Proof.
  assert (today_of now =
    iso_year (YearFromTime now) ++ "-" ++ pad2 (MonthFromTime now + 1) ++ "-" ++
    pad2 (DateFromTime now)) as Htoday.
  { unfold today_of, toISOString, iso_year.
    destruct ((0 <=? YearFromTime now) && (YearFromTime now <=? 9999));
      [|destruct (YearFromTime now <? 0)];
      cbv [pad2 pad3 pad4 pad6 String.append];
      match goal with |- _ = ?p => apply (split_on_hd "T" p) end;
      intros c Hc; simpl in Hc;
      repeat destruct Hc as [<-|Hc]; try apply digit_not_T; try reflexivity;
      destruct Hc. }
  split; [exact Htoday|]. intros Hy. rewrite Htoday. unfold iso_year.
  destruct (Z.leb_spec 0 (YearFromTime now)); [|lia].
  destruct (Z.leb_spec (YearFromTime now) 9999); [|lia]. reflexivity.
Qed.

Lemma today_is_the_date_part_witness :
  today_of 1700000000000 = "2023-11-14" /\
  String.length (today_of 1700000000000) = 10%nat.
Proof.
  destruct (today_is_the_date_part 1700000000000) as [Htoday Hlength].
  split; [rewrite Htoday; vm_compute; reflexivity|].
  apply Hlength. vm_compute. split; discriminate.
Defined.

(** ** Times ago *)

(** X17.  [formatTimeAgo] by the age of the date in milliseconds: "now"
    below one minute, also for a date in the future; whole minutes from 1
    to 59 below one hour; whole hours from 1 to 23 below one day; whole
    days from 1 to 6 below one week; and the formatted date from one week
    on. *)
Theorem formatTimeAgo_steps Date_parse toLocaleDateString dateString now date :
  Date_parse dateString = Some date ->
  let diff := now - date in
  let shown := formatTimeAgo Date_parse toLocaleDateString dateString now in
  (diff < 60000 -> shown = "الآن") /\
  (60000 <= diff < 3600000 ->
   1 <= diff / 60000 <= 59 /\
   shown = "منذ " ++ Number_toString (diff / 60000) ++ " دقيقة") /\
  (3600000 <= diff < 86400000 ->
   1 <= diff / 3600000 <= 23 /\
   shown = "منذ " ++ Number_toString (diff / 3600000) ++ " ساعة") /\
  (86400000 <= diff < 604800000 ->
   1 <= diff / 86400000 <= 6 /\
   shown = "منذ " ++ Number_toString (diff / 86400000) ++ " يوم") /\
  (604800000 <= diff ->
   shown = formatDate Date_parse toLocaleDateString dateString).
Proof.
  intros Hdate diff shown. subst shown. unfold formatTimeAgo. rewrite Hdate.
  fold diff. cbv zeta. generalize diff. clear. intros diff.
  repeat split; intros;
    repeat match goal with
           | |- context [Z.ltb ?a ?b] => destruct (Z.ltb_spec a b)
           end;
    try reflexivity; try (Z.div_mod_to_equations; lia).
Qed.

Lemma formatTimeAgo_steps_witness :
  let shown :=
    formatTimeAgo (fun _ => Some 1700000000000) (fun _ => "14/11/2023")
      "2023-11-14T22:13:20.000Z" 1700007500000 in
  7500000 / 3600000 = 2 /\ shown = "منذ 2 ساعة".
Proof.
  pose proof (formatTimeAgo_steps (fun _ => Some 1700000000000)
                (fun _ => "14/11/2023") "2023-11-14T22:13:20.000Z"
                1700007500000 1700000000000 eq_refl) as H.
  cbv zeta in H. destruct H as (_ & _ & Hhours & _).
  destruct Hhours as [_ Hshown]; [lia|].
  split; [reflexivity|]. cbv zeta. rewrite Hshown. vm_compute. reflexivity.
Defined.

(** ** Charts *)

Lemma Array_length_cons {A} (x : A) (l : list A) :
  Array_length (x :: l) = Array_length l + 1.
Proof. unfold Array_length. simpl length. lia. Qed.

Lemma Array_length_filter_cons {A} (f : A -> bool) (x : A) (l : list A) :
  Array_length (List.filter f (x :: l)) =
  Array_length (List.filter f l) + (if f x then 1 else 0).
Proof.
  simpl. destruct (f x); [apply Array_length_cons | lia].
Qed.

Lemma Array_length_filter_le {A} (f : A -> bool) (l : list A) :
  0 <= Array_length (List.filter f l) <= Array_length l.
Proof.
  induction l as [|x l IH]; [done|].
  rewrite Array_length_filter_cons, Array_length_cons. destruct (f x); lia.
Qed.

Lemma age_groups_from (patients : list Patient) : forall a b c d e,
  foldl (fun groups patient =>
           if p_age patient <? 18 then increment "أقل من 18" groups
           else if p_age patient <=? 30 then increment "18-30" groups
           else if p_age patient <=? 45 then increment "31-45" groups
           else if p_age patient <=? 60 then increment "46-60" groups
           else increment "أكثر من 60" groups)
        [("أقل من 18", a); ("18-30", b); ("31-45", c); ("46-60", d);
         ("أكثر من 60", e)]
        patients =
  [("أقل من 18",
    a + Array_length (List.filter (fun p => p_age p <? 18) patients));
   ("18-30",
    b + Array_length
          (List.filter (fun p => (18 <=? p_age p) && (p_age p <=? 30)) patients));
   ("31-45",
    c + Array_length
          (List.filter (fun p => (31 <=? p_age p) && (p_age p <=? 45)) patients));
   ("46-60",
    d + Array_length
          (List.filter (fun p => (46 <=? p_age p) && (p_age p <=? 60)) patients));
   ("أكثر من 60",
    e + Array_length (List.filter (fun p => 61 <=? p_age p) patients))].
Proof.
  induction patients as [|p patients IH]; intros a b c d e.
  - simpl. unfold Array_length. simpl. by rewrite !Z.add_0_r.
  - rewrite !Array_length_filter_cons. cbn [foldl].
    destruct (Z.ltb_spec (p_age p) 18);
      [|destruct (Z.leb_spec (p_age p) 30);
        [|destruct (Z.leb_spec (p_age p) 45);
          [|destruct (Z.leb_spec (p_age p) 60)]]];
      unfold increment; cbn [fmap list_fmap fst snd String.eqb Ascii.eqb Bool.eqb];
      rewrite IH;
      repeat match goal with
             | |- context [Z.leb ?x ?y] => destruct (Z.leb_spec x y); try lia
             | |- context [Z.ltb ?x ?y] => destruct (Z.ltb_spec x y); try lia
             end;
      cbn [andb];
      repeat match goal with
             | |- (?l, ?x) :: _ = (?l, ?y) :: _ => replace x with y by lia; f_equal
             end.
Qed.

(** X18.  The age chart counts every patient in exactly one of its five
    groups: the values are the numbers of patients below 18, from 18 to
    30, from 31 to 45, from 46 to 60 and above 60, in the order of the
    labels, and they add up to the number of patients. *)
Theorem patients_by_age (patients : list Patient) :
  let data := getPatientsChartData "age" patients in
  let count P := Array_length (List.filter P patients) in
  labels data = ["أقل من 18"; "18-30"; "31-45"; "46-60"; "أكثر من 60"] /\
  values data =
    [count (fun p => p_age p <? 18);
     count (fun p => (18 <=? p_age p) && (p_age p <=? 30));
     count (fun p => (31 <=? p_age p) && (p_age p <=? 45));
     count (fun p => (46 <=? p_age p) && (p_age p <=? 60));
     count (fun p => 61 <=? p_age p)] /\
  foldr Z.add 0 (values data) = Array_length patients.
Proof.
  intros data count. subst data. unfold getPatientsChartData.
  change (String.eqb "age" "age") with true. cbv iota.
  rewrite age_groups_from. cbn [fmap list_fmap fst snd labels values foldr].
  split; [reflexivity|]. split; [reflexivity|].
  subst count. cbv beta. clear.
  induction patients as [|p patients IH]; [reflexivity|].
  rewrite !Array_length_filter_cons, Array_length_cons.
  repeat match goal with
         | |- context [Z.leb ?x ?y] => destruct (Z.leb_spec x y); try lia
         | |- context [Z.ltb ?x ?y] => destruct (Z.ltb_spec x y); try lia
         end; cbn [andb]; lia.
Qed.

(** X19.  The other chart counts the patients whose gender is [male] and
    those whose gender is [female]; the two values add up to the number of
    patients exactly when every patient has one of the two. *)
Theorem patients_by_gender (type : string) (patients : list Patient) :
  type <> "age" ->
  let data := getPatientsChartData type patients in
  let male :=
    Array_length (List.filter (fun p => String.eqb (p_gender p) "male") patients) in
  let female :=
    Array_length (List.filter (fun p => String.eqb (p_gender p) "female") patients) in
  labels data = ["ذكور"; "إناث"] /\
  values data = [male; female] /\
  male + female <= Array_length patients /\
  (male + female = Array_length patients <->
   forall p, In p patients -> p_gender p = "male" \/ p_gender p = "female").
Proof.
  intros Htype%String.eqb_neq data male female. subst data.
  unfold getPatientsChartData. rewrite Htype. cbn [labels values].
  split; [reflexivity|]. split; [reflexivity|]. subst male female.
  clear. induction patients as [|p patients [IHle IHall]].
  - split; [done|]. split; [intros _ p [] | done].
  - rewrite !Array_length_filter_cons, Array_length_cons.
    pose proof (Array_length_filter_le
                  (fun p => String.eqb (p_gender p) "male") patients) as Hm.
    pose proof (Array_length_filter_le
                  (fun p => String.eqb (p_gender p) "female") patients) as Hf.
    destruct (String.eqb_spec (p_gender p) "male") as [Em|Nm];
      destruct (String.eqb_spec (p_gender p) "female") as [Ef|Nf];
      try congruence.
    + split; [lia|]. split.
      * intros Hsum p' [<-|Hin]; [by left|]. apply IHall; [lia | done].
      * intros Hall. assert (forall p', In p' patients ->
            p_gender p' = "male" \/ p_gender p' = "female") as H'
          by (intros; apply Hall; by right).
        apply IHall in H'. lia.
    + split; [lia|]. split.
      * intros Hsum p' [<-|Hin]; [by right|]. apply IHall; [lia | done].
      * intros Hall. assert (forall p', In p' patients ->
            p_gender p' = "male" \/ p_gender p' = "female") as H'
          by (intros; apply Hall; by right).
        apply IHall in H'. lia.
    + split; [lia|]. split; [lia|].
      intros Hall. destruct (Hall p (or_introl eq_refl)); congruence.
Qed.

(** ** The months of the appointments chart *)

Lemma YearFromDay_unique d y :
  DayFromYear y <= d < DayFromYear (y + 1) -> YearFromDay d = y.
Proof.
  intros H. pose proof (YearFromDay_spec d) as H'.
  revert H H'. generalize (YearFromDay d). intros y'.
  unfold DayFromYear. Z.div_mod_to_equations. lia.
Qed.

Lemma month_cases m :
  0 <= m <= 11 ->
  m = 0 \/ m = 1 \/ m = 2 \/ m = 3 \/ m = 4 \/ m = 5 \/
  m = 6 \/ m = 7 \/ m = 8 \/ m = 9 \/ m = 10 \/ m = 11.
Proof. lia. Qed.

(** The day [dt] of the month [m] of the year [y] is where [MakeDay] puts
    it. *)
Lemma day_of_month y m dt t :
  0 <= m <= 11 ->
  1 <= dt <= days_in_month y (m + 1) ->
  Day t = DayFromYear y + DaysBeforeMonth y m + dt - 1 ->
  YearFromTime t = y /\ MonthFromTime t = m /\ DateFromTime t = dt.
Proof.
  intros Hm Hdt Hday.
  assert (YearFromTime t = y) as Hy.
  { unfold YearFromTime. apply YearFromDay_unique.
    rewrite DayFromYear_succ, Hday. revert Hdt.
    unfold DaysBeforeMonth, days_in_month.
    destruct (DaysInYear_cases y) as [E|E]; rewrite E;
      destruct (month_cases m Hm) as [->|[->|[->|[->|[->|[->|[->|[->|[->|[->|[->| ->]]]]]]]]]]];
      simpl; lia. }
  split; [exact Hy|].
  unfold MonthFromTime, DateFromTime, MonthFromTime, InLeapYear, DayWithinYear.
  rewrite Hy, Hday. revert Hdt. unfold DaysBeforeMonth, days_in_month.
  destruct (DaysInYear_cases y) as [E|E]; rewrite E;
    destruct (month_cases m Hm) as [->|[->|[->|[->|[->|[->|[->|[->|[->|[->|[->| ->]]]]]]]]]]];
    simpl; intros Hdt;
    repeat match goal with
           | |- context [Z.ltb ?a ?b] => destruct (Z.ltb_spec a b); try lia
           end; simpl; lia.
Qed.

(** The first day of a month comes after the last day of the month before
    it, the months being numbered from January of the year 0. *)
Lemma month_end n :
  DayFromYear (n / 12) + DaysBeforeMonth (n / 12) (n mod 12) =
  DayFromYear ((n - 1) / 12) + DaysBeforeMonth ((n - 1) / 12) ((n - 1) mod 12) +
  days_in_month ((n - 1) / 12) ((n - 1) mod 12 + 1).
Proof.
  assert (0 <= (n - 1) mod 12 <= 11) as Hm
    by (pose proof (Z.mod_pos_bound (n - 1) 12); lia).
  destruct (Z.eq_dec ((n - 1) mod 12) 11) as [E11|N11].
  - assert (n / 12 = (n - 1) / 12 + 1) as -> by (Z.div_mod_to_equations; lia).
    assert (n mod 12 = 0) as -> by (Z.div_mod_to_equations; lia).
    rewrite E11, DayFromYear_succ. unfold DaysBeforeMonth, days_in_month.
    destruct (DaysInYear_cases ((n - 1) / 12)) as [E|E]; rewrite E; simpl; lia.
  - assert (n / 12 = (n - 1) / 12) as -> by (Z.div_mod_to_equations; lia).
    assert (n mod 12 = (n - 1) mod 12 + 1) as -> by (Z.div_mod_to_equations; lia).
    unfold DaysBeforeMonth, days_in_month.
    destruct (DaysInYear_cases ((n - 1) / 12)) as [E|E]; rewrite E;
      destruct (month_cases _ Hm) as [->|[->|[->|[->|[->|[->|[->|[->|[->|[->|[->|E11]]]]]]]]]]];
      try (simpl; lia); done.
Qed.

Lemma days_in_month_pos y m : 28 <= days_in_month y m <= 31.
Proof.
  unfold days_in_month.
  repeat match goal with
         | |- context [Z.eqb ?a ?b] => destruct (Z.eqb a b)
         end; simpl; lia.
Qed.

Lemma month_of_ISO_string t y m :
  0 <= y <= 9999 ->
  YearFromTime t = y -> MonthFromTime t = m ->
  String.substring 0 7 (toISOString t) = pad4 y ++ "-" ++ pad2 (m + 1).
Proof.
  intros Hy Ey Em. unfold toISOString, iso_year. rewrite Ey, Em.
  destruct (Z.leb_spec 0 y); [|lia]. destruct (Z.leb_spec y 9999); [|lia].
  reflexivity.
Qed.

(** X28.  The months that the monthly chart counts, in a time zone at a
    fixed offset from UTC of less than a day and for a local year from 100
    to 9999: the value under the label of a month is the number of
    appointments whose date starts with the [YYYY-MM] of the UTC month in
    which the local midnight opening the labelled month falls.  At and
    west of UTC that is the labelled month itself; east of UTC it is the
    month before it. *)
Theorem monthly_chart_months LocalTZA month_label tz appointments now randoms :
  (forall t isUTC, LocalTZA t isUTC = tz) ->
  - msPerDay < tz < msPerDay ->
  100 <= getFullYear LocalTZA now <= 9999 ->
  let this_month := 12 * getFullYear LocalTZA now + getMonth LocalTZA now in
  let shift := if 0 <? tz then 1 else 0 in
  values (getAppointmentsChartData LocalTZA month_label "monthly" appointments
            now randoms) =
  (fun i =>
     Array_length
       (List.filter
          (fun a => String.prefix (month_string (this_month - i - shift)) (date a))
          appointments))
    <$> [5; 4; 3; 2; 1; 0].
Proof.
  intros Htz Hrange Hyear this_month shift.
  assert (0 <= getMonth LocalTZA now <= 11) as Hmonth
    by (unfold getMonth; apply date_range).
  assert (forall i, 0 <= i <= 5 ->
            String.substring 0 7
              (toISOString
                 (Date_local LocalTZA (getFullYear LocalTZA now)
                    (getMonth LocalTZA now - i) 1)) =
            month_string (this_month - i - shift)) as Hstr.
  { intros i Hi. unfold Date_local, UTC, MakeDay. rewrite Htz.
    destruct (Z.leb_spec 0 (getFullYear LocalTZA now)); [|lia].
    destruct (Z.leb_spec (getFullYear LocalTZA now) 99); [lia|]. cbn [andb].
    set (n := this_month - i).
    assert (getFullYear LocalTZA now + (getMonth LocalTZA now - i) / 12 = n / 12)
      as -> by (unfold n, this_month; Z.div_mod_to_equations; lia).
    assert ((getMonth LocalTZA now - i) mod 12 = n mod 12)
      as -> by (unfold n, this_month; Z.div_mod_to_equations; lia).
    assert (12 * 100 - 5 <= n <= 12 * 9999 + 11) as Hn
      by (unfold n, this_month; lia).
    set (first := DayFromYear (n / 12) + DaysBeforeMonth (n / 12) (n mod 12)).
    replace (first + 1 - 1) with first by lia.
    unfold month_string, shift. unfold msPerDay in *.
    destruct (Z.ltb_spec 0 tz) as [Heast|Hwest].
    - assert (Day (first * 86400000 - tz) = first - 1) as Hday
        by (unfold Day, msPerDay; Z.div_mod_to_equations; lia).
      destruct (day_of_month ((n - 1) / 12) ((n - 1) mod 12)
                  (days_in_month ((n - 1) / 12) ((n - 1) mod 12 + 1))
                  (first * 86400000 - tz)) as (Ey & Em & _).
      + pose proof (Z.mod_pos_bound (n - 1) 12). lia.
      + pose proof (days_in_month_pos ((n - 1) / 12) ((n - 1) mod 12 + 1)). lia.
      + rewrite Hday. unfold first. rewrite month_end. lia.
      + apply month_of_ISO_string; [Z.div_mod_to_equations; lia | done..].
    - assert (Day (first * 86400000 - tz) = first) as Hday
        by (unfold Day, msPerDay; Z.div_mod_to_equations; lia).
      destruct (day_of_month (n / 12) (n mod 12) 1 (first * 86400000 - tz))
        as (Ey & Em & _).
      + pose proof (Z.mod_pos_bound n 12). lia.
      + pose proof (days_in_month_pos (n / 12) (n mod 12 + 1)). lia.
      + rewrite Hday. unfold first. lia.
      + rewrite Z.sub_0_r.
        apply month_of_ISO_string; [Z.div_mod_to_equations; lia | done..]. }
  unfold getAppointmentsChartData, chart_months.
  change (String.eqb "monthly" "monthly") with true. cbv iota. cbn [values].
  rewrite <- list_fmap_compose. apply list_fmap_ext.
  intros _ i Hi%list_elem_of_lookup_2. simpl. rewrite Hstr; [done|].
  repeat (apply elem_of_cons in Hi as [->|Hi]); try lia.
  by apply elem_of_nil in Hi.
Qed.

Lemma monthly_chart_months_witness :
  values (getAppointmentsChartData (fun _ _ => 10800000) (fun _ => "") "monthly"
            sample_appointments 1700000000000 []) = [0; 0; 0; 0; 0; 0] /\
  month_string (12 * 2023 + 10 - 0 - 1) = "2023-10".
Proof.
  split; [|vm_compute; reflexivity].
  rewrite (monthly_chart_months (fun _ _ => 10800000) (fun _ => "") 10800000
             sample_appointments 1700000000000 []).
  - vm_compute. reflexivity.
  - reflexivity.
  - unfold msPerDay. lia.
  - vm_compute. split; discriminate.
Defined.

(** The monthly chart on 14 November 2023, 22:13 UTC, for appointments on
    13 and 14 November (two) and on 1 December.  At UTC the last value,
    labelled November, counts the three appointments of November; three
    hours east of UTC, where the day is 15 November, it counts those of
    October, which are none. *)
Example monthly_chart_of_the_samples :
  values (getAppointmentsChartData (fun _ _ => 0) (fun _ => "") "monthly"
            sample_appointments 1700000000000 []) = [0; 0; 0; 0; 0; 3] /\
  values (getAppointmentsChartData (fun _ _ => 10800000) (fun _ => "") "monthly"
            sample_appointments 1700000000000 []) = [0; 0; 0; 0; 0; 0].
Proof. split; vm_compute; reflexivity. Qed.

(** ** Statistics *)

Lemma write_counts_missing (writes : list (string * Z)) : forall d id,
  In id writes.*1 -> getElementById d id = None ->
  foldl (fun acc '(id, n) =>
           match acc with
           | inl e => inl e
           | inr d => write_count d id n
           end)
        (inr d) writes = inl TypeError.
Proof.
  assert (forall writes : list (string * Z),
            foldl (fun acc '(id, n) =>
                     match acc with
                     | inl e => inl e
                     | inr d => write_count d id n
                     end)
                  (inl TypeError) writes = inl TypeError) as Hfailed.
  { clear. induction writes as [|[id n] writes IH]; [done | exact IH]. }
  induction writes as [|[id0 n0] writes IH]; intros d id; [intros []|].
  simpl. unfold write_count at 2.
  destruct (getElementById d id0) as [el|] eqn:E0; [|intros _ _; apply Hfailed].
  intros [<-|Hin] Hnone; [congruence|].
  apply (IH _ id Hin). unfold getElementById, set_element in *. simpl.
  rewrite lookup_insert_ne; [done|]. intros ->. congruence.
Qed.

Lemma write_counts_present (writes : list (string * Z)) : forall d,
  NoDup writes.*1 ->
  (forall id, In id writes.*1 -> is_Some (getElementById d id)) ->
  exists d',
    foldl (fun acc '(id, n) =>
             match acc with
             | inl e => inl e
             | inr d => write_count d id n
             end)
          (inr d) writes = inr d' /\
    body d' = body d /\
    (forall id n, In (id, n) writes ->
       exists el el',
         getElementById d id = Some el /\
         getElementById d' id = Some el' /\
         textContent el' = Number_toString n /\
         classList el' = classList el /\
         display el' = display el) /\
    (forall id, ~ In id writes.*1 -> getElementById d' id = getElementById d id).
Proof.
  induction writes as [|[id0 n0] writes IH]; intros d Hnd Hall.
  - exists d. split; [done|]. split; [done|]. split; [intros ? ? [] | done].
  - apply NoDup_cons in Hnd as [Hfresh Hnd].
    destruct (Hall id0 (or_introl eq_refl)) as [el0 Hel0].
    simpl. unfold write_count at 2. rewrite Hel0.
    set (d1 := set_element d id0 _).
    assert (forall id, id <> id0 -> getElementById d1 id = getElementById d id)
      as Hother.
    { intros id Hne. unfold d1, getElementById, set_element. simpl.
      by rewrite lookup_insert_ne. }
    destruct (IH d1 Hnd) as (d' & Hd' & Hbody & Hwritten & Hframe).
    { intros id Hin. rewrite Hother; [apply Hall; by right|].
      intros ->. apply Hfresh. by apply list_elem_of_In. }
    exists d'. split; [exact Hd'|]. split; [exact Hbody|]. split.
    + intros id n [[= <- <-]|Hin].
      * exists el0. eexists. split; [exact Hel0|].
        rewrite Hframe by (intros Hin; apply Hfresh; by apply list_elem_of_In).
        unfold d1, getElementById, set_element. simpl.
        rewrite lookup_insert_eq. done.
      * destruct (Hwritten id n Hin) as (el & el' & Hel & Hel' & Ht & Hc & Hdis).
        rewrite Hother in Hel.
        -- by exists el, el'.
        -- intros ->. apply Hfresh, list_elem_of_In.
           apply in_map_iff. by exists (id0, n).
    + intros id Hnot. rewrite Hframe by (intros Hin; apply Hnot; by right).
      apply Hother. intros ->. apply Hnot. by left.
Qed.

(** X20.  [updateStats] completes exactly when the page has the ten
    elements it writes.  It then shows, as decimal numerals, the number of
    active doctors, of patients, of appointments, of appointments dated
    today, of pending appointments and of unread notifications, each in
    its elements, and touches nothing else: the state, the classes and the
    style of the ten elements, and the other elements are as before.
    When one of the ten is missing it throws a [TypeError]. *)
Theorem updateStats_writes_the_counts self now :
  ((forall id, In id stats_ids -> is_Some (getElementById (page self) id)) ->
   exists self',
     updateStats self now = inr self' /\
     state self' = state self /\
     saved_theme self' = saved_theme self /\
     toasts self' = toasts self /\
     body (page self') = body (page self) /\
     (forall id n, In (id, n) (stats (state self) (today_of now)) ->
        exists el el',
          getElementById (page self) id = Some el /\
          getElementById (page self') id = Some el' /\
          textContent el' = Number_toString n /\
          classList el' = classList el /\
          display el' = display el) /\
     (forall id, ~ In id stats_ids ->
        getElementById (page self') id = getElementById (page self) id)) /\
  (forall id, In id stats_ids -> getElementById (page self) id = None ->
     updateStats self now = inl TypeError).
Proof.
  assert ((stats (state self) (today_of now)).*1 = stats_ids) as Hids by reflexivity.
  unfold updateStats. split.
  - intros Hall.
    destruct (write_counts_present (stats (state self) (today_of now)) (page self))
      as (d' & -> & Hbody & Hwritten & Hframe).
    + rewrite Hids. apply (bool_decide_unpack _).
      vm_compute. exact I.
    + by rewrite Hids.
    + eexists. split; [reflexivity|]. simpl. rewrite Hids in Hframe. done.
  - intros id Hin Hnone.
    rewrite (write_counts_missing _ _ id); [done | by rewrite Hids | done].
Qed.

Lemma updateStats_writes_the_counts_witness :
  (exists self',
     updateStats sample_app 1700000000000 = inr self' /\
     state self' = state sample_app /\
     saved_theme self' = saved_theme sample_app /\
     toasts self' = toasts sample_app /\
     body (page self') = body (page sample_app) /\
     (forall id n, In (id, n) (stats (state sample_app) (today_of 1700000000000)) ->
        exists el el',
          getElementById (page sample_app) id = Some el /\
          getElementById (page self') id = Some el' /\
          textContent el' = Number_toString n /\
          classList el' = classList el /\
          display el' = display el) /\
     (forall id, ~ In id stats_ids ->
        getElementById (page self') id = getElementById (page sample_app) id)) /\
  updateStats (with_page sample_app {| body := blank; elements := ∅ |}) 1700000000000
    = inl TypeError.
Proof.
  destruct (updateStats_writes_the_counts sample_app 1700000000000)
    as [Hpresent _].
  destruct (updateStats_writes_the_counts
              (with_page sample_app {| body := blank; elements := ∅ |})
              1700000000000) as [_ Hmissing].
  split.
  - apply Hpresent. intros id Hin. unfold stats_ids in Hin. simpl in Hin.
    repeat destruct Hin as [<-|Hin];
      try (eexists; vm_compute; reflexivity); destruct Hin.
  - apply (Hmissing "doctorsCount"); [by left | reflexivity].
Defined.

(** The statistics of the sample state on 14 November 2023: one active
    doctor out of two, two appointments of the day out of four. *)
Example updateStats_of_sample_app :
  match updateStats sample_app 1700000000000 with
  | inr self' =>
      (fun id => textContent <$> getElementById (page self') id) <$>
        ["activeDoctors"; "totalPatients"; "todayAppointments"; "dashboardBadge";
         "totalAppointments"; "notificationCount"]
  | inl _ => []
  end = [Some "1"; Some "3"; Some "2"; Some "2"; Some "4"; Some "1"].
Proof. vm_compute. reflexivity. Qed.

(** ** The appointments of today on the dashboard *)

Lemma filter_Permutation {A} (f : A -> bool) (l l' : list A) :
  l ≡ₚ l' -> List.filter f l ≡ₚ List.filter f l'.
Proof.
  induction 1 as [|x l l' _ IH|x y l|l1 l2 l3 _ IH1 _ IH2]; simpl.
  - done.
  - destruct (f x); [by constructor | done].
  - destruct (f x), (f y); try done. apply perm_swap.
  - by etrans.
Qed.

Lemma string_leb_refl s : String.leb s s = true.
Proof. unfold String.leb. by rewrite string_compare_refl. Qed.

(** X21.  The count of today's appointments that [updateStats] shows and
    the table of [updateUpcomingAppointments] agree: when at most ten
    appointments are dated today or later, every appointment dated today
    is a row of the table, and the table has as many rows dated today as
    the statistics count, under every collation. *)
Theorem todays_appointments_are_listed
    (localeCompare : string -> string -> Z) (appointments : list appointment)
    (today : string) :
  (length (List.filter (fun a => String.leb today (date a)) appointments) <= 10)%nat ->
  (forall a, In a appointments -> date a = today ->
             In a (upcoming localeCompare appointments today)) /\
  length (List.filter (fun a => String.eqb (date a) today)
            (upcoming localeCompare appointments today)) =
  length (List.filter (fun a => String.eqb (date a) today) appointments).
Proof.
  intros Hten.
  assert (upcoming localeCompare appointments today ≡ₚ
          List.filter (fun a => String.leb today (date a)) appointments) as Hperm.
  { unfold upcoming. rewrite take_ge.
    - apply Array_sort_perm.
    - by rewrite Array_sort_perm. }
  split.
  - intros a Hin Hdate. apply list_elem_of_In. rewrite Hperm.
    apply list_elem_of_In, filter_In. split; [done|].
    rewrite Hdate. apply string_leb_refl.
  - rewrite (filter_Permutation _ _ _ Hperm). f_equal.
    clear. induction appointments as [|a l IH]; [done|]. simpl.
    destruct (String.eqb_spec (date a) today) as [E|Hne].
    + assert (String.leb today (date a) = true) as ->
        by (rewrite E; apply string_leb_refl).
      simpl. rewrite (proj2 (String.eqb_eq _ _) E). by f_equal.
    + destruct (String.leb today (date a)); [|exact IH]. simpl.
      apply String.eqb_neq in Hne. by rewrite Hne.
Qed.

Lemma todays_appointments_are_listed_witness :
  (length (List.filter (fun a => String.leb "2023-11-14" (date a))
             sample_appointments) <= 10)%nat /\
  In appointment_2 (upcoming code_unit_compare sample_appointments "2023-11-14") /\
  length (List.filter (fun a => String.eqb (date a) "2023-11-14")
            (upcoming code_unit_compare sample_appointments "2023-11-14")) =
  length (List.filter (fun a => String.eqb (date a) "2023-11-14")
            sample_appointments).
Proof.
  assert (length (List.filter (fun a => String.leb "2023-11-14" (date a))
                    sample_appointments) <= 10)%nat as Hten
    by (vm_compute; lia).
  destruct (todays_appointments_are_listed code_unit_compare sample_appointments
              "2023-11-14" Hten) as [Hin Hcount].
  split; [exact Hten|]. split; [|exact Hcount].
  apply Hin; [right; left; reflexivity | reflexivity].
Defined.

(** ** Class tokens *)

Lemma has_token_In token tokens : has_token token tokens = true <-> In token tokens.
Proof.
  unfold has_token. rewrite existsb_exists. split.
  - by intros (t & Hin & ->%String.eqb_eq).
  - intros Hin. exists token. split; [done | apply String.eqb_refl].
Qed.

Lemma has_token_not_In token tokens :
  has_token token tokens = false <-> ~ In token tokens.
Proof.
  rewrite <- has_token_In. by destruct (has_token token tokens).
Qed.

Lemma In_token_remove c removed tokens :
  In c (token_remove removed tokens) <-> In c tokens /\ ~ In c removed.
Proof.
  unfold token_remove. rewrite filter_In, negb_true_iff, has_token_not_In. done.
Qed.

Lemma In_token_add c token tokens :
  In c (token_add token tokens) <-> c = token \/ In c tokens.
Proof.
  unfold token_add. destruct (has_token token tokens) eqn:E.
  - apply has_token_In in E. split; [by right | by intros [->|?]].
  - rewrite in_app_iff. simpl. split; [intros [?|[<-|[]]]; auto | intros [->|?]; auto].
Qed.

Lemma In_token_toggle c token tokens :
  In c (token_toggle token tokens) <->
  (c = token /\ ~ In token tokens) \/ (c <> token /\ In c tokens).
Proof.
  unfold token_toggle. destruct (has_token token tokens) eqn:E.
  - apply has_token_In in E. rewrite In_token_remove. simpl. split.
    + intros [Hin Hne]. right. split; [|done]. intros ->. apply Hne. by left.
    + intros [[-> Hnot]|[Hne Hin]]; [done|]. split; [done|]. by intros [<-|[]].
  - apply has_token_not_In in E. rewrite in_app_iff. simpl. split.
    + intros [Hin|[<-|[]]]; [|by left]. right. split; [|done]. by intros ->.
    + intros [[-> _]|[_ Hin]]; auto.
Qed.

(** ** Theme *)

(** X22.  [toggleTheme] never throws on a storage that takes the item.  It
    makes the theme [light] when it was [dark] and [dark] otherwise, saves
    it in [localStorage], gives the body the class of the new theme in
    place of the classes [light-mode] and [dark-mode], keeps the other
    classes of the body, and sets the icon if there is one; a second call
    brings back a theme that was [dark] or [light]. *)
Theorem toggleTheme_switches self :
  let new_theme := if String.eqb (theme (state self)) "dark" then "light" else "dark" in
  exists self',
    toggleTheme self true = inr self' /\
    theme (state self') = new_theme /\
    saved_theme self' = Some new_theme /\
    (forall c, In c (classList (body (page self'))) <->
       c = new_theme ++ "-mode" \/
       (In c (classList (body (page self))) /\ c <> "light-mode" /\ c <> "dark-mode")) /\
    (forall icon, getElementById (page self) "themeIcon" = Some icon ->
       classList <$> getElementById (page self') "themeIcon" =
       Some (if String.eqb new_theme "dark" then ["fas"; "fa-sun"]
             else ["fas"; "fa-moon"])) /\
    (theme (state self) = "dark" \/ theme (state self) = "light" ->
     exists self'',
       toggleTheme self' true = inr self'' /\
       theme (state self'') = theme (state self)).
Proof.
  intros new_theme.
  assert (forall s t,
            t = "light" \/ t = "dark" ->
            exists s',
              setTheme s t true = inr s' /\
              theme (state s') = t /\
              saved_theme s' = Some t /\
              (forall c, In c (classList (body (page s'))) <->
                 c = t ++ "-mode" \/
                 (In c (classList (body (page s))) /\
                  c <> "light-mode" /\ c <> "dark-mode")) /\
              (forall icon, getElementById (page s) "themeIcon" = Some icon ->
                 classList <$> getElementById (page s') "themeIcon" =
                 Some (if String.eqb t "dark" then ["fas"; "fa-sun"]
                       else ["fas"; "fa-moon"]))) as Hset.
  { intros s t Ht. unfold setTheme.
    assert (check_token (t ++ "-mode") = None) as ->
      by (destruct Ht as [->| ->]; reflexivity).
    cbn [negb]. eexists. split; [reflexivity|]. cbn [state theme saved_theme page body classList].
    split; [done|]. split; [done|]. split.
    - intros c. rewrite In_token_add, In_token_remove. simpl.
      naive_solver.
    - intros icon Hicon. unfold getElementById in *. cbn [elements].
      rewrite Hicon. by rewrite lookup_insert_eq. }
  unfold toggleTheme. fold new_theme.
  destruct (Hset self new_theme) as (self' & Hself' & Htheme & Hsaved & Hclasses & Hicon).
  { unfold new_theme. destruct (String.eqb _ _); auto. }
  exists self'. repeat (split; [done|]).
  intros Hold. rewrite Htheme.
  destruct (Hset self' (if String.eqb new_theme "dark" then "light" else "dark"))
    as (self'' & Hself'' & Htheme'' & _).
  { destruct (String.eqb _ _); auto. }
  exists self''. split; [exact Hself''|]. rewrite Htheme''. unfold new_theme.
  destruct Hold as [-> | ->]; reflexivity.
Qed.

(** X23.  The theme that [setTheme] has saved is the one that the next
    start restores, whatever it is, with one exception: the empty theme
    is saved as well, and the next start falls back to [dark]. *)
Theorem theme_survives_a_restart self new_theme self' :
  setTheme self new_theme true = inr self' ->
  saved_theme self' = Some new_theme /\
  savedTheme (saved_theme self') = (if String.eqb new_theme "" then "dark" else new_theme) /\
  forall later room,
    saved_theme later = saved_theme self' ->
    initUIComponents_theme later room =
    setTheme later (if String.eqb new_theme "" then "dark" else new_theme) room.
Proof.
  unfold setTheme. destruct (check_token _); [done|]. cbn [negb].
  intros [= <-]. cbn [saved_theme].
  assert (savedTheme (Some new_theme) =
          (if String.eqb new_theme "" then "dark" else new_theme)) as Hsaved.
  { unfold savedTheme. simpl. by destruct (String.eqb new_theme ""). }
  split; [done|]. split; [exact Hsaved|].
  intros later room Hlater. unfold initUIComponents_theme.
  by rewrite Hlater, Hsaved.
Qed.

(** ** Sidebar *)

(** X24.  [toggleSidebar] and [handleResize] keep the sidebar in step
    with the state: when the class [collapsed] of the sidebar tells what
    [sidebarCollapsed] says, it still does after either call.
    [toggleSidebar] flips the flag, and [handleResize] collapses the
    sidebar below a width of 768 and does nothing from 768 on. *)
Theorem sidebar_stays_in_sync self :
  sidebar_in_sync self ->
  sidebar_in_sync (toggleSidebar self) /\
  sidebarCollapsed (state (toggleSidebar self)) = negb (sidebarCollapsed (state self)) /\
  forall innerWidth,
    sidebar_in_sync (handleResize self innerWidth) /\
    (innerWidth < 768 ->
     sidebarCollapsed (state (handleResize self innerWidth)) = true) /\
    (768 <= innerWidth -> handleResize self innerWidth = self).
Proof.
  intros Hsync. unfold sidebar_in_sync in *. split; [|split].
  - intros el. unfold toggleSidebar, on_classList. cbn [page with_sidebarCollapsed with_state].
    destruct (getElementById (page self) "sidebar") as [el0|] eqn:E0.
    + cbn [page with_page state sidebarCollapsed].
      unfold getElementById, set_element. cbn [elements].
      rewrite lookup_insert_eq. intros [= <-]. cbn [classList].
      rewrite In_token_toggle. specialize (Hsync el0 eq_refl).
      destruct (sidebarCollapsed (state self)); simpl; split.
      * done.
      * intros [[_ Hnot]|[Hne _]]; [|done]. destruct Hnot. by apply Hsync.
      * intros _. left. split; [done|]. intros Hin. by apply Hsync in Hin.
      * done.
    + cbn [page with_sidebarCollapsed with_state state sidebarCollapsed].
      rewrite E0. done.
  - unfold toggleSidebar, on_classList. cbn [page with_sidebarCollapsed with_state].
    by destruct (getElementById (page self) "sidebar").
  - intros innerWidth. unfold handleResize.
    destruct (Z.ltb_spec innerWidth 768) as [Hlt|Hge].
    + split; [|split; [done | lia]].
      intros el. unfold on_classList.
      destruct (getElementById (page self) "sidebar") as [el0|] eqn:E0.
      * cbn [page with_sidebarCollapsed with_state with_page state sidebarCollapsed].
        unfold getElementById, set_element. cbn [elements].
        rewrite lookup_insert_eq. intros [= <-]. cbn [classList].
        rewrite In_token_add. split; auto.
      * cbn [page with_sidebarCollapsed with_state]. rewrite E0. done.
    + split; [exact Hsync|]. split; [lia | done].
Qed.

(** ** Notifications *)

Lemma unreadCount_all_read (l : list Notification) :
  List.filter (fun n => negb (n_read n))
    ((fun n =>
        {| n_id := n_id n; n_type := n_type n; n_title := n_title n;
           n_message := n_message n; n_time := n_time n; n_read := true |}) <$> l)
  = [].
Proof. induction l as [|n l IH]; [done | exact IH]. Qed.

Lemma badge_after_update self :
  badge_shows_unread (updateNotificationBadge self) /\
  state (updateNotificationBadge self) = state self /\
  toasts (updateNotificationBadge self) = toasts self /\
  forall id, id <> "notificationCount" ->
    getElementById (page (updateNotificationBadge self)) id =
    getElementById (page self) id.
Proof.
  unfold updateNotificationBadge, badge_shows_unread.
  destruct (getElementById (page self) "notificationCount") as [badge|] eqn:E.
  - split; [|split; [done | split; [done|]]].
    + intros badge'. unfold unreadCount. cbn [page with_page state].
      unfold getElementById, set_element. cbn [elements].
      rewrite lookup_insert_eq. by intros [= <-].
    + intros id Hne. cbn [page with_page]. unfold getElementById, set_element.
      cbn [elements]. by rewrite lookup_insert_ne.
  - split; [|done]. intros badge' Hb. congruence.
Qed.

Lemma showNewNotifications_toasts (l : list Notification) : forall self,
  state (showNewNotifications self l) = state self /\
  page (showNewNotifications self l) = page self /\
  toasts (showNewNotifications self l) =
    (toasts self ++ ((fun n => ("info", n_title n, n_message n)) <$> l))%list.
Proof.
  induction l as [|n l IH]; intros self.
  - simpl. by rewrite app_nil_r.
  - cbn [showNewNotifications foldl]. fold (showNewNotifications (showToast self "info" (n_title n) (n_message n)) l).
    destruct (IH (showToast self "info" (n_title n) (n_message n)))
      as (-> & -> & ->).
    cbn [showToast state page toasts fmap list_fmap]. by rewrite <- app_assoc.
Qed.

(** X25.  After [markAllAsRead] no notification is unread, the
    notifications being otherwise the same ones in the same order; the
    badge, when the page has one, reads 0 and is hidden; and one toast has
    been shown. *)
Theorem markAllAsRead_clears_the_badge self :
  unreadCount (markAllAsRead self) = 0 /\
  Forall2 (fun n n' =>
             n_read n' = true /\ n_id n' = n_id n /\ n_type n' = n_type n /\
             n_title n' = n_title n /\ n_message n' = n_message n /\
             n_time n' = n_time n)
          (notifications (state self))
          (notifications (state (markAllAsRead self))) /\
  (forall badge,
     getElementById (page (markAllAsRead self)) "notificationCount" = Some badge ->
     textContent badge = "0" /\ display badge = "none") /\
  length (toasts (markAllAsRead self)) = S (length (toasts self)).
Proof.
  unfold markAllAsRead.
  set (self1 := with_notifications self _).
  assert (unreadCount self1 = 0) as Hzero.
  { unfold unreadCount, self1. cbn [with_notifications with_state state notifications].
    by rewrite unreadCount_all_read. }
  destruct (badge_after_update self1) as (Hbadge & Hstate & Htoasts & Hframe).
  unfold unreadCount, toggleNotifications, on_classList.
  split; [|split; [|split]].
  - destruct (getElementById _ "notificationPanel");
      cbn [showToast with_page state]; rewrite Hstate; exact Hzero.
  - destruct (getElementById _ "notificationPanel");
      cbn [showToast with_page state]; rewrite Hstate;
      unfold self1; cbn [with_notifications with_state state notifications];
      apply Forall2_fmap_r, Forall_Forall2_diag, Forall_forall; intros; done.
  - intros badge.
    destruct (getElementById _ "notificationPanel") eqn:Hpanel;
      cbn [showToast with_page page].
    + unfold getElementById at 1, set_element. cbn [elements].
      rewrite lookup_insert_ne by done. intros Hb.
      destruct (Hbadge badge Hb) as [Ht Hd].
      rewrite Ht, Hd. unfold unreadCount. rewrite Hstate.
      fold (unreadCount self1). rewrite Hzero. done.
    + intros Hb. destruct (Hbadge badge Hb) as [Ht Hd].
      rewrite Ht, Hd. unfold unreadCount. rewrite Hstate.
      fold (unreadCount self1). rewrite Hzero. done.
  - destruct (getElementById _ "notificationPanel");
      cbn [showToast with_page toasts]; rewrite length_app, Htoasts; simpl; lia.
Qed.

(** X26.  [checkNewNotifications] with new notifications puts them before
    the old ones, shows one toast for each in their order, and leaves the
    badge showing the number of unread notifications, hidden when there is
    none; with no new notification it does nothing. *)
Theorem checkNewNotifications_updates_the_badge self newNotifications :
  newNotifications <> [] ->
  let self' := checkNewNotifications self newNotifications in
  notifications (state self') =
    (newNotifications ++ notifications (state self))%list /\
  unreadCount self' =
    Array_length (List.filter (fun n => negb (n_read n)) newNotifications) +
    unreadCount self /\
  badge_shows_unread self' /\
  toasts self' =
    (toasts self ++
     ((fun n => ("info", n_title n, n_message n)) <$> newNotifications))%list /\
  checkNewNotifications self [] = self.
Proof.
  intros Hnew self'. subst self'. unfold checkNewNotifications.
  destruct newNotifications as [|n l]; [done|].
  rewrite Array_length_cons.
  destruct (Z.ltb_spec 0 (Array_length l + 1)) as [_|Hle];
    [|unfold Array_length in Hle; lia].
  set (self1 := with_notifications self _).
  destruct (badge_after_update self1) as (Hbadge & Hstate & Htoasts & _).
  destruct (showNewNotifications_toasts (n :: l) (updateNotificationBadge self1))
    as (Hst & Hpage & Hts).
  split; [by rewrite Hst, Hstate|]. split; [|split; [|split; [|done]]].
  - unfold unreadCount. rewrite Hst, Hstate. unfold self1.
    cbn [with_notifications with_state state notifications].
    rewrite List.filter_app. unfold Array_length. rewrite length_app. lia.
  - unfold badge_shows_unread, unreadCount in *. rewrite Hpage, Hst. exact Hbadge.
  - by rewrite Hts, Htoasts.
Qed.

(** ** saveData *)

Lemma update_keeps_key self storeName item name k :
  is_Some (records_of self name !! k) ->
  is_Some (records_of (update self storeName item).2 name !! k).
Proof.
  destruct (update self storeName item) as [[k'|e] self'] eqn:Hu; simpl.
  - apply update_inv in Hu as (s & Hs & _ & Hs' & Hother).
    unfold records_of. destruct (decide (name = storeName)) as [->|Hne].
    + rewrite Hs, Hs'. simpl. intros Hk. rewrite lookup_insert_is_Some.
      destruct (decide (k' = k)); auto.
    + by rewrite Hother.
  - by apply update_rejected in Hu as ->.
Qed.

Lemma run_updates_keep_key calls : forall self name k,
  is_Some (records_of self name !! k) ->
  is_Some (records_of (run_updates self calls).1 name !! k).
Proof.
  induction calls as [|[n x] calls IH]; intros self name k Hk; [done|].
  simpl. pose proof (update_keeps_key self n x name k Hk) as H1.
  destruct (update self n x) as [p self1]. simpl in H1.
  specialize (IH self1 name k H1).
  destruct (run_updates self1 calls) as [self2 ps]. done.
Qed.

(** When every call of a batch of updates resolves, every record of the
    batch has its id in its store afterwards. *)
Lemma run_updates_present calls : forall self,
  Forall resolved (run_updates self calls).2 ->
  forall name x, (name, x) ∈ calls ->
    exists s k,
      store_of self name = Some s /\
      extract_key (os_keyPath s) x = Some k /\
      is_Some (records_of (run_updates self calls).1 name !! k).
Proof.
  induction calls as [|[n0 x0] calls IH]; intros self Hall name x Hin;
    [by apply elem_of_nil in Hin|].
  simpl in *.
  destruct (update self n0 x0) as [p self1] eqn:Hu.
  specialize (IH self1).
  pose proof (run_updates_keep_key calls self1) as Hkeep.
  destruct (run_updates self1 calls) as [self2 ps]. simpl in *.
  apply Forall_cons in Hall as [[k0 Hp] Hall].
  destruct p as [k0'|e]; [|done]. injection Hp as ->.
  apply elem_of_cons in Hin as [[= -> ->]|Hin].
  - pose proof Hu as Hu'.
    apply update_inv in Hu' as (s & Hs & Hk & Hs' & _).
    exists s, k0. split; [done|]. split; [done|]. apply Hkeep.
    unfold records_of. rewrite Hs'. simpl. by rewrite lookup_insert_eq.
  - destruct (IH Hall name x Hin) as (s1 & k & Hs1 & Hk & Hfinal).
    assert (store_of (update self n0 x0).2 name = Some s1) as Hs1'
      by by rewrite Hu.
    destruct (update_store_before _ _ _ _ _ Hs1') as (s & Hs & Hpath).
    exists s, k. rewrite Hpath. done.
Qed.

Lemma saveAll_run_updates self data :
  bundle data ->
  saveAll self data =
  (Promise_all (run_updates self (update_calls data)).2,
   (run_updates self (update_calls data)).1).
Proof.
  intros (Hd & Hp & Ha). unfold saveAll, update_calls.
  rewrite (push_field_update data "doctors") by done.
  rewrite (push_field_update data "patients") by done.
  rewrite (push_field_update data "appointments") by done.
  rewrite !push_each_update, !run_updates_app. simpl.
  by rewrite <- !app_assoc.
Qed.

Lemma saveData_properties ds ps aps :
  let props :=
    (property "doctors" ds ++ property "patients" ps ++
     property "appointments" aps)%list in
  prop_lookup "doctors" props = ds /\
  prop_lookup "patients" props = ps /\
  prop_lookup "appointments" props = aps.
Proof. destruct ds, ps, aps; repeat split; reflexivity. Qed.

(** X27.  [saveData] writes the backup to [localStorage] only after the
    whole save has succeeded: when the outcome is not [Saved] the backup
    item is the one it was, and when it is, the backup is the state and,
    the three collections of the state being arrays or absent, every
    record of theirs has its id in its store of the database. *)
Theorem saveData_backs_up_after_saving self this_state backup room
    self' backup' outcome :
  saveData self this_state backup room = (self', backup', outcome) ->
  (outcome <> Saved -> backup' = backup) /\
  (outcome = Saved ->
   room = true /\
   backup' = Some (JSON_stringify this_state) /\
   (bundle this_state ->
    forall name x, name ∈ collections -> x ∈ listed this_state name ->
      exists s k,
        store_of self name = Some s /\
        extract_key (os_keyPath s) x = Some k /\
        is_Some (records_of self' name !! k))).
Proof.
  unfold saveData.
  destruct (get_prop this_state "doctors") as [e|ds] eqn:Hds;
    [intros [= <- <- <-]; split; [done | discriminate]|].
  destruct (get_prop this_state "patients") as [e|ps] eqn:Hps;
    [intros [= <- <- <-]; split; [done | discriminate]|].
  destruct (get_prop this_state "appointments") as [e|aps] eqn:Has;
    [intros [= <- <- <-]; split; [done | discriminate]|].
  set (data := VObj _).
  destruct (saveAll self data) as [[keys|e] self1] eqn:Hsave;
    [|intros [= <- <- <-]; split; [done | discriminate]].
  destruct room; [|intros [= <- <- <-]; split; [done | discriminate]].
  intros [= <- <- <-]. split; [done|]. intros _. split; [done|]. split; [done|].
  intros (Hbd & Hbp & Hba) name x Hname Hx.
  destruct (saveData_properties ds ps aps) as (Hpd & Hpp & Hpa).
  assert (forall n, n ∈ collections -> get_prop data n = get_prop this_state n)
    as Hsame.
  { intros n Hn. unfold collections in Hn.
    repeat (apply elem_of_cons in Hn as [->|Hn]);
      [| | |by apply elem_of_nil in Hn]; unfold data, get_prop at 1;
      rewrite ?Hpd, ?Hpp, ?Hpa; congruence. }
  assert (bundle data) as Hbundle.
  { unfold bundle, array_or_absent.
    rewrite !Hsame by (unfold collections; set_solver). done. }
  rewrite (saveAll_run_updates _ _ Hbundle) in Hsave.
  injection Hsave as Hall <-.
  apply Promise_all_resolved in Hall.
  apply (run_updates_present _ _ Hall).
  assert (x ∈ listed data name) as Hx'
    by (unfold listed in *; by rewrite Hsame).
  unfold update_calls, collections in *.
  repeat (apply elem_of_cons in Hname as [->|Hname]);
    [| | |by apply elem_of_nil in Hname];
    rewrite !elem_of_app, !list_elem_of_fmap; eauto 6.
Qed.

Lemma saveData_backs_up_after_saving_witness :
  exists self',
    saveData fresh_clinic sample_state None true =
      (self', Some sample_state, Saved) /\
    bundle sample_state /\
    patient_3 ∈ listed sample_state "patients" /\
    exists s k,
      store_of fresh_clinic "patients" = Some s /\
      extract_key (os_keyPath s) patient_3 = Some k /\
      is_Some (records_of self' "patients" !! k).
Proof.
  eexists. split; [vm_compute; reflexivity|].
  assert (bundle sample_state) as Hbundle by (repeat split).
  assert (patient_3 ∈ listed sample_state "patients") as Hlisted
    by (vm_compute; left).
  split; [exact Hbundle|]. split; [exact Hlisted|].
  eapply (saveData_backs_up_after_saving fresh_clinic sample_state None true
            _ (Some sample_state) Saved);
    [vm_compute; reflexivity | reflexivity | exact Hbundle
    | unfold collections; set_solver | exact Hlisted].
Defined.

(** A save that the unique phone index interrupts: the first patient is
    stored, the second is not, and the backup is left alone. *)
Example saveData_of_conflicting_state :
  let '(self', backup', outcome) :=
    saveData fresh_clinic conflicting_state (Some (VStr "earlier")) true in
  outcome = SaveFailed ConstraintError /\
  backup' = Some (VStr "earlier") /\
  records_of self' "patients" !! KStr "p1" = Some patient_1 /\
  records_of self' "patients" !! KStr "p2" = None.
Proof. vm_compute. repeat split. Qed.

(** ** The page of the samples *)

Lemma patients_by_gender_witness :
  "gender" <> "age" /\
  labels (getPatientsChartData "gender" sample_patients) = ["ذكور"; "إناث"] /\
  values (getPatientsChartData "gender" sample_patients) = [1; 2] /\
  1 + 2 <= Array_length sample_patients /\
  (1 + 2 = Array_length sample_patients <->
   forall p, In p sample_patients -> p_gender p = "male" \/ p_gender p = "female").
Proof.
  split; [discriminate|].
  apply (patients_by_gender "gender" sample_patients). discriminate.
Defined.

(** The age chart of the sample patients, who are 17, 30 and 61. *)
Example patients_by_age_of_the_samples :
  values (getPatientsChartData "age" sample_patients) = [1; 1; 0; 0; 1].
Proof. vm_compute. reflexivity. Qed.

Lemma toggleTheme_switches_witness :
  exists self',
    toggleTheme sample_app true = inr self' /\
    theme (state self') = "light" /\
    saved_theme self' = Some "light" /\
    (forall c, In c (classList (body (page self'))) <->
       c = "light-mode" \/
       (In c ["app"; "dark-mode"] /\ c <> "light-mode" /\ c <> "dark-mode")) /\
    (forall icon, getElementById sample_page "themeIcon" = Some icon ->
       classList <$> getElementById (page self') "themeIcon" =
       Some ["fas"; "fa-moon"]) /\
    ("dark" = "dark" \/ "dark" = "light" ->
     exists self'',
       toggleTheme self' true = inr self'' /\ theme (state self'') = "dark").
Proof. exact (toggleTheme_switches sample_app). Defined.

Lemma theme_survives_a_restart_witness :
  exists self',
    setTheme sample_app "light" true = inr self' /\
    saved_theme self' = Some "light" /\
    savedTheme (saved_theme self') = "light" /\
    forall later room,
      saved_theme later = saved_theme self' ->
      initUIComponents_theme later room = setTheme later "light" room.
Proof.
  eexists. split; [vm_compute; reflexivity|].
  eapply (theme_survives_a_restart sample_app "light"). vm_compute. reflexivity.
Defined.

Lemma sidebar_stays_in_sync_witness :
  sidebar_in_sync sample_app /\
  sidebar_in_sync (toggleSidebar sample_app) /\
  sidebarCollapsed (state (toggleSidebar sample_app)) = true /\
  forall innerWidth,
    sidebar_in_sync (handleResize sample_app innerWidth) /\
    (innerWidth < 768 ->
     sidebarCollapsed (state (handleResize sample_app innerWidth)) = true) /\
    (768 <= innerWidth -> handleResize sample_app innerWidth = sample_app).
Proof.
  assert (sidebar_in_sync sample_app) as Hsync.
  { intros el Hel. vm_compute in Hel. injection Hel as <-. simpl.
    split; [discriminate | intros []]. }
  split; [exact Hsync|]. exact (sidebar_stays_in_sync sample_app Hsync).
Defined.

(** The sample page after [markAllAsRead]. *)
Example markAllAsRead_of_sample_app :
  (n_read <$> notifications (state (markAllAsRead sample_app))) = [true; true] /\
  getElementById (page (markAllAsRead sample_app)) "notificationCount" =
    Some {| textContent := "0"; classList := []; display := "none" |} /\
  (classList <$> getElementById (page (markAllAsRead sample_app)) "notificationPanel")
    = Some ["show"].
Proof. vm_compute. repeat split. Qed.

Lemma checkNewNotifications_updates_the_badge_witness :
  let reminder :=
    {| n_id := "1700000000000"; n_type := "reminder"; n_title := "Reminder";
       n_message := "The report of the week";
       n_time := "2023-11-14T22:13:20.000Z"; n_read := false |} in
  let self' := checkNewNotifications sample_app [reminder] in
  [reminder] <> [] /\
  notifications (state self') = reminder :: sample_notifications /\
  unreadCount self' = 1 + unreadCount sample_app /\
  badge_shows_unread self' /\
  toasts self' = [("info", "Reminder", "The report of the week")] /\
  checkNewNotifications sample_app [] = sample_app.
Proof.
  intros reminder self'. split; [discriminate|].
  exact (checkNewNotifications_updates_the_badge sample_app [reminder]
           ltac:(discriminate)).
Defined.
